(** * React 19 feature demos: a shallow embedding of the page-local logic

    The repository is a set of independent demo pages.  The pieces of logic
    that carry behaviour are embedded here, page by page:

    - [ServerActions]  [submitFormAction]            (app/server-actions/actions.ts)
    - [FormActions]    the [useActionState] reducer  (Form Actions demo)
    - [Optimistic]     the [useOptimistic] reducer and [updateTodoOnServer]
    - [Cart]           [addItem] / [removeItem]       (app/use-effect-event/page.tsx)
    - [EffectEvent]    the [useEffectEvent] polyfill  (app/use-effect-event/page.tsx)
    - [Boundary]       the class component [ErrorBoundary]
    - [ViewTransition] [withViewTransition]
    - [Runtime]        timers and promises, in virtual time
    - [UseDemo], [ErrorDemo], [OptimisticRun], [Suspense]
                       the simulated fetches and the two timelines
    - [TodoDemo], [CartView], [VisitTracker], [Notification],
      [BeforeAfterComparison], [ErrorHandlingDemo], [AsyncBuggyComponent],
      [ViewTransitionsDemo], [UseHookDemo], [SearchResults], [SuspenseView],
      [ActivityDemo]
                       the components of the pages around these pieces

    Definitions come first; the theorems about them follow in the second
    half of the file. *)

From Stdlib Require Import ZArith NArith List Bool String Ascii Lia.
From Stdlib Require Import DecimalString.
Import ListNotations.

Set Implicit Arguments.
Set Warnings "-register-all".

(* ===================================================================== *)
(** * JavaScript data *)
(* ===================================================================== *)

(** A JavaScript string is a sequence of UTF-16 code units. *)
Definition code_unit := N.
Definition jsstring := list code_unit.

(** String literals of the source are ASCII; [js] gives their code units. *)
Definition js (s : string) : jsstring :=
  List.map N_of_ascii (list_ascii_of_string s).

Fixpoint jsstring_eqb (a b : jsstring) : bool :=
  match a, b with
  | [], [] => true
  | x :: a', y :: b' => N.eqb x y && jsstring_eqb a' b'
  | _, _ => false
  end.

(** [s.startsWith(p)] *)
Fixpoint startsWith (s p : jsstring) {struct p} : bool :=
  match p, s with
  | [], _ => true
  | x :: p', y :: s' => N.eqb x y && startsWith s' p'
  | _ :: _, [] => false
  end.

(** [s.includes(search)]: [search] occurs in [s] at some position. *)
Fixpoint includes (s search : jsstring) : bool :=
  startsWith s search
  || match s with
     | [] => false
     | _ :: s' => includes s' search
     end.

(** WhiteSpace and LineTerminator code points, the ones [trim] removes. *)
Definition is_white_space (c : code_unit) : bool :=
  existsb (N.eqb c)
    [9; 10; 11; 12; 13; 32; 160; 5760; 8192; 8193; 8194; 8195; 8196; 8197;
     8198; 8199; 8200; 8201; 8202; 8232; 8233; 8239; 8287; 12288; 65279]%N.

Fixpoint trimStart (s : jsstring) : jsstring :=
  match s with
  | c :: s' => if is_white_space c then trimStart s' else s
  | [] => []
  end.

Definition trimEnd (s : jsstring) : jsstring := rev (trimStart (rev s)).

(** [s.trim()] *)
Definition trim (s : jsstring) : jsstring := trimEnd (trimStart s).

(** An [Error] object: its [name] and [message]. *)
Record Error := mkError { err_name : jsstring; err_message : jsstring }.

Definition TypeError (msg : string) : Error := mkError (js "TypeError") (js msg).
Definition new_Error (msg : string) : Error := mkError (js "Error") (js msg).

(** How the evaluation of an expression or of a function body ends. *)
Inductive completion (A : Type) : Type :=
| Normal (a : A)
| Throw (e : Error).
Arguments Normal {A} a.
Arguments Throw {A} e.

(** Values of type [any], as far as the pages pass them around. *)
Inductive any : Type :=
| Undefined
| Null
| Bool (b : bool)
| Number (z : Z)
| Str (s : jsstring)
| Obj (fields : list (jsstring * any)).

(** ** Async functions

    The body of an [async function], cut at its [await]s.  Every [await] in
    the repository has the form
    [await new Promise((resolve) => setTimeout(resolve, ms))]. *)
Inductive async (A : Type) : Type :=
| Return (a : A)                        (* return a *)
| Raise (e : Error)                     (* an uncaught throw *)
| Await_timeout (ms : Z) (k : async A). (* await a timer, then go on with k *)
Arguments Return {A} a.
Arguments Raise {A} e.
Arguments Await_timeout {A} ms k.

(** What the promise of an async call settles with: [Normal] is fulfilment,
    [Throw] is rejection. *)
Fixpoint settlement {A} (p : async A) : completion A :=
  match p with
  | Return a => Normal a
  | Raise e => Throw e
  | Await_timeout _ k => settlement k
  end.

(** The timer delays awaited on the way, in order. *)
Fixpoint delays {A} (p : async A) : list Z :=
  match p with
  | Return _ | Raise _ => []
  | Await_timeout ms k => ms :: delays k
  end.

(** ** FormData *)

(** An entry value is a string or a [File]. *)
Inductive FormDataEntryValue : Type :=
| Text (s : jsstring)
| File (filename : jsstring).

Definition FormData := list (jsstring * FormDataEntryValue).

(** [formData.get(name)]: the first value under [name], [None] for [null]. *)
Fixpoint get (formData : FormData) (name : jsstring) : option FormDataEntryValue :=
  match formData with
  | [] => None
  | (k, v) :: rest => if jsstring_eqb k name then Some v else get rest name
  end.

(** The casts [formData.get(..) as string] are erased when the program runs:
    the variables hold a string, a [File] or [null].  The operations the
    source applies to them follow. *)

(** [!v] *)
Definition not_ (v : option FormDataEntryValue) : bool :=
  match v with
  | None => true
  | Some (Text []) => true
  | Some (Text (_ :: _)) => false
  | Some (File _) => false
  end.

(** [v.includes(search)]; only strings have the method. *)
Definition call_includes (var : string) (v : option FormDataEntryValue)
    (search : jsstring) : completion bool :=
  match v with
  | Some (Text s) => Normal (includes s search)
  | Some (File _) => Throw (TypeError (var ++ ".includes is not a function"))
  | None => Throw (TypeError "Cannot read properties of null (reading 'includes')")
  end.

(** [v.trim()] *)
Definition call_trim (var : string) (v : option FormDataEntryValue)
    : completion jsstring :=
  match v with
  | Some (Text s) => Normal (trim s)
  | Some (File _) => Throw (TypeError (var ++ ".trim is not a function"))
  | None => Throw (TypeError "Cannot read properties of null (reading 'trim')")
  end.

(** [`${v}`] inside a template literal. *)
Definition to_string (v : option FormDataEntryValue) : jsstring :=
  match v with
  | Some (Text s) => s
  | Some (File _) => js "[object File]"
  | None => js "null"
  end.

(* ===================================================================== *)
(** * app/server-actions/actions.ts *)
(* ===================================================================== *)

Module ServerActions.

(** The two object shapes the action returns; an absent property is [None]. *)
Record ActionState := mkState {
  success : bool;
  error : option jsstring;
  message : option jsstring
}.

Definition submitFormAction (prevState : any) (formData : FormData)
    : async ActionState :=
  (* Simulate server processing time *)
  Await_timeout 1000
    (let name := get formData (js "name") in
     let email := get formData (js "email") in
     let message := get formData (js "message") in
     (* Validation *)
     if not_ name || not_ email || not_ message then
       Return {| error := Some (js "Please fill in all fields");
                 success := false;
                 message := None |}
     else
       match call_includes "email" email (js "@") with
       | Throw e => Raise e
       | Normal has_at =>
           if negb has_at then
             Return {| error := Some (js "Please enter a valid email address");
                       success := false;
                       message := None |}
           else
             (* Simulate successful submission *)
             Return {| success := true;
                       message :=
                         Some (js "Thanks " ++ to_string name
                               ++ js "! We received your message and will contact you at "
                               ++ to_string email ++ js " soon.");
                       error := None |}
       end).

End ServerActions.

(* ===================================================================== *)
(** * Form Actions demo: the reducer given to [useActionState] *)
(* ===================================================================== *)

Module FormActions.

Definition formAction (currentTodos : list jsstring) (formData : FormData)
    : async (list jsstring) :=
  let todo := get formData (js "todo") in
  (* Simulate server delay *)
  Await_timeout 500
    (match call_trim "todo" todo with
     | Throw e => Raise e
     | Normal trimmed =>
         if (match trimmed with [] => true | _ :: _ => false end)
         then Return currentTodos
         else Return (currentTodos ++ [to_string todo])
     end).

End FormActions.

(* ===================================================================== *)
(** * app/use-optimistic/page.tsx *)
(* ===================================================================== *)

Module Optimistic.

(** Ids are [number]s; the page only makes whole ones, kept here as [Z],
    on which [===] is equality. *)
Record Todo := mkTodo {
  id : Z;
  text : jsstring;
  completed : bool
}.

Record OptimisticValue := mkValue {
  value_id : Z;
  value_completed : bool
}.

(** Simulate server action: resolves with [undefined] ([tt]). *)
Definition updateTodoOnServer (id : Z) : async unit :=
  Await_timeout 2000 (Return tt).


(** The reducer given to [useOptimistic]. *)
Definition optimisticReducer (state : list Todo)
    (optimisticValue : OptimisticValue) : list Todo :=
  List.map
    (fun todo =>
       if Z.eqb (id todo) (value_id optimisticValue)
       then {| id := id todo; text := text todo;
               completed := value_completed optimisticValue |}
       else todo)
    state.

End Optimistic.

(* ===================================================================== *)
(** * app/use-effect-event/page.tsx: the shopping cart *)
(* ===================================================================== *)

Module Cart.

(** Ids are whole numbers, as in the todo demo.  [price] is kept in cents:
    29.99 is 2999. *)
Record ShoppingCartItem := mkItem {
  id : Z;
  name : jsstring;
  price : Z
}.

Definition initial_items : list ShoppingCartItem :=
  [ mkItem 1 (js "Widget") 2999;
    mkItem 2 (js "Gadget") 4999 ].

Definition availableItems : list ShoppingCartItem :=
  [ mkItem 1 (js "Widget") 2999;
    mkItem 2 (js "Gadget") 4999;
    mkItem 3 (js "Doohickey") 1999;
    mkItem 4 (js "Thingamajig") 3999 ].

(** [!items.find(i => i.id === item.id)]: an item object is truthy,
    [undefined] is not. *)
Definition not_found (items : list ShoppingCartItem) (item : ShoppingCartItem)
    : bool :=
  match List.find (fun i => Z.eqb (id i) (id item)) items with
  | Some _ => false
  | None => true
  end.

Definition addItem (items : list ShoppingCartItem) : list ShoppingCartItem :=
  let unusedItems := List.filter (not_found items) availableItems in
  match unusedItems with
  | first :: _ => items ++ [first]       (* unusedItems.length > 0 *)
  | [] => items                          (* no setItems call *)
  end.

Definition removeItem (id0 : Z) (items : list ShoppingCartItem)
    : list ShoppingCartItem :=
  List.filter (fun item => negb (Z.eqb (id item) id0)) items.

(** What the user can do to the cart, and a session of such clicks. *)
Inductive click : Type :=
| Add
| Remove (id0 : Z).

Definition handle (items : list ShoppingCartItem) (c : click)
    : list ShoppingCartItem :=
  match c with
  | Add => addItem items
  | Remove id0 => removeItem id0 items
  end.

Definition session (clicks : list click) : list ShoppingCartItem :=
  List.fold_left handle clicks initial_items.

End Cart.

(* ===================================================================== *)
(** * app/use-effect-event/page.tsx: the [useEffectEvent] polyfill *)
(* ===================================================================== *)

Module EffectEvent.
Section Polyfill.

Variables Args Result : Type.

(** [T extends (...args: any[]) => any] *)
Definition T := Args -> Result.

(** Function objects are told apart by identity. *)
Definition fn_id := nat.

(** The hook cells of one component instance that calls the polyfill:
    the ref object made by [useRef], the function kept by
    [useCallback(.., [])], and the count of function objects the renders
    have created. *)
Record hooks := mkHooks {
  ref_current : option T;
  memoized : option fn_id;
  created : nat
}.

Definition unmounted : hooks := mkHooks None None 0.

(** [useRef(initial)]: the ref object is made on the first render and
    handed back unchanged afterwards. *)
Definition useRef (initial : T) (h : hooks) : hooks :=
  match ref_current h with
  | None => mkHooks (Some initial) (memoized h) (created h)
  | Some _ => h
  end.

(** Evaluating the arrow function [(...args) => ref.current(...args)]
    makes a new function object. *)
Definition new_arrow (h : hooks) : fn_id * hooks :=
  (created h, mkHooks (ref_current h) (memoized h) (S (created h))).

(** [useCallback(f, [])]: the dependency list never changes, so the
    function of the first render is returned ever after. *)
Definition useCallback (f : fn_id) (h : hooks) : fn_id * hooks :=
  match memoized h with
  | None => (f, mkHooks (ref_current h) (Some f) (created h))
  | Some g => (g, h)
  end.

(** One render of [useEffectEvent(callback)]: the function returned, the
    effect that React runs after the commit, and the cells. *)
Definition useEffectEvent (callback : T) (h : hooks)
    : fn_id * (hooks -> hooks) * hooks :=
  let h1 := useRef callback h in
  (* Keep the callback ref up to date *)
  let effect := fun h' : hooks =>
    mkHooks (Some callback) (memoized h') (created h') in
  (* Return a stable function that calls the latest callback *)
  let (f, h2) := new_arrow h1 in
  let (g, h3) := useCallback f h2 in
  (g, effect, h3).

(** A render followed by its commit, when the effect stores [callback]. *)
Definition render (callback : T) (h : hooks) : fn_id * hooks :=
  let '(g, effect, h') := useEffectEvent callback h in
  (g, effect h').

(** Render after render, each with the callback of that render; the
    functions returned are collected in order. *)
Fixpoint renders (callbacks : list T) (h : hooks) : list fn_id * hooks :=
  match callbacks with
  | [] => ([], h)
  | callback :: rest =>
      let (g, h1) := render callback h in
      let (gs, h2) := renders rest h1 in
      (g :: gs, h2)
  end.

(** Calling one of the arrow functions: each of them reads [ref.current]
    at the time of the call and applies it to the arguments. *)
Definition call (h : hooks) (f : fn_id) (args : Args) : option Result :=
  if Nat.ltb f (created h) then
    match ref_current h with
    | Some current => Some (current args)
    | None => None
    end
  else None.

End Polyfill.
End EffectEvent.

(* ===================================================================== *)
(** * app/error-handling/page.tsx: [ErrorBoundary] *)
(* ===================================================================== *)

Module Boundary.
Section ErrorBoundary.

Variable ReactNode : Type.

Record State := mkState { error : option Error }.

(** A callback handed to the rendered tree acts on the component's state
    once it is invoked. *)
Definition callback := State -> State.

Record Props := mkProps {
  children : ReactNode;
  fallback : Error -> callback -> ReactNode
}.

(** A partial state, as [setState] and [getDerivedStateFromError] take
    it: [None] leaves the property as it is. *)
Record Partial := mkPartial { set_error : option (option Error) }.

Definition merge (partial : Partial) (st : State) : State :=
  match set_error partial with
  | Some e => {| error := e |}
  | None => st
  end.

Definition setState (partial : Partial) : callback := merge partial.

Definition constructor (props : Props) : State := {| error := None |}.

Definition getDerivedStateFromError (error : Error) : Partial :=
  {| set_error := Some (Some error) |}.

(** [console.error('Error caught by boundary:', error, errorInfo)]: one
    more line on the console, with the error's message. *)
Definition componentDidCatch (error : Error) (console : list jsstring)
    : list jsstring :=
  console ++ [js "Error caught by boundary: " ++ err_message error].

Definition render (props : Props) (st : State) : ReactNode :=
  match error st with
  | Some e =>
      fallback props e (setState {| set_error := Some None |})
  | None => children props
  end.

(** What React does with the boundary when a child throws [e] during
    rendering: the derived state is merged in, [componentDidCatch] runs. *)
Definition child_throws (e : Error) (st : State) (console : list jsstring)
    : State * list jsstring :=
  (merge (getDerivedStateFromError e) st, componentDidCatch e console).

End ErrorBoundary.
End Boundary.

(* ===================================================================== *)
(** * app/view-transitions/page.tsx: [withViewTransition] *)
(* ===================================================================== *)

Module ViewTransition.
Section WithViewTransition.

(** [App] is the state of the page's components; [Host] is whatever the
    browser keeps for its view transitions (snapshots, animations). *)
Variables App Host : Type.

Record world := mkWorld {
  app : App;
  calls : nat;      (* how many times [updateFn] has run *)
  host : Host
}.

Definition effect := world -> world.

(** Running [updateFn()]. *)
Definition invoke (updateFn : App -> App) : effect :=
  fun w => mkWorld (updateFn (app w)) (S (calls w)) (host w).

(** The value found under [document.startViewTransition]. *)
Inductive property : Type :=
| Absent                                   (* not [in document] *)
| Falsy                                    (* there, but [undefined] or [null] *)
| Method (f : effect -> effect).           (* a function taking the callback *)

Inductive document_t : Type :=
| NoDocument                               (* [typeof document === 'undefined'] *)
| Document (startViewTransition : property).

(** ['startViewTransition' in document] *)
Definition has_startViewTransition (document : document_t) : bool :=
  match document with
  | Document Absent => false
  | Document _ => true
  | NoDocument => false
  end.

(** [typeof document !== 'undefined' && 'startViewTransition' in document] *)
Definition supportsViewTransitions (document : document_t) : bool :=
  match document with
  | NoDocument => false
  | Document _ => has_startViewTransition document
  end.

(** [(document as any).startViewTransition], read as a condition and
    called as a function. *)
Definition startViewTransition_of (document : document_t) : property :=
  match document with
  | Document p => p
  | NoDocument => Absent
  end.

Definition truthy (p : property) : bool :=
  match p with
  | Method _ => true
  | Absent | Falsy => false
  end.

Definition call (p : property) (cb : effect) : effect :=
  match p with
  | Method f => f cb
  | Absent | Falsy => fun w => w      (* never called: the guard is false *)
  end.

Definition withViewTransition (document : document_t)
    (updateFn : App -> App) : effect :=
  if supportsViewTransitions document
     && truthy (startViewTransition_of document)
  then call (startViewTransition_of document) (fun w => invoke updateFn w)
  else invoke updateFn.

(** The contract of the platform's [startViewTransition]: it does its own
    bookkeeping before and after, and calls the update callback once. *)
Definition on_host (f : Host -> Host) : effect :=
  fun w => mkWorld (app w) (calls w) (f (host w)).

Definition platform_method (f : effect -> effect) : Prop :=
  exists before after : Host -> Host,
    forall (cb : effect) (w : world), f cb w = on_host after (cb (on_host before w)).

Definition platform (document : document_t) : Prop :=
  match document with
  | Document (Method f) => platform_method f
  | _ => True
  end.

End WithViewTransition.
End ViewTransition.


(* ===================================================================== *)
(** * Timers and promises, in virtual time *)
(* ===================================================================== *)

(** The part of the browser that the simulated fetches and timelines use:
    [setTimeout], [clearTimeout], [Date.now], [new Promise], [then], and the
    event loop that fires the timers.  Time is a number of milliseconds; a
    timer fires when the clock reaches its due time. *)

Module Runtime.
Section Runtime.

(** [V]: what promises are fulfilled with.  [St]: the state of the page's
    components.  [Timeout], [Reaction]: the page's own closures, given to
    [setTimeout] and to [then]; they update the page's state. *)
Variables V St Timeout Reaction : Type.

(** The closures handed to [setTimeout]. *)
Inductive callback : Type :=
| Resolve (p : nat) (v : V)          (* () => resolve(v) *)
| Reject (p : nat) (e : Error)       (* () => reject(e) *)
| Resume (p : nat) (k : async V)     (* the rest of an async body, after its await *)
| Page (h : Timeout).                (* a closure of the page *)

Record timer := mkTimer {
  tid : nat;
  due : Z;
  action : callback
}.

Inductive promise_state : Type :=
| Pending
| Fulfilled (v : V)
| Rejected (e : Error).

(** A promise, with the [then] handlers waiting for its fulfilment. *)
Record promise := mkPromise {
  pstate : promise_state;
  reactions : list Reaction
}.

Record world := mkWorld {
  now : Z;                                   (* Date.now() *)
  timers : list timer;                       (* active timers, oldest first *)
  next_timer : nat;
  promises : list promise;                   (* a promise is its index here *)
  settle_calls : list (nat * completion V);  (* every call of a resolve or reject function *)
  microtasks : list (Reaction * V);
  page : St
}.

Definition idle (t0 : Z) (st : St) : world := mkWorld t0 [] 0 [] [] [] st.

(** Code that acts on the world. *)
Definition M (A : Type) : Type := world -> A * world.

Definition ret {A} (a : A) : M A := fun w => (a, w).

Definition bind {A B} (m : M A) (f : A -> M B) : M B :=
  fun w => let (a, w') := m w in f a w'.

Local Notation "x <- c1 ;; c2" := (bind c1 (fun x => c2))
  (at level 61, c1 at next level, right associativity).
Local Notation "c1 ;; c2" := (bind c1 (fun _ => c2))
  (at level 61, right associativity).

Definition exec {A} (m : M A) (w : world) : world := snd (m w).

Definition Date_now : M Z := fun w => (now w, w).

(** A [setState] of the page. *)
Definition update (f : St -> St) : M unit := fun w =>
  (tt, mkWorld (now w) (timers w) (next_timer w) (promises w)
               (settle_calls w) (microtasks w) (f (page w))).

Definition read {A} (f : St -> A) : M A := fun w => (f (page w), w).

Definition setTimeout (cb : callback) (ms : Z) : M nat := fun w =>
  (next_timer w,
   mkWorld (now w)
           (timers w ++ [mkTimer (next_timer w) (now w + Z.max 0 ms) cb])
           (S (next_timer w)) (promises w) (settle_calls w) (microtasks w)
           (page w)).

Definition clearTimeout (id : nat) : M unit := fun w =>
  (tt,
   mkWorld (now w)
           (List.filter (fun t => negb (Nat.eqb (tid t) id)) (timers w))
           (next_timer w) (promises w) (settle_calls w) (microtasks w)
           (page w)).

Fixpoint replace_nth {A} (n : nat) (a : A) (l : list A) : list A :=
  match l, n with
  | [], _ => []
  | _ :: l', O => a :: l'
  | x :: l', S n' => x :: replace_nth n' a l'
  end.

(** A call of the resolve ([Normal]) or reject ([Throw]) function of promise
    [p].  Only the first call settles the promise; fulfilment queues the
    waiting [then] handlers. *)
Definition settle (p : nat) (o : completion V) : M unit := fun w =>
  let calls := settle_calls w ++ [(p, o)] in
  match nth_error (promises w) p with
  | Some (mkPromise Pending waiting) =>
      let st := match o with Normal v => Fulfilled v | Throw e => Rejected e end in
      let jobs := match o with
                  | Normal v => List.map (fun r => (r, v)) waiting
                  | Throw _ => []
                  end in
      (tt, mkWorld (now w) (timers w) (next_timer w)
                   (replace_nth p (mkPromise st []) (promises w))
                   calls (microtasks w ++ jobs) (page w))
  | _ =>
      (tt, mkWorld (now w) (timers w) (next_timer w) (promises w)
                   calls (microtasks w) (page w))
  end.

(** [new Promise((resolve, reject) => ...)]: the executor runs at once and
    gets the two functions of the new promise; [resolve v] stands for the
    closure [() => resolve(v)]. *)
Definition new_Promise
    (executor : (V -> callback) -> (Error -> callback) -> M unit) : M nat :=
  fun w =>
    let p := List.length (promises w) in
    let w1 := mkWorld (now w) (timers w) (next_timer w)
                      (promises w ++ [mkPromise Pending []])
                      (settle_calls w) (microtasks w) (page w) in
    (p, exec (executor (Resolve p) (Reject p)) w1).

(** [p.then(r)] *)
Definition then_ (p : nat) (r : Reaction) : M unit := fun w =>
  match nth_error (promises w) p with
  | Some (mkPromise Pending waiting) =>
      (tt, mkWorld (now w) (timers w) (next_timer w)
                   (replace_nth p (mkPromise Pending (waiting ++ [r])) (promises w))
                   (settle_calls w) (microtasks w) (page w))
  | Some (mkPromise (Fulfilled v) _) =>
      (tt, mkWorld (now w) (timers w) (next_timer w) (promises w)
                   (settle_calls w) (microtasks w ++ [(r, v)]) (page w))
  | _ => (tt, w)
  end.

(** Running an async body up to its next [await]; [p] is the promise the
    call has returned. *)
Definition drive (p : nat) (body : async V) : M unit :=
  match body with
  | Return v => settle p (Normal v)
  | Raise e => settle p (Throw e)
  | Await_timeout ms k => _ <- setTimeout (Resume p k) ms ;; ret tt
  end.

(** Calling an async function. *)
Definition call_async (body : async V) : M nat := fun w =>
  let p := List.length (promises w) in
  let w1 := mkWorld (now w) (timers w) (next_timer w)
                    (promises w ++ [mkPromise Pending []])
                    (settle_calls w) (microtasks w) (page w) in
  (p, exec (drive p body) w1).

(** ** The event loop *)

Variable run_timeout : Timeout -> Z -> St -> St.
Variable run_reaction : Reaction -> V -> Z -> St -> St.

Definition run_callback (cb : callback) : M unit :=
  match cb with
  | Resolve p v => settle p (Normal v)
  | Reject p e => settle p (Throw e)
  | Resume p k => drive p k
  | Page h => fun w => update (run_timeout h (now w)) w
  end.

(** The microtask checkpoint: the queued [then] handlers run, in order. *)
Definition drain : M unit := fun w =>
  (tt,
   mkWorld (now w) (timers w) (next_timer w) (promises w) (settle_calls w) []
           (List.fold_left (fun st job => run_reaction (fst job) (snd job) (now w) st)
                           (microtasks w) (page w))).

(** A piece of synchronous code run as one task. *)
Definition task {A} (m : M A) : M A := a <- m ;; _ <- drain ;; ret a.

(** The timer that fires next: the one due first, the older one on a tie. *)
Fixpoint earliest (ts : list timer) : option timer :=
  match ts with
  | [] => None
  | t :: rest =>
      match earliest rest with
      | Some t' => if Z.ltb (due t') (due t) then Some t' else Some t
      | None => Some t
      end
  end.

(** Firing [t]: the clock is at its due time (or already past it), the timer
    leaves the list, its callback runs as a task. *)
Definition fire (t : timer) (w : world) : world :=
  let w1 := mkWorld (Z.max (now w) (due t))
                    (List.filter (fun t' => negb (Nat.eqb (tid t') (tid t))) (timers w))
                    (next_timer w) (promises w) (settle_calls w) (microtasks w)
                    (page w) in
  exec (task (run_callback (action t))) w1.

(** One turn of the loop while the clock moves up to [target]. *)
Definition turn (target : Z) (w : world) : world :=
  match earliest (timers w) with
  | Some t => if Z.leb (due t) target then fire t w else w
  | None => w
  end.

(** How many timers can still fire: an async body waits once per [await]. *)
Definition weight (t : timer) : nat :=
  match action t with
  | Resume _ k => S (List.length (delays k))
  | _ => 1
  end.

Definition weigh (ts : list timer) : nat :=
  List.fold_right (fun t n => weight t + n) 0 ts.

Definition work (w : world) : nat := weigh (timers w).

(** The clock moves to [target]; every timer due by then fires on the way. *)
Definition advance_to (target : Z) (w : world) : world :=
  let w' := Nat.iter (work w) (turn target) w in
  mkWorld (Z.max (now w') target) (timers w') (next_timer w') (promises w')
          (settle_calls w') (microtasks w') (page w').

Definition wait (ms : N) (w : world) : world :=
  advance_to (now w + Z.of_N ms) w.

Definition state_of (w : world) (p : nat) : option promise_state :=
  option_map pstate (nth_error (promises w) p).

(** A property of the clock and the page, and one of every active timer
    and the page, holding of a world. *)
Definition holds (I : Z -> St -> Prop) (Q : timer -> St -> Prop) (w : world)
    : Prop :=
  I (now w) (page w) /\ Forall (fun t => Q t (page w)) (timers w).

End Runtime.

Arguments Pending {V}.
Arguments Rejected {V} e.
Arguments Resolve {V Timeout} p v.
Arguments Reject {V Timeout} p e.
Arguments Resume {V Timeout} p k.
Arguments Page {V Timeout} h.
Arguments idle {V St Timeout Reaction} t0 st.
Arguments ret {V St Timeout Reaction A} a.
Arguments bind {V St Timeout Reaction A B} m f.
Arguments exec {V St Timeout Reaction A} m w.
Arguments Date_now {V St Timeout Reaction}.
Arguments update {V St Timeout Reaction} f.
Arguments read {V St Timeout Reaction A} f.
Arguments setTimeout {V St Timeout Reaction} cb ms.
Arguments clearTimeout {V St Timeout Reaction} id.
Arguments settle {V St Timeout Reaction} p o.
Arguments new_Promise {V St Timeout Reaction} executor.
Arguments then_ {V St Timeout Reaction} p r.
Arguments drive {V St Timeout Reaction} p body.
Arguments call_async {V St Timeout Reaction} body.
Arguments run_callback {V St Timeout Reaction} run_timeout cb.
Arguments drain {V St Timeout Reaction} run_reaction.
Arguments task {V St Timeout Reaction} run_reaction {A} m.
Arguments fire {V St Timeout Reaction} run_timeout run_reaction t w.
Arguments turn {V St Timeout Reaction} run_timeout run_reaction target w.
Arguments advance_to {V St Timeout Reaction} run_timeout run_reaction target w.
Arguments wait {V St Timeout Reaction} run_timeout run_reaction ms w.
Arguments weigh {V Timeout} ts.
Arguments work {V St Timeout Reaction} w.
Arguments state_of {V St Timeout Reaction} w p.
Arguments holds {V St Timeout Reaction} I Q w.

End Runtime.

Declare Scope runtime_scope.
Delimit Scope runtime_scope with runtime.
Notation "x <- c1 ;; c2" := (Runtime.bind c1 (fun x => c2))
  (at level 61, c1 at next level, right associativity) : runtime_scope.
Notation "c1 ;; c2" := (Runtime.bind c1 (fun _ => c2))
  (at level 61, right associativity) : runtime_scope.

Local Open Scope runtime_scope.

(** [String(z)] for an integer [z]; integers below 10^21 in magnitude print
    in plain decimal. *)
Definition number_to_string (z : Z) : jsstring :=
  js (NilZero.string_of_int (Z.to_int z)).

(* ===================================================================== *)
(** * The [use()] demo: [fetchData] *)
(* ===================================================================== *)

Module UseDemo.

Record Post := mkPost {
  id : Z;
  title : jsstring;
  content : jsstring
}.

(** The page gives no closures of its own to [setTimeout] or [then]. *)
Definition M := Runtime.M Post unit Empty_set Empty_set.

Definition no_timeout (h : Empty_set) (_ : Z) (st : unit) : unit := st.
Definition no_reaction (r : Empty_set) (_ : Post) (_ : Z) (st : unit) : unit := st.

(** The post [fetchData(id)] resolves with. *)
Definition post_of (id : Z) : Post :=
  {| id := id;
     title := js "Post " ++ number_to_string id;
     content := js "This is the content for post " ++ number_to_string id
                ++ js ". The use() hook allows us to read this promise directly in the component!" |}.

(** Simulate API call *)
Definition fetchData (id : Z) : M nat :=
  Runtime.new_Promise (fun resolve _ =>
    _ <- Runtime.setTimeout (resolve (post_of id)) 1000 ;;
    Runtime.ret tt).

End UseDemo.

(* ===================================================================== *)
(** * The error-handling demo: the simulated call of [AsyncBuggyComponent] *)
(* ===================================================================== *)

Module ErrorDemo.

Definition M := Runtime.M jsstring unit Empty_set Empty_set.

Definition no_timeout (h : Empty_set) (_ : Z) (st : unit) : unit := st.
Definition no_reaction (r : Empty_set) (_ : jsstring) (_ : Z) (st : unit) : unit := st.

(** The promise that [fetchData] of [AsyncBuggyComponent] awaits;
    [shouldError] is the component's prop. *)
Definition fetchData_promise (shouldError : bool) : M nat :=
  Runtime.new_Promise (fun resolve reject =>
    _ <- Runtime.setTimeout
           (if shouldError
            then reject (new_Error "Failed to fetch data from server")
            else resolve (js "Data loaded successfully!"))
           1000 ;;
    Runtime.ret tt).

End ErrorDemo.

(* ===================================================================== *)
(** * The todo demo on the event loop *)
(* ===================================================================== *)

Module OptimisticRun.

Definition M := Runtime.M unit unit Empty_set Empty_set.

Definition no_timeout (h : Empty_set) (_ : Z) (st : unit) : unit := st.
Definition no_reaction (r : Empty_set) (_ : unit) (_ : Z) (st : unit) : unit := st.

(** A call of the async function [updateTodoOnServer(id)]. *)
Definition updateTodoOnServer (id : Z) : M nat :=
  Runtime.call_async (Optimistic.updateTodoOnServer id).

End OptimisticRun.

(* ===================================================================== *)
(** * The Suspense comparison: simulated fetches and the two timelines *)
(* ===================================================================== *)

Module Suspense.

Record UserData := mkUser {
  user_id : Z;
  name : jsstring;
  email : jsstring;
  role : jsstring
}.

Record PostData := mkPost {
  post_id : Z;
  title : jsstring;
  excerpt : jsstring;
  likes : Z
}.

Record CommentData := mkComment {
  comment_id : Z;
  author : jsstring;
  text : jsstring;
  comment_timestamp : jsstring
}.

(** What the three promises are fulfilled with. *)
Inductive Value : Type :=
| User (u : UserData)
| Posts (ps : list PostData)
| Comments (cs : list CommentData).

Inductive event_type : Type :=
| fallback
| fetch_start
| fetch_end.

Record TimelineEvent := mkEvent {
  label : jsstring;
  timestamp : Z;
  color : jsstring;
  type : event_type;
  component : option jsstring
}.

(** The closures the two components give to [setTimeout] ... *)
Inductive Timeout : Type :=
| Fallback18        (* the fallback timer of React18Simulation *)
| Fallback19.       (* the timer of React19Demo *)

(** ... and to [then]. *)
Inductive Reaction : Type :=
| UserLoaded18
| PostsLoaded18
| CommentsLoaded18
| UserLoaded19
| PostsLoaded19
| CommentsLoaded19.

(** ** The state of [React18Simulation] *)
Module R18.

Record state := mkState {
  showFallback : bool;
  userData : option UserData;
  postsData : option (list PostData);
  commentsData : option (list CommentData);
  events : list TimelineEvent;
  startTimeRef : Z;
  cleanup : option nat        (* the timer that the effect's cleanup clears *)
}.

Definition setShowFallback (b : bool) (s : state) : state :=
  mkState b (userData s) (postsData s) (commentsData s) (events s)
          (startTimeRef s) (cleanup s).

Definition setUserData (d : option UserData) (s : state) : state :=
  mkState (showFallback s) d (postsData s) (commentsData s) (events s)
          (startTimeRef s) (cleanup s).

Definition setPostsData (d : option (list PostData)) (s : state) : state :=
  mkState (showFallback s) (userData s) d (commentsData s) (events s)
          (startTimeRef s) (cleanup s).

Definition setCommentsData (d : option (list CommentData)) (s : state) : state :=
  mkState (showFallback s) (userData s) (postsData s) d (events s)
          (startTimeRef s) (cleanup s).

(** [setEvents(f)]; [setEvents(v)] is [setEvents (fun _ => v)]. *)
Definition setEvents (f : list TimelineEvent -> list TimelineEvent) (s : state)
    : state :=
  mkState (showFallback s) (userData s) (postsData s) (commentsData s)
          (f (events s)) (startTimeRef s) (cleanup s).

Definition set_startTimeRef (t : Z) (s : state) : state :=
  mkState (showFallback s) (userData s) (postsData s) (commentsData s)
          (events s) t (cleanup s).

Definition set_cleanup (c : option nat) (s : state) : state :=
  mkState (showFallback s) (userData s) (postsData s) (commentsData s)
          (events s) (startTimeRef s) c.

(** The component as first rendered, at time [t]. *)
Definition initial (t : Z) : state :=
  mkState false None None None [] t None.

End R18.

(** ** The state of [React19Demo] *)
Module R19.

Record state := mkState {
  userPromise : option nat;
  postsPromise : option nat;
  commentsPromise : option nat;
  events : list TimelineEvent;
  startTimeRef : Z
}.

Definition setUserPromise (p : option nat) (s : state) : state :=
  mkState p (postsPromise s) (commentsPromise s) (events s) (startTimeRef s).

Definition setPostsPromise (p : option nat) (s : state) : state :=
  mkState (userPromise s) p (commentsPromise s) (events s) (startTimeRef s).

Definition setCommentsPromise (p : option nat) (s : state) : state :=
  mkState (userPromise s) (postsPromise s) p (events s) (startTimeRef s).

Definition setEvents (f : list TimelineEvent -> list TimelineEvent) (s : state)
    : state :=
  mkState (userPromise s) (postsPromise s) (commentsPromise s)
          (f (events s)) (startTimeRef s).

Definition set_startTimeRef (t : Z) (s : state) : state :=
  mkState (userPromise s) (postsPromise s) (commentsPromise s) (events s) t.

Definition initial (t : Z) : state := mkState None None None [] t.

End R19.

(** The page shows both components side by side. *)
Record Page := mkPage {
  react18 : R18.state;
  react19 : R19.state
}.

Definition on18 (f : R18.state -> R18.state) (pg : Page) : Page :=
  mkPage (f (react18 pg)) (react19 pg).

Definition on19 (f : R19.state -> R19.state) (pg : Page) : Page :=
  mkPage (react18 pg) (f (react19 pg)).

Definition M := Runtime.M Value Page Timeout Reaction.

(** ** The simulated fetches *)

Definition fetchUserProfile : M nat :=
  Runtime.new_Promise (fun resolve _ =>
    _ <- Runtime.setTimeout
           (resolve (User {| user_id := 1;
                             name := js "Alex Johnson";
                             email := js "alex@example.com";
                             role := js "Senior Developer" |}))
           1000 ;;
    Runtime.ret tt).

Definition fetchPosts : M nat :=
  Runtime.new_Promise (fun resolve _ =>
    _ <- Runtime.setTimeout
           (resolve (Posts
              [ mkPost 1 (js "Understanding React 19") (js "Exploring new features...") 42;
                mkPost 2 (js "Suspense Deep Dive") (js "How Suspense works...") 38 ]))
           2000 ;;
    Runtime.ret tt).

Definition fetchComments : M nat :=
  Runtime.new_Promise (fun resolve _ =>
    _ <- Runtime.setTimeout
           (resolve (Comments
              [ mkComment 1 (js "Sarah") (js "Great article!") (js "2 hours ago");
                mkComment 2 (js "Mike") (js "Very informative") (js "3 hours ago");
                mkComment 3 (js "Emma") (js "Thanks for sharing") (js "5 hours ago") ]))
           3000 ;;
    Runtime.ret tt).

(** ** The closures *)

Definition fetch_end_event (what col comp : string) (t : Z) : TimelineEvent :=
  {| label := js what; timestamp := t; color := js col; type := fetch_end;
     component := Some (js comp) |}.

Definition run_timeout (h : Timeout) (now : Z) : Page -> Page :=
  match h with
  | Fallback18 =>
      fun pg =>
        on18 (R18.setEvents (fun prev => prev ++
                [ {| label := js "Fallback shown (delayed)"; timestamp := now;
                     color := js "#f59e0b"; type := fallback; component := None |} ]))
             (on18 (R18.setShowFallback true) pg)
  | Fallback19 =>
      on19 (R19.setEvents (fun prev => prev ++
              [ {| label := js "Fallback shown (immediate)"; timestamp := now;
                   color := js "#f59e0b"; type := fallback; component := None |} ]))
  end.

(** A handler of [fetchUserProfile().then] only ever gets a [User], and so
    on; the other cases do not arise. *)
Definition run_reaction (r : Reaction) (data : Value) (now : Z) : Page -> Page :=
  match r with
  | UserLoaded18 =>
      fun pg =>
        on18 (R18.setEvents (fun prev => prev ++
                [fetch_end_event "User loaded" "#3b82f6" "user" now]))
             (on18 (R18.setUserData
                      (match data with User u => Some u | _ => None end)) pg)
  | PostsLoaded18 =>
      fun pg =>
        on18 (R18.setEvents (fun prev => prev ++
                [fetch_end_event "Posts loaded" "#10b981" "posts" now]))
             (on18 (R18.setPostsData
                      (match data with Posts ps => Some ps | _ => None end)) pg)
  | CommentsLoaded18 =>
      fun pg =>
        on18 (R18.setShowFallback false)
          (on18 (R18.setEvents (fun prev => prev ++
                   [fetch_end_event "Comments loaded" "#ef4444" "comments" now]))
                (on18 (R18.setCommentsData
                         (match data with Comments cs => Some cs | _ => None end)) pg))
  | UserLoaded19 =>
      on19 (R19.setEvents (fun prev => prev ++
              [fetch_end_event "User loaded" "#3b82f6" "user" now]))
  | PostsLoaded19 =>
      on19 (R19.setEvents (fun prev => prev ++
              [fetch_end_event "Posts loaded" "#10b981" "posts" now]))
  | CommentsLoaded19 =>
      on19 (R19.setEvents (fun prev => prev ++
              [fetch_end_event "Comments loaded" "#ef4444" "comments" now]))
  end.

Definition fetch_start_event (what col comp : string) (t : Z) : TimelineEvent :=
  {| label := js what; timestamp := t; color := js col; type := fetch_start;
     component := Some (js comp) |}.

(** ** The effect of [React18Simulation] *)
Definition effect18 : M unit :=
  (* Reset everything *)
  Runtime.update (on18 (R18.setShowFallback false)) ;;
  Runtime.update (on18 (R18.setUserData None)) ;;
  Runtime.update (on18 (R18.setPostsData None)) ;;
  Runtime.update (on18 (R18.setCommentsData None)) ;;
  Runtime.update (on18 (R18.setEvents (fun _ => []))) ;;
  t <- Runtime.Date_now ;;
  Runtime.update (on18 (R18.set_startTimeRef t)) ;;
  startTime <- Runtime.Date_now ;;
  (* the fallback is delayed *)
  fallbackTimer <- Runtime.setTimeout (Runtime.Page Fallback18) 800 ;;
  (* All data fetching starts together *)
  Runtime.update (on18 (R18.setEvents (fun _ =>
    [ fetch_start_event "User fetch starts" "#3b82f6" "user" startTime;
      fetch_start_event "Posts fetch starts" "#10b981" "posts" (startTime + 10);
      fetch_start_event "Comments fetch starts" "#ef4444" "comments" (startTime + 20) ]))) ;;
  (* Fetch data *)
  p <- fetchUserProfile ;; Runtime.then_ p UserLoaded18 ;;
  p <- fetchPosts ;; Runtime.then_ p PostsLoaded18 ;;
  p <- fetchComments ;; Runtime.then_ p CommentsLoaded18 ;;
  (* return () => clearTimeout(fallbackTimer) *)
  Runtime.update (on18 (R18.set_cleanup (Some fallbackTimer))).

(** The cleanup that the last run of the effect returned. *)
Definition cleanup18 : M unit :=
  c <- Runtime.read (fun pg => R18.cleanup (react18 pg)) ;;
  match c with
  | Some fallbackTimer => Runtime.clearTimeout fallbackTimer
  | None => Runtime.ret tt
  end.

(** ** The effect of [React19Demo]; it returns no cleanup. *)
Definition effect19 : M unit :=
  (* Reset *)
  Runtime.update (on19 (R19.setEvents (fun _ => []))) ;;
  t <- Runtime.Date_now ;;
  Runtime.update (on19 (R19.set_startTimeRef t)) ;;
  startTime <- Runtime.Date_now ;;
  (* Record fallback shown immediately *)
  _ <- Runtime.setTimeout (Runtime.Page Fallback19) 10 ;;
  (* Create promises *)
  userProm <- fetchUserProfile ;;
  postsProm <- fetchPosts ;;
  commentsProm <- fetchComments ;;
  Runtime.update (on19 (R19.setUserPromise (Some userProm))) ;;
  Runtime.update (on19 (R19.setPostsPromise (Some postsProm))) ;;
  Runtime.update (on19 (R19.setCommentsPromise (Some commentsProm))) ;;
  (* Track fetch starts *)
  Runtime.update (on19 (R19.setEvents (fun _ =>
    [ fetch_start_event "User fetch starts" "#3b82f6" "user" startTime;
      fetch_start_event "Posts fetch starts (pre-warmed)" "#10b981" "posts" (startTime + 5);
      fetch_start_event "Comments fetch starts (pre-warmed)" "#ef4444" "comments" (startTime + 10) ]))) ;;
  (* Track when data loads *)
  Runtime.then_ userProm UserLoaded19 ;;
  Runtime.then_ postsProm PostsLoaded19 ;;
  Runtime.then_ commentsProm CommentsLoaded19.

(** ** The page over time *)

Definition world := Runtime.world Value Page Timeout Reaction.

(** The page is mounted at time [t0]: both effects run. *)
Definition mount (t0 : Z) : world :=
  Runtime.exec
    (Runtime.task run_reaction (effect18 ;; effect19))
    (Runtime.idle t0 (mkPage (R18.initial t0) (R19.initial t0))).

(** The Reset button changes [resetKey]: the cleanup of the old run, then
    both effects again. *)
Definition reset (w : world) : world :=
  Runtime.exec
    (Runtime.task run_reaction (cleanup18 ;; effect18 ;; effect19)) w.

Inductive input : Type :=
| Wait (ms : N)
| Reset.

Definition step (w : world) (i : input) : world :=
  match i with
  | Wait ms => Runtime.wait run_timeout run_reaction ms w
  | Reset => reset w
  end.

Definition run (inputs : list input) (w : world) : world :=
  List.fold_left step inputs w.

Definition events18 (w : world) : list TimelineEvent :=
  R18.events (react18 (Runtime.page w)).

Definition events19 (w : world) : list TimelineEvent :=
  R19.events (react19 (Runtime.page w)).

Definition start18 (w : world) : Z :=
  R18.startTimeRef (react18 (Runtime.page w)).

Definition start19 (w : world) : Z :=
  R19.startTimeRef (react19 (Runtime.page w)).

End Suspense.

(* ===================================================================== *)
(** * Vocabulary of the statements, and sample inputs *)
(* ===================================================================== *)

(** A field that is not there, or there with the empty string. *)
Definition absent_or_empty (v : option FormDataEntryValue) : Prop :=
  v = None \/ v = Some (Text []).

(** A field that is a string when it is there at all. *)
Definition text_or_absent (v : option FormDataEntryValue) : Prop :=
  match v with
  | Some (File _) => False
  | _ => True
  end.

Definition at_sign : code_unit := 64%N.

Definition fill_in_all_fields : ServerActions.ActionState :=
  {| ServerActions.success := false; ServerActions.error := Some (js "Please fill in all fields");
     ServerActions.message := None |}.

Definition enter_valid_email : ServerActions.ActionState :=
  {| ServerActions.success := false; ServerActions.error := Some (js "Please enter a valid email address");
     ServerActions.message := None |}.

(** A form as the page's three inputs submit it. *)
Definition form (name email message : jsstring) : FormData :=
  [ (js "name", Text name); (js "email", Text email);
    (js "message", Text message) ].

(** A request that carries a file under [email]. *)
Definition form_with_file : FormData :=
  [ (js "name", Text (js "Ann")); (js "email", File (js "photo.png"));
    (js "message", Text (js "Hello")) ].

(** A form that carries a single todo. *)
Definition todo_form (todo : jsstring) : FormData := [ (js "todo", Text todo) ].

(** The item [addItem] has to pick, said without [filter]: the first
    available item whose id no item of the cart has. *)
Definition first_missing (items : list Cart.ShoppingCartItem)
    : option Cart.ShoppingCartItem :=
  List.find
    (fun item => negb (existsb (fun i => Z.eqb (Cart.id i) (Cart.id item)) items))
    Cart.availableItems.

(** A browser with view transitions; all it keeps is a count of the steps
    it has taken around update callbacks. *)
Definition counting_browser : ViewTransition.document_t nat nat :=
  ViewTransition.Document
    (ViewTransition.Method
       (fun cb w => ViewTransition.on_host S (cb (ViewTransition.on_host S w)))).

(** What every cart of a session satisfies. *)
Definition cart_ok (items : list Cart.ShoppingCartItem) : Prop :=
  NoDup (List.map Cart.id items) /\ incl items Cart.availableItems.

(** An operation that is a fixed-delay timer resolving its promise once:
    called at any time [t0] on an idle loop, it leaves one timer, due at
    [t0 + delay], and a pending promise; while less than [delay] has passed
    the promise is pending and nothing has called its functions; from
    [delay] on it is fulfilled with [v], the resolve function has been
    called once and the reject function never, and no timer is left. *)
Definition resolves_once_after {V St Timeout Reaction : Type}
    (run_timeout : Timeout -> Z -> St -> St)
    (run_reaction : Reaction -> V -> Z -> St -> St)
    (op : Runtime.M V St Timeout Reaction nat) (delay : Z) (v : V) : Prop :=
  forall (t0 : Z) (st : St),
    let p := fst (op (Runtime.idle t0 st)) in
    let w := snd (op (Runtime.idle t0 st)) in
    List.map (@Runtime.due V Timeout) (Runtime.timers w) = [(t0 + delay)%Z]
    /\ Runtime.state_of w p = Some Runtime.Pending
    /\ forall ms : N,
         let w' := Runtime.wait run_timeout run_reaction ms w in
         ((Z.of_N ms < delay)%Z ->
            Runtime.state_of w' p = Some Runtime.Pending
            /\ Runtime.settle_calls w' = [])
         /\ ((delay <= Z.of_N ms)%Z ->
               Runtime.state_of w' p = Some (Runtime.Fulfilled v)
               /\ Runtime.settle_calls w' = [(p, Normal v)]
               /\ Runtime.timers w' = []).

(** What the three simulated fetches of the Suspense page resolve with. *)
Definition user_profile : Suspense.UserData :=
  {| Suspense.user_id := 1;
     Suspense.name := js "Alex Johnson";
     Suspense.email := js "alex@example.com";
     Suspense.role := js "Senior Developer" |}.

Definition two_posts : list Suspense.PostData :=
  [ Suspense.mkPost 1 (js "Understanding React 19") (js "Exploring new features...") 42;
    Suspense.mkPost 2 (js "Suspense Deep Dive") (js "How Suspense works...") 38 ].

Definition three_comments : list Suspense.CommentData :=
  [ Suspense.mkComment 1 (js "Sarah") (js "Great article!") (js "2 hours ago");
    Suspense.mkComment 2 (js "Mike") (js "Very informative") (js "3 hours ago");
    Suspense.mkComment 3 (js "Emma") (js "Thanks for sharing") (js "5 hours ago") ].

(** The fetch-start events that a run started at [t] records, in
    [React18Simulation] and in [React19Demo]. *)
Definition fetch_starts18 (t : Z) : list Suspense.TimelineEvent :=
  [ Suspense.fetch_start_event "User fetch starts" "#3b82f6" "user" t;
    Suspense.fetch_start_event "Posts fetch starts" "#10b981" "posts" (t + 10);
    Suspense.fetch_start_event "Comments fetch starts" "#ef4444" "comments" (t + 20) ].

Definition fetch_starts19 (t : Z) : list Suspense.TimelineEvent :=
  [ Suspense.fetch_start_event "User fetch starts" "#3b82f6" "user" t;
    Suspense.fetch_start_event "Posts fetch starts (pre-warmed)" "#10b981" "posts" (t + 5);
    Suspense.fetch_start_event "Comments fetch starts (pre-warmed)" "#ef4444" "comments" (t + 10) ].

(** The timers that one run of each effect sets, given the next timer id
    [nt], the number [np] of promises made so far and the time [t]. *)
Definition timers18 (nt np : nat) (t : Z)
    : list (Runtime.timer Suspense.Value Suspense.Timeout) :=
  [ Runtime.mkTimer nt (t + 800) (Runtime.Page Suspense.Fallback18);
    Runtime.mkTimer (1 + nt) (t + 1000)
      (Runtime.Resolve np (Suspense.User user_profile));
    Runtime.mkTimer (2 + nt) (t + 2000)
      (Runtime.Resolve (1 + np) (Suspense.Posts two_posts));
    Runtime.mkTimer (3 + nt) (t + 3000)
      (Runtime.Resolve (2 + np) (Suspense.Comments three_comments)) ].

Definition timers19 (nt np : nat) (t : Z)
    : list (Runtime.timer Suspense.Value Suspense.Timeout) :=
  [ Runtime.mkTimer nt (t + 10) (Runtime.Page Suspense.Fallback19);
    Runtime.mkTimer (1 + nt) (t + 1000)
      (Runtime.Resolve np (Suspense.User user_profile));
    Runtime.mkTimer (2 + nt) (t + 2000)
      (Runtime.Resolve (1 + np) (Suspense.Posts two_posts));
    Runtime.mkTimer (3 + nt) (t + 3000)
      (Runtime.Resolve (2 + np) (Suspense.Comments three_comments)) ].

(** Every fallback event on the React-18 timeline was recorded no earlier
    than 800 ms after the start of the current run, and not in the future. *)
Definition fallback_delayed (n : Z) (pg : Suspense.Page) : Prop :=
  forall ev,
    In ev (Suspense.R18.events (Suspense.react18 pg)) ->
    Suspense.type ev = Suspense.fallback ->
    (Suspense.R18.startTimeRef (Suspense.react18 pg) + 800 <= Suspense.timestamp ev
     /\ Suspense.timestamp ev <= n)%Z.

(** An active fallback timer of [React18Simulation] belongs to the current
    run: it is the one the cleanup will clear, and it is due 800 ms after
    the start. *)
Definition fallback_timer_current
    (t : Runtime.timer Suspense.Value Suspense.Timeout) (pg : Suspense.Page)
    : Prop :=
  Runtime.action t = Runtime.Page Suspense.Fallback18 ->
  (Suspense.R18.startTimeRef (Suspense.react18 pg) + 800 <= Runtime.due t)%Z
  /\ Suspense.R18.cleanup (Suspense.react18 pg) = Some (Runtime.tid t).

Definition timeline_ok (w : Suspense.world) : Prop :=
  Runtime.holds fallback_delayed fallback_timer_current w
  /\ Runtime.microtasks w = [].

(** A run of the two effects that starts at time [t] leaves the page like
    this: both start times are [t]; each timeline holds its three
    fetch-start events and nothing else; React18Simulation has its fallback
    timer due at [t + 800] and no other; React19Demo has a timer for its
    'fallback shown' event due at [t + 10]. *)
Definition run_started_at (t : Z) (w : Suspense.world) : Prop :=
  Runtime.now w = t
  /\ Suspense.start18 w = t
  /\ Suspense.start19 w = t
  /\ Suspense.events18 w = fetch_starts18 t
  /\ Suspense.events19 w = fetch_starts19 t
  /\ (exists id,
        In (Runtime.mkTimer id (t + 800) (Runtime.Page Suspense.Fallback18))
           (Runtime.timers w))
  /\ (forall tm,
        In tm (Runtime.timers w) ->
        Runtime.action tm = Runtime.Page Suspense.Fallback18 ->
        Runtime.due tm = (t + 800)%Z)
  /\ (exists id,
        In (Runtime.mkTimer id (t + 10) (Runtime.Page Suspense.Fallback19))
           (Runtime.timers w)).

(** The events that the two fallback timers record. *)
Definition fallback_shown18 (t : Z) : Suspense.TimelineEvent :=
  {| Suspense.label := js "Fallback shown (delayed)"; Suspense.timestamp := t;
     Suspense.color := js "#f59e0b"; Suspense.type := Suspense.fallback;
     Suspense.component := None |}.

Definition fallback_shown19 (t : Z) : Suspense.TimelineEvent :=
  {| Suspense.label := js "Fallback shown (immediate)"; Suspense.timestamp := t;
     Suspense.color := js "#f59e0b"; Suspense.type := Suspense.fallback;
     Suspense.component := None |}.

(** A time of day, in milliseconds, for the examples. *)
Definition noon : Z := 1700000000000.

(** What is on the two timelines stays there, and the start times stay,
    as long as only timers fire. *)
Definition recorded (s18 s19 : Z) (es18 es19 : list Suspense.TimelineEvent)
    (pg : Suspense.Page) : Prop :=
  Suspense.R18.startTimeRef (Suspense.react18 pg) = s18
  /\ Suspense.R19.startTimeRef (Suspense.react19 pg) = s19
  /\ incl es18 (Suspense.R18.events (Suspense.react18 pg))
  /\ incl es19 (Suspense.R19.events (Suspense.react19 pg)).

(** The timers are distinct and none is overdue; every one of them is a
    fetch's or a fallback timer; and for the current run each fallback timer
    is either still active, due at its time, or has recorded its event at
    that time. *)
Definition on_schedule (w : Suspense.world) : Prop :=
  NoDup (List.map (@Runtime.tid _ _) (Runtime.timers w))
  /\ (forall t, In t (Runtime.timers w) ->
                (Runtime.tid t < Runtime.next_timer w)%nat)
  /\ (forall t, In t (Runtime.timers w) -> (Runtime.now w <= Runtime.due t)%Z)
  /\ (forall t p k, In t (Runtime.timers w) ->
                    Runtime.action t <> Runtime.Resume p k)
  /\ Runtime.microtasks w = []
  /\ ((exists id,
         In (Runtime.mkTimer id (Suspense.start18 w + 800)
               (Runtime.Page Suspense.Fallback18))
            (Runtime.timers w))
      \/ In (fallback_shown18 (Suspense.start18 w + 800)) (Suspense.events18 w))
  /\ ((exists id,
         In (Runtime.mkTimer id (Suspense.start19 w + 10)
               (Runtime.Page Suspense.Fallback19))
            (Runtime.timers w))
      \/ In (fallback_shown19 (Suspense.start19 w + 10)) (Suspense.events19 w)).

(** Between the user's inputs every active timer is due in the future. *)
Definition punctual (w : Suspense.world) : Prop :=
  on_schedule w
  /\ forall t, In t (Runtime.timers w) -> (Runtime.now w < Runtime.due t)%Z.

(* ===================================================================== *)
(** * More of the pages *)
(* ===================================================================== *)

(** [try { x = await p; k(x) } catch (err) { handler(err) }] inside an async
    body, for a [k] and a [handler] that do not throw. *)
Fixpoint try_await {A B} (p : async A) (k : A -> async B)
    (handler : Error -> async B) : async B :=
  match p with
  | Return a => k a
  | Raise e => handler e
  | Await_timeout ms p' => Await_timeout ms (try_await p' k handler)
  end.

(** ** app/use-optimistic/page.tsx: [toggleTodo] *)

Module TodoDemo.

(** The updater given to [setTodos] once the server has answered. *)
Definition confirm (id : Z) (prev : list Optimistic.Todo) : list Optimistic.Todo :=
  List.map
    (fun t =>
       if Z.eqb (Optimistic.id t) id
       then {| Optimistic.id := Optimistic.id t;
               Optimistic.text := Optimistic.text t;
               Optimistic.completed := negb (Optimistic.completed t) |}
       else t)
    prev.


End TodoDemo.

(** ** The cart's Add button *)

Module CartView.

(** [disabled={items.length >= availableItems.length}] *)
Definition add_disabled (items : list Cart.ShoppingCartItem) : bool :=
  Nat.leb (List.length Cart.availableItems) (List.length items).

End CartView.

(** ** app/use-effect-event/page.tsx: the three demos that call the polyfill

    A component is modelled by its state together with the hook cells of its
    [useEffectEvent] call and the dependency values its effect last ran
    with.  [render] is one render followed by the commit of its effects, in
    the order in which the component declares them: the effect inside
    [useEffectEvent] comes before the component's own. *)

Module VisitTracker.

(** What a call of the callback does: an updater handed to [setLogs]. *)
Definition setLogs_updater := list jsstring -> list jsstring.

Record state := mkState {
  url : jsstring;
  items : list Cart.ShoppingCartItem;
  logs : list jsstring;
  cells : EffectEvent.hooks jsstring setLogs_updater;
  effect_deps : option jsstring       (* [url] when the effect last ran *)
}.

(** The pictograph at the head of a log line, as two code units. *)
Definition bar_chart : jsstring := [55357; 56522]%N.

Definition logMessage (visitedUrl : jsstring) (numberOfItems : nat) : jsstring :=
  bar_chart ++ js " Visited " ++ visitedUrl ++ js " with "
  ++ number_to_string (Z.of_nat numberOfItems) ++ js " items in cart".

(** The function given to [useEffectEvent] by a render in which the cart
    has [numberOfItems] items. *)
Definition onVisit_body (numberOfItems : nat) (visitedUrl : jsstring)
    : setLogs_updater :=
  fun prev => prev ++ [logMessage visitedUrl numberOfItems].

(** The dependency list [[url]] against the one of the last run. *)
Definition deps_changed (last : option jsstring) (url : jsstring) : bool :=
  match last with
  | None => true
  | Some u => negb (jsstring_eqb u url)
  end.

Definition render (st : state) : state :=
  let numberOfItems := List.length (items st) in
  let (onVisit, cells') :=
    EffectEvent.render (onVisit_body numberOfItems) (cells st) in
  if deps_changed (effect_deps st) (url st) then
    (* onVisit(url) *)
    match EffectEvent.call cells' onVisit (url st) with
    | Some updater =>
        mkState (url st) (items st) (updater (logs st)) cells' (Some (url st))
    | None => mkState (url st) (items st) (logs st) cells' (Some (url st))
    end
  else mkState (url st) (items st) (logs st) cells' (effect_deps st).

(** A state change, the render it causes, and the render that follows when
    the effect has called [setLogs]. *)
Definition update (f : state -> state) (st : state) : state :=
  let st1 := f st in
  if deps_changed (effect_deps st1) (url st1)
  then render (render st1)
  else render st1.

Definition mount : state :=
  update (fun st => st)
    (mkState (js "/home") Cart.initial_items []
       (EffectEvent.unmounted jsstring setLogs_updater) None).

Inductive action : Type :=
| SetUrl (page : jsstring)
| AddItem
| RemoveItem (id : Z).

Definition handle (st : state) (a : action) : state :=
  match a with
  | SetUrl page =>
      update (fun st => mkState page (items st) (logs st) (cells st) (effect_deps st)) st
  | AddItem =>
      update (fun st => mkState (url st) (Cart.addItem (items st)) (logs st)
                          (cells st) (effect_deps st)) st
  | RemoveItem id =>
      update (fun st => mkState (url st) (Cart.removeItem id (items st)) (logs st)
                          (cells st) (effect_deps st)) st
  end.

Definition run (actions : list action) : state :=
  List.fold_left handle actions mount.

End VisitTracker.

(** The hook cells of the polyfill before the first render or after one. *)
Definition wired {Args Result : Type} (h : EffectEvent.hooks Args Result) : Prop :=
  h = EffectEvent.unmounted Args Result
  \/ exists g c,
       EffectEvent.memoized h = Some g /\ EffectEvent.ref_current h = Some c
       /\ (g < EffectEvent.created h)%nat.

(** The visits that the tracker should log, with the size of the cart at
    each: one for every change of page, none for a change of the cart or for
    the page that is already shown. *)
Fixpoint visits (url : jsstring) (items : list Cart.ShoppingCartItem)
    (actions : list VisitTracker.action) : list (jsstring * nat) :=
  match actions with
  | [] => []
  | VisitTracker.SetUrl page :: rest =>
      if jsstring_eqb url page then visits url items rest
      else (page, List.length items) :: visits page items rest
  | VisitTracker.AddItem :: rest => visits url (Cart.addItem items) rest
  | VisitTracker.RemoveItem id :: rest =>
      visits url (Cart.removeItem id items) rest
  end.

(** The tracker between two of the user's actions. *)
Definition tracker_at_rest (st : VisitTracker.state) : Prop :=
  wired (VisitTracker.cells st)
  /\ VisitTracker.effect_deps st = Some (VisitTracker.url st).

Definition visit_line (v : jsstring * nat) : jsstring :=
  VisitTracker.logMessage (fst v) (snd v).

Module Notification.

(** What a call of [playNotificationSound] does: an updater handed to
    [setNotifications]. *)
Definition updater := list jsstring -> list jsstring.

Record state := mkState {
  notifications : list jsstring;
  soundEnabled : bool;
  volume : Z;
  messageCount : Z;
  cells : EffectEvent.hooks unit updater;
  effect_deps : option Z              (* [messageCount] when the effect last ran *)
}.

(** The pictographs that open the lines, as code units. *)
Definition bell : jsstring := [55357; 56596]%N.
Definition muted : jsstring := [55357; 56583]%N.
Definition envelope : jsstring := [55357; 56553]%N.

Definition sound_line (soundEnabled : bool) (volume : Z) : jsstring :=
  if soundEnabled
  then bell ++ js " Playing notification sound at volume "
       ++ number_to_string volume ++ js "%"
  else muted ++ js " Sound disabled, notification shown silently".

Definition message_line (messageCount : Z) : jsstring :=
  envelope ++ js " New message received! (Message #"
  ++ number_to_string messageCount ++ js ")".

(** The function given to [useEffectEvent] by a render with these
    settings. *)
Definition playNotificationSound_body (soundEnabled : bool) (volume : Z)
    (_ : unit) : updater :=
  fun prev => prev ++ [sound_line soundEnabled volume].

Definition deps_changed (last : option Z) (messageCount : Z) : bool :=
  match last with
  | None => true
  | Some n => negb (Z.eqb n messageCount)
  end.

Definition render (st : state) : state :=
  let (playNotificationSound, cells') :=
    EffectEvent.render
      (playNotificationSound_body (soundEnabled st) (volume st)) (cells st) in
  if deps_changed (effect_deps st) (messageCount st) then
    if Z.eqb (messageCount st) 0 then
      (* if (messageCount === 0) return *)
      mkState (notifications st) (soundEnabled st) (volume st) (messageCount st)
              cells' (Some (messageCount st))
    else
      let received := notifications st ++ [message_line (messageCount st)] in
      (* playNotificationSound() *)
      match EffectEvent.call cells' playNotificationSound tt with
      | Some updater =>
          mkState (updater received) (soundEnabled st) (volume st)
                  (messageCount st) cells' (Some (messageCount st))
      | None =>
          mkState received (soundEnabled st) (volume st) (messageCount st)
                  cells' (Some (messageCount st))
      end
  else
    mkState (notifications st) (soundEnabled st) (volume st) (messageCount st)
            cells' (effect_deps st).

(** A state change, the render it causes, and the render that follows a
    [setNotifications] of the effect. *)
Definition update (f : state -> state) (st : state) : state :=
  let st1 := f st in
  if deps_changed (effect_deps st1) (messageCount st1)
  then render (render st1)
  else render st1.

(** The first render; its effect returns at once, no message being there. *)
Definition mount : state :=
  render (mkState [] true 50 0 (EffectEvent.unmounted unit updater) None).

Inductive action : Type :=
| SetSoundEnabled (checked : bool)
| SetVolume (value : Z)
| ReceiveMessage.

Definition handle (st : state) (a : action) : state :=
  match a with
  | SetSoundEnabled checked =>
      update (fun st => mkState (notifications st) checked (volume st)
                          (messageCount st) (cells st) (effect_deps st)) st
  | SetVolume value =>
      update (fun st => mkState (notifications st) (soundEnabled st) value
                          (messageCount st) (cells st) (effect_deps st)) st
  | ReceiveMessage =>
      update (fun st => mkState (notifications st) (soundEnabled st) (volume st)
                          (messageCount st + 1) (cells st) (effect_deps st)) st
  end.

Definition run (actions : list action) : state :=
  List.fold_left handle actions mount.

End Notification.

(** The notification log that the settings and messages should give: for
    each message its line and then the sound line of the settings in force
    when it arrives. *)
Fixpoint notified (soundEnabled : bool) (volume count : Z)
    (actions : list Notification.action) : list jsstring :=
  match actions with
  | [] => []
  | Notification.SetSoundEnabled checked :: rest => notified checked volume count rest
  | Notification.SetVolume value :: rest => notified soundEnabled value count rest
  | Notification.ReceiveMessage :: rest =>
      Notification.message_line (count + 1)
      :: Notification.sound_line soundEnabled volume
      :: notified soundEnabled volume (count + 1) rest
  end.

Definition notification_at_rest (st : Notification.state) : Prop :=
  wired (Notification.cells st)
  /\ Notification.effect_deps st = Some (Notification.messageCount st)
  /\ (0 <= Notification.messageCount st)%Z.

Fixpoint received (actions : list Notification.action) : nat :=
  match actions with
  | [] => 0
  | Notification.ReceiveMessage :: rest => S (received rest)
  | _ :: rest => received rest
  end.

Module BeforeAfterComparison.

Inductive Theme : Type := light | dark.

Definition theme_name (theme : Theme) : jsstring :=
  match theme with light => js "light" | dark => js "dark" end.

Definition Theme_eqb (a b : Theme) : bool :=
  match a, b with
  | light, light | dark, dark => true
  | _, _ => false
  end.

(** What a call of [onConnected] does: an updater handed to
    [setConnectionLogs]. *)
Definition updater := list jsstring -> list jsstring.

Record state := mkState {
  theme : Theme;
  connectionLogs : list jsstring;
  badConnectionLogs : list jsstring;
  cells : EffectEvent.hooks unit updater;
  bad_deps : option Theme;            (* [theme] when the first effect last ran *)
  connected : bool                    (* the effect with no dependency has run *)
}.

Definition cross_mark : jsstring := [10060]%N.
Definition check_mark : jsstring := [9989]%N.

Definition bad_connected (theme : Theme) : jsstring :=
  cross_mark ++ js " BAD: Connected to chat (theme: " ++ theme_name theme ++ js ")".

Definition bad_disconnected : jsstring :=
  cross_mark ++ js " BAD: Disconnected from chat".

Definition good_connected (theme : Theme) : jsstring :=
  check_mark ++ js " GOOD: Connected to chat (theme: " ++ theme_name theme ++ js ")".

(** The function given to [useEffectEvent] by a render with this theme. *)
Definition onConnected_body (theme : Theme) (_ : unit) : updater :=
  fun prev => prev ++ [good_connected theme].

Definition deps_changed (last : option Theme) (theme : Theme) : bool :=
  match last with
  | None => true
  | Some t => negb (Theme_eqb t theme)
  end.

(** A render and its commit: the cleanup of the first effect when its
    dependency changed after a run, then the effects in the order of their
    declaration: the first one, the one of the polyfill, the one with no
    dependency. *)
Definition render (st : state) : state :=
  let (onConnected, cells') :=
    EffectEvent.render (onConnected_body (theme st)) (cells st) in
  let bad :=
    if deps_changed (bad_deps st) (theme st) then
      match bad_deps st with
      | Some _ => (badConnectionLogs st ++ [bad_disconnected])
                  ++ [bad_connected (theme st)]
      | None => badConnectionLogs st ++ [bad_connected (theme st)]
      end
    else badConnectionLogs st in
  let good :=
    if connected st then connectionLogs st
    else
      (* onConnected() *)
      match EffectEvent.call cells' onConnected tt with
      | Some updater => updater (connectionLogs st)
      | None => connectionLogs st
      end in
  mkState (theme st) good bad cells' (Some (theme st)) true.

(** A state change, the render it causes, and the render that follows when
    an effect has set a log. *)
Definition update (f : state -> state) (st : state) : state :=
  let st1 := f st in
  if deps_changed (bad_deps st1) (theme st1) || negb (connected st1)
  then render (render st1)
  else render st1.

Definition mount : state :=
  update (fun st => st)
    (mkState light [] [] (EffectEvent.unmounted unit updater) None false).

(** The two buttons of the theme selector. *)
Definition setTheme (value : Theme) (st : state) : state :=
  update (fun st => mkState value (connectionLogs st) (badConnectionLogs st)
                      (cells st) (bad_deps st) (connected st)) st.

Definition run (clicks : list Theme) : state :=
  List.fold_left (fun st value => setTheme value st) clicks mount.

End BeforeAfterComparison.

(** The lines that the changes of theme add to the log of the first
    effect: a disconnection and a connection for every click that changes
    the theme. *)
Fixpoint reconnections (theme : BeforeAfterComparison.Theme)
    (clicks : list BeforeAfterComparison.Theme) : list jsstring :=
  match clicks with
  | [] => []
  | value :: rest =>
      if BeforeAfterComparison.Theme_eqb theme value then reconnections theme rest
      else BeforeAfterComparison.bad_disconnected
           :: BeforeAfterComparison.bad_connected value
           :: reconnections value rest
  end.

Definition chat_at_rest (st : BeforeAfterComparison.state) : Prop :=
  wired (BeforeAfterComparison.cells st)
  /\ BeforeAfterComparison.bad_deps st = Some (BeforeAfterComparison.theme st)
  /\ BeforeAfterComparison.connected st = true.

(** ** app/error-handling/page.tsx: the two demos of the page *)

Module ErrorHandlingDemo.

(** What the boundary is given to render: its child element, or the
    fallback's box with the message of the error and, behind its button,
    the boundary's reset. *)
Inductive ReactNode : Type :=
| BuggyComponent_element (shouldError : bool)
| Error_box (message : jsstring) (reset : Boundary.callback).

Definition collision : jsstring := [55357; 56485]%N.

Definition buggy_error : Error :=
  mkError (js "Error")
          (collision ++ js " Something went wrong in BuggyComponent!").

(** [BuggyComponent]: it throws while rendering, or renders its success
    box. *)
Definition BuggyComponent (shouldError : bool) : completion unit :=
  if shouldError then Throw buggy_error else Normal tt.

Record state := mkState {
  triggerError : bool;
  boundary : Boundary.State;
  console : list jsstring
}.

Definition props (triggerError : bool) : Boundary.Props ReactNode :=
  Boundary.mkProps (BuggyComponent_element triggerError)
    (fun error reset => Error_box (err_message error) reset).

(** A render of the page.  When the child throws, React hands the error to
    the boundary, which renders again. *)
Definition render (st : state) : state :=
  match Boundary.render (props (triggerError st)) (boundary st) with
  | BuggyComponent_element shouldError =>
      match BuggyComponent shouldError with
      | Throw e =>
          let (caught, console') :=
            Boundary.child_throws e (boundary st) (console st) in
          mkState (triggerError st) caught console'
      | Normal _ => st
      end
  | Error_box _ _ => st
  end.

(** What is on the screen below the button. *)
Inductive screen : Type :=
| Rendered_successfully
| Error_caught (message : jsstring)
| Crashed.                            (* a child threw and nothing caught it *)

Definition shown (st : state) : screen :=
  match Boundary.render (props (triggerError st)) (boundary st) with
  | BuggyComponent_element shouldError =>
      match BuggyComponent shouldError with
      | Normal _ => Rendered_successfully
      | Throw _ => Crashed
      end
  | Error_box message _ => Error_caught message
  end.

Definition mount : state :=
  render (mkState false (Boundary.constructor (props false)) []).

Inductive click : Type :=
| Toggle                (* 'Break Component' / 'Fix Component' *)
| ResetAndTryAgain.     (* the button of the fallback *)

Definition handle (st : state) (c : click) : state :=
  match c with
  | Toggle =>
      (* setTriggerError(!triggerError) *)
      render (mkState (negb (triggerError st)) (boundary st) (console st))
  | ResetAndTryAgain =>
      match Boundary.render (props (triggerError st)) (boundary st) with
      | Error_box _ reset =>
          (* reset(); setTriggerError(false) *)
          render (mkState false (reset (boundary st)) (console st))
      | BuggyComponent_element _ => st      (* the button is not there *)
      end
  end.

Definition run (clicks : list click) : state :=
  List.fold_left handle clicks mount.

End ErrorHandlingDemo.

Module AsyncBuggyComponent.

Record state := mkState {
  data : option jsstring;
  error : option Error
}.

Definition setData (d : option jsstring) (st : state) : state :=
  mkState d (error st).

Definition setError (e : option Error) (st : state) : state :=
  mkState (data st) e.

(** [fetchData] of a render with this [shouldError]: the update it makes
    at once, and the rest of the async function, which ends with the update
    it makes after the timer. *)
Definition fetchData (shouldError : bool)
    : (state -> state) * async (state -> state) :=
  (setError None,
   try_await
     (Await_timeout 1000
        (if shouldError
         then Raise (new_Error "Failed to fetch data from server")
         else Return (js "Data loaded successfully!")))
     (fun _ => Return (setData (Some (js "Data loaded successfully!"))))
     (fun err => Return (setError (Some err)))).

(** The component with its calls in flight, the oldest first: they all wait
    the same time, so they end in the order they were made. *)
Record component := mkComponent {
  view : state;
  pending : list (async (state -> state))
}.

Inductive event : Type :=
| Click (shouldError : bool)     (* the button, with the prop of that render *)
| TimerFires.

Definition step (c : component) (ev : event) : component :=
  match ev with
  | Click shouldError =>
      let (at_once, rest) := fetchData shouldError in
      mkComponent (at_once (view c)) (pending c ++ [rest])
  | TimerFires =>
      match pending c with
      | [] => c
      | call :: others =>
          match settlement call with
          | Normal update => mkComponent (update (view c)) others
          | Throw _ => mkComponent (view c) others    (* a rejection nobody handles *)
          end
      end
  end.

Definition run (events : list event) : component :=
  List.fold_left step events (mkComponent (mkState None None) []).

End AsyncBuggyComponent.

(** The two banners of [AsyncBuggyComponent]. *)
Definition data_loaded : jsstring := js "Data loaded successfully!".
Definition fetch_failed : Error := new_Error "Failed to fetch data from server".

(** The calls of [fetchData] that have ended, as their [shouldError], the
    oldest first, and those still waiting. *)
Fixpoint ended_and_waiting (ended waiting : list bool)
    (events : list AsyncBuggyComponent.event) : list bool * list bool :=
  match events with
  | [] => (ended, waiting)
  | AsyncBuggyComponent.Click shouldError :: rest =>
      ended_and_waiting ended (waiting ++ [shouldError]) rest
  | AsyncBuggyComponent.TimerFires :: rest =>
      match waiting with
      | [] => ended_and_waiting ended waiting rest
      | call :: others => ended_and_waiting (ended ++ [call]) others rest
      end
  end.

(** ** app/view-transitions/page.tsx: the handlers of the page *)

Module ViewTransitionsDemo.

Record Item := mkItem {
  id : Z;
  title : jsstring;
  description : jsstring;
  color : jsstring
}.

Inductive View : Type := grid | list_view.      (* 'grid' | 'list' *)
Inductive SortOrder : Type := asc | desc.

Record state := mkState {
  selectedItem : option Item;
  view : View;
  sortOrder : SortOrder
}.

Definition setSelectedItem (item : option Item) (st : state) : state :=
  mkState item (view st) (sortOrder st).

Definition setView (v : View) (st : state) : state :=
  mkState (selectedItem st) v (sortOrder st).

Definition setSortOrder (o : SortOrder) (st : state) : state :=
  mkState (selectedItem st) (view st) o.

(** The component as first rendered. *)
Definition initial : state := mkState None grid asc.

Section Handlers.

Variable Host : Type.
Variable document : ViewTransition.document_t state Host.

Definition handleItemClick (item : Item) : ViewTransition.effect state Host :=
  ViewTransition.withViewTransition document (setSelectedItem (Some item)).

Definition handleClose : ViewTransition.effect state Host :=
  ViewTransition.withViewTransition document (setSelectedItem None).

(** [toggleView] and [toggleSort] of a render: they read the [view] and
    the [sortOrder] of that render. *)
Definition toggleView (rendered : state) : ViewTransition.effect state Host :=
  ViewTransition.withViewTransition document
    (setView (match view rendered with grid => list_view | list_view => grid end)).

Definition toggleSort (rendered : state) : ViewTransition.effect state Host :=
  ViewTransition.withViewTransition document
    (setSortOrder (match sortOrder rendered with asc => desc | desc => asc end)).

Inductive click : Type :=
| ItemClick (item : Item)
| Close
| ToggleView
| ToggleSort.

(** A click reaches the handler of the latest render. *)
Definition handle (w : ViewTransition.world state Host) (c : click)
    : ViewTransition.world state Host :=
  match c with
  | ItemClick item => handleItemClick item w
  | Close => handleClose w
  | ToggleView => toggleView (ViewTransition.app w) w
  | ToggleSort => toggleSort (ViewTransition.app w) w
  end.

Definition run (clicks : list click) (w : ViewTransition.world state Host)
    : ViewTransition.world state Host :=
  List.fold_left handle clicks w.

End Handlers.

End ViewTransitionsDemo.





(** ** The [use()] demo: [UseHookDemo] and [Post] *)

Module UseHookDemo.

Record state := mkState {
  postId : Z;
  postPromise : nat
}.

Definition setPostId (id : Z) (st : state) : state :=
  mkState id (postPromise st).

Definition setPostPromise (p : nat) (st : state) : state :=
  mkState (postId st) p.

Definition world := Runtime.world UseDemo.Post state Empty_set Empty_set.
Definition M := Runtime.M UseDemo.Post state Empty_set Empty_set.

Definition no_timeout (h : Empty_set) (_ : Z) (st : state) : state := st.
Definition no_reaction (r : Empty_set) (_ : UseDemo.Post) (_ : Z) (st : state)
    : state := st.

(** The same loop with another state of the page in it. *)
Definition with_page {St St' : Type} (pg : St')
    (w : Runtime.world UseDemo.Post St Empty_set Empty_set)
    : Runtime.world UseDemo.Post St' Empty_set Empty_set :=
  Runtime.mkWorld (Runtime.now w) (Runtime.timers w) (Runtime.next_timer w)
                  (Runtime.promises w) (Runtime.settle_calls w)
                  (Runtime.microtasks w) pg.

(** [fetchData(id)], called from the component: it leaves the state of the
    component alone. *)
Definition fetchData (id : Z) : M nat := fun w =>
  let (p, w') := UseDemo.fetchData id (with_page tt w) in
  (p, with_page (Runtime.page w) w').

Definition loadPost (id : Z) : M unit :=
  Runtime.update (setPostId id) ;;
  p <- fetchData id ;;
  Runtime.update (setPostPromise p).

(** The first render, at time [t0]: [useState(1)] and
    [useState(() => fetchData(1))]. *)
Definition mount (t0 : Z) : world :=
  let (p, w) := UseDemo.fetchData 1 (Runtime.idle t0 tt) in
  with_page (mkState 1 p) w.

(** What is inside the [Suspense] boundary: [Post] calls
    [use(postPromise)]. *)
Inductive screen : Type :=
| Loading_post                      (* the fallback *)
| Post_shown (post : UseDemo.Post)
| Post_failed (e : Error).          (* [use] throws the rejection *)

Definition shown (w : world) : screen :=
  match Runtime.state_of w (postPromise (Runtime.page w)) with
  | Some (Runtime.Fulfilled post) => Post_shown post
  | Some (Runtime.Rejected e) => Post_failed e
  | _ => Loading_post
  end.

Inductive input : Type :=
| LoadPost (id : Z)        (* a click on a button *)
| Wait (ms : N).

Definition step (w : world) (i : input) : world :=
  match i with
  | LoadPost id => Runtime.exec (Runtime.task no_reaction (loadPost id)) w
  | Wait ms => Runtime.wait no_timeout no_reaction ms w
  end.

Definition run (inputs : list input) (w : world) : world :=
  List.fold_left step inputs w.

End UseHookDemo.

(** The timers of the [use()] demo are distinct and resolve promises that
    exist; the promise that the component holds is the one of a fetch of
    its [postId]: fulfilled with that post, or pending with its timer due
    by [d]. *)
Definition post_on_its_way (d : Z) (w : UseHookDemo.world) : Prop :=
  let current := UseHookDemo.postPromise (Runtime.page w) in
  let post := UseDemo.post_of (UseHookDemo.postId (Runtime.page w)) in
  NoDup (List.map (@Runtime.tid _ _) (Runtime.timers w))
  /\ (forall t, In t (Runtime.timers w) ->
                (Runtime.tid t < Runtime.next_timer w)%nat)
  /\ (forall t, In t (Runtime.timers w) ->
        exists p v,
          Runtime.action t = Runtime.Resolve p v
          /\ (p < List.length (Runtime.promises w))%nat
          /\ (p = current -> v = post))
  /\ (Runtime.state_of w current = Some (Runtime.Fulfilled post)
      \/ (Runtime.state_of w current = Some Runtime.Pending
          /\ exists t,
               In t (Runtime.timers w)
               /\ Runtime.action t = Runtime.Resolve current post
               /\ (Runtime.due t <= d)%Z)).

(** ** The async-transitions demo: [fetchData] and [SearchResults] *)

Module SearchResults.

Record state := mkState {
  results : list jsstring
}.

(** The rest of the async function given to [startTransition], after its
    [await]: [setResults(data)]. *)
Inductive Reaction : Type :=
| SetResults.

Definition world := Runtime.world (list jsstring) state Empty_set Reaction.
Definition M := Runtime.M (list jsstring) state Empty_set Reaction.

Definition no_timeout (h : Empty_set) (_ : Z) (st : state) : state := st.

Definition run_reaction (r : Reaction) (data : list jsstring) (_ : Z)
    (st : state) : state :=
  match r with
  | SetResults => mkState data
  end.

(** The double quote that goes around the query. *)
Definition quote : jsstring := [34]%N.

(** The array [results] of [fetchData]. *)
Definition results_for (query : jsstring) : list jsstring :=
  [ js "Result 1 for " ++ quote ++ query ++ quote;
    js "Result 2 for " ++ quote ++ query ++ quote;
    js "Result 3 for " ++ quote ++ query ++ quote;
    js "Result 4 for " ++ quote ++ query ++ quote;
    js "Result 5 for " ++ quote ++ query ++ quote ].

(** Simulate async data fetching *)
Definition fetchData (query : jsstring) : M nat :=
  Runtime.new_Promise (fun resolve _ =>
    _ <- Runtime.setTimeout (resolve (results_for query)) 1000 ;;
    Runtime.ret tt).

(** [search(searchQuery)]: the async function runs up to its [await]. *)
Definition search (searchQuery : jsstring) : M unit :=
  p <- fetchData searchQuery ;;
  Runtime.then_ p SetResults.

(** The component as first rendered, at time [t0]. *)
Definition mount (t0 : Z) : world := Runtime.idle t0 (mkState []).

Inductive input : Type :=
| Change (value : jsstring)      (* the text of the search box changes *)
| Wait (ms : N).

Definition step (w : world) (i : input) : world :=
  match i with
  | Change value => Runtime.exec (Runtime.task run_reaction (search value)) w
  | Wait ms => Runtime.wait no_timeout run_reaction ms w
  end.

Definition run (inputs : list input) (w : world) : world :=
  List.fold_left step inputs w.

End SearchResults.

(** The texts that the search box has had, in order. *)
Fixpoint queries (inputs : list SearchResults.input) : list jsstring :=
  match inputs with
  | [] => []
  | SearchResults.Change value :: rest => value :: queries rest
  | SearchResults.Wait _ :: rest => queries rest
  end.

(** The promise that a timer settles, and the value it carries. *)
Definition resolved {V Timeout : Type} (t : Runtime.timer V Timeout) : nat :=
  match Runtime.action t with
  | Runtime.Resolve p _ | Runtime.Reject p _ | Runtime.Resume p _ => p
  | Runtime.Page _ => 0
  end.

Definition carried {Timeout : Type}
    (t : Runtime.timer (list jsstring) Timeout) : list jsstring :=
  match Runtime.action t with
  | Runtime.Resolve _ v => v
  | _ => []
  end.

(** The results on the screen once every search under way has ended. *)
Definition outcome (w : SearchResults.world) : list jsstring :=
  List.last (List.map carried (Runtime.timers w))
            (SearchResults.results (Runtime.page w)).

(** The searches under way: their timers are distinct, in the order of
    their due times and due by [d]; each resolves a promise of its own, on
    which the rest of its search waits, with the results for a text that
    was typed. *)
Definition searching (typed : list jsstring) (d : Z) (w : SearchResults.world)
    : Prop :=
  NoDup (List.map (@Runtime.tid _ _) (Runtime.timers w))
  /\ (forall t, In t (Runtime.timers w) ->
                (Runtime.tid t < Runtime.next_timer w)%nat)
  /\ ForallOrdPairs (fun a b => (Runtime.due a <= Runtime.due b)%Z)
       (Runtime.timers w)
  /\ (forall t, In t (Runtime.timers w) -> (Runtime.due t <= d)%Z)
  /\ NoDup (List.map resolved (Runtime.timers w))
  /\ (forall t, In t (Runtime.timers w) ->
        exists q,
          In q typed
          /\ Runtime.action t
             = Runtime.Resolve (resolved t) (SearchResults.results_for q)
          /\ nth_error (Runtime.promises w) (resolved t)
             = Some (Runtime.mkPromise Runtime.Pending [SearchResults.SetResults]))
  /\ Runtime.microtasks w = []
  /\ outcome w = List.last (List.map SearchResults.results_for typed) []
  /\ (SearchResults.results (Runtime.page w) = []
      \/ exists q, In q typed
                   /\ SearchResults.results (Runtime.page w)
                      = SearchResults.results_for q).

(** ** The Suspense comparison: what the two components show *)

Module SuspenseView.

Import Suspense.

Inductive screen18 : Type :=
| Blank_screen
| Loading_content                 (* the spinner *)
| Loaded (user : option UserData) (posts : option (list PostData))
         (comments : option (list CommentData))
| Nothing.

(** An object or an array, or [null], as a condition. *)
Definition truthy {A : Type} (o : option A) : bool :=
  match o with Some _ => true | None => false end.

(** [const isLoading = !userData || !postsData || !commentsData] *)
Definition isLoading (s : R18.state) : bool :=
  negb (truthy (R18.userData s)) || negb (truthy (R18.postsData s))
  || negb (truthy (R18.commentsData s)).

(** What [React18Simulation] returns, above its timeline. *)
Definition React18Simulation (s : R18.state) : screen18 :=
  if negb (R18.showFallback s) && isLoading s then Blank_screen
  else if R18.showFallback s && isLoading s then Loading_content
  else if negb (isLoading s)
       then Loaded (R18.userData s) (R18.postsData s) (R18.commentsData s)
       else Nothing.

(** [use(promise)] *)
Inductive used : Type :=
| Suspends
| Reads (v : Value)
| Throws (e : Error).

Definition use (w : world) (promise : nat) : used :=
  match Runtime.state_of w promise with
  | Some (Runtime.Fulfilled v) => Reads v
  | Some (Runtime.Rejected e) => Throws e
  | _ => Suspends
  end.

(** [{promise && <Child promise={promise} />}], for [UserProfile], [Posts]
    and [Comments]; [pick] is the type the child reads its value at. *)
Inductive rendered (A : Type) : Type :=
| Shows (a : option A)
| Suspended
| Threw (e : Error).
Arguments Shows {A} a.
Arguments Suspended {A}.
Arguments Threw {A} e.

Definition child {A : Type} (w : world) (promise : option nat)
    (pick : Value -> option A) : rendered A :=
  match promise with
  | None => Shows None
  | Some p =>
      match use w p with
      | Reads v => Shows (pick v)
      | Suspends => Suspended
      | Throws e => Threw e
      end
  end.

Inductive screen19 : Type :=
| Fallback_shown
| Children (user : option UserData) (posts : option (list PostData))
           (comments : option (list CommentData))
| Error_thrown (e : Error).

(** What [React19Demo] returns, above its timeline: the three children
    under one [Suspense] boundary; the first of them that does not show
    decides. *)
Definition React19Demo (w : world) : screen19 :=
  let s := react19 (Runtime.page w) in
  match child w (R19.userPromise s)
          (fun v => match v with User u => Some u | _ => None end) with
  | Shows user =>
      match child w (R19.postsPromise s)
              (fun v => match v with Posts ps => Some ps | _ => None end) with
      | Shows posts =>
          match child w (R19.commentsPromise s)
                  (fun v => match v with Comments cs => Some cs | _ => None end) with
          | Shows comments => Children user posts comments
          | Suspended => Fallback_shown
          | Threw e => Error_thrown e
          end
      | Suspended => Fallback_shown
      | Threw e => Error_thrown e
      end
  | Suspended => Fallback_shown
  | Threw e => Error_thrown e
  end.

End SuspenseView.

(** The value a handler of the Suspense page is waiting for. *)
Definition awaited (r : Suspense.Reaction) : Suspense.Value :=
  match r with
  | Suspense.UserLoaded18 | Suspense.UserLoaded19 => Suspense.User user_profile
  | Suspense.PostsLoaded18 | Suspense.PostsLoaded19 => Suspense.Posts two_posts
  | Suspense.CommentsLoaded18 | Suspense.CommentsLoaded19 =>
      Suspense.Comments three_comments
  end.

(** A timer of the Suspense page is a closure of a component, or resolves
    a pending promise on which one handler waits, with the value that
    handler is for. *)
Definition fetch_timer (w : Suspense.world)
    (t : Runtime.timer Suspense.Value Suspense.Timeout) : Prop :=
  match Runtime.action t with
  | Runtime.Page _ => True
  | Runtime.Resolve p v =>
      exists r,
        nth_error (Runtime.promises w) p
        = Some (Runtime.mkPromise Runtime.Pending [r])
        /\ v = awaited r
  | _ => False
  end.

(** The promises that the timers resolve. *)
Definition targets {V Timeout : Type} (ts : list (Runtime.timer V Timeout))
    : list nat :=
  List.flat_map
    (fun t => match Runtime.action t with
              | Runtime.Resolve p _ => [p]
              | _ => []
              end)
    ts.

(** A promise that [React19Demo] holds: fulfilled with [v], [delay] after
    the start of the run or later, or pending with its timer due at that
    time. *)
Definition arriving19 (w : Suspense.world) (promise : option nat)
    (v : Suspense.Value) (delay : Z) : Prop :=
  exists p,
    promise = Some p
    /\ ((Runtime.state_of w p = Some (Runtime.Fulfilled v)
         /\ (Suspense.start19 w + delay <= Runtime.now w)%Z)
        \/ (Runtime.state_of w p = Some Runtime.Pending
            /\ exists id,
                 In (Runtime.mkTimer id (Suspense.start19 w + delay)
                       (Runtime.Resolve p v))
                    (Runtime.timers w))).

(** The piece of data that a handler of [React18Simulation] sets is
    there. *)
Definition has_data (pg : Suspense.Page) (r : Suspense.Reaction) : Prop :=
  match r with
  | Suspense.UserLoaded18 =>
      Suspense.R18.userData (Suspense.react18 pg) = Some user_profile
  | Suspense.PostsLoaded18 =>
      Suspense.R18.postsData (Suspense.react18 pg) = Some two_posts
  | Suspense.CommentsLoaded18 =>
      Suspense.R18.commentsData (Suspense.react18 pg) = Some three_comments
  | _ => False
  end.

Definition of_react18 (r : Suspense.Reaction) : Prop :=
  r = Suspense.UserLoaded18 \/ r = Suspense.PostsLoaded18
  \/ r = Suspense.CommentsLoaded18.

(** A piece of data of [React18Simulation]: there already, or on its way
    with a timer due [delay] after the start of the run, whose promise the
    handler [r] waits on. *)
Definition arriving18 (w : Suspense.world) (r : Suspense.Reaction) (delay : Z)
    : Prop :=
  has_data (Runtime.page w) r
  \/ exists id p,
       In (Runtime.mkTimer id (Suspense.start18 w + delay)
             (Runtime.Resolve p (awaited r)))
          (Runtime.timers w)
       /\ nth_error (Runtime.promises w) p
          = Some (Runtime.mkPromise Runtime.Pending [r]).

Definition fetching (w : Suspense.world) : Prop :=
  let s19 := Suspense.react19 (Runtime.page w) in
  (forall t, In t (Runtime.timers w) -> fetch_timer w t)
  /\ NoDup (targets (Runtime.timers w))
  /\ arriving19 w (Suspense.R19.userPromise s19) (Suspense.User user_profile) 1000
  /\ arriving19 w (Suspense.R19.postsPromise s19) (Suspense.Posts two_posts) 2000
  /\ arriving19 w (Suspense.R19.commentsPromise s19)
       (Suspense.Comments three_comments) 3000
  /\ arriving18 w Suspense.UserLoaded18 1000
  /\ arriving18 w Suspense.PostsLoaded18 2000
  /\ arriving18 w Suspense.CommentsLoaded18 3000.

(** The spinner flag of [React18Simulation] is only set from 800 ms after
    the start of the run. *)
Definition spinner_delayed (n : Z) (pg : Suspense.Page) : Prop :=
  Suspense.R18.showFallback (Suspense.react18 pg) = true ->
  (Suspense.R18.startTimeRef (Suspense.react18 pg) + 800 <= n)%Z.

(** ** app/activity/page.tsx: [simulateProgress] *)

Module ActivityDemo.

Record state := mkState {
  isLoading : bool;
  progress : Z;
  intervals : list nat;        (* the intervals that are set, oldest first *)
  next_interval : nat
}.

(** The component as first rendered. *)
Definition initial : state := mkState false 0 [] 0.

(** [simulateProgress()]: the two updates and [setInterval(.., 300)]. *)
Definition simulateProgress (st : state) : state :=
  mkState true 0 (intervals st ++ [next_interval st]) (S (next_interval st)).

(** [clearInterval(interval)] *)
Definition clearInterval (interval : nat) (active : list nat) : list nat :=
  List.filter (fun i => negb (Nat.eqb i interval)) active.

(** The callback of [interval]: [setProgress] with its updater, which at
    100 clears the interval and ends the loading. *)
Definition callback (interval : nat) (st : state) : state :=
  if Z.leb 100 (progress st)
  then mkState false 100 (clearInterval interval (intervals st))
               (next_interval st)
  else mkState (isLoading st) (progress st + 10) (intervals st)
               (next_interval st).

Inductive event : Type :=
| Click                              (* the button that starts the progress *)
| IntervalFires (interval : nat).    (* 300 ms of an interval have passed *)

Definition step (st : state) (ev : event) : state :=
  match ev with
  | Click => simulateProgress st
  | IntervalFires interval =>
      if existsb (Nat.eqb interval) (intervals st)
      then callback interval st
      else st                        (* an interval that is not set *)
  end.

Definition run (events : list event) : state :=
  List.fold_left step events initial.

End ActivityDemo.

(* ===================================================================== *)
(* ===================================================================== *)
(** * Theorems *)
(* ===================================================================== *)
(* ===================================================================== *)

Local Open Scope Z_scope.

(** ** Strings *)

Lemma startsWith_app (p r : jsstring) : startsWith (p ++ r) p = true.
Proof.
  induction p as [|c p IH]; simpl.
  - reflexivity.
  - now rewrite N.eqb_refl, IH.
Qed.

Lemma includes_here (s p : jsstring) :
  startsWith s p = true -> includes s p = true.
Proof.
  intros H. destruct s; simpl; rewrite H; reflexivity.
Qed.

Lemma includes_skip (a s p : jsstring) :
  includes s p = true -> includes (a ++ s) p = true.
Proof.
  intros H. induction a as [|c a IH]; simpl.
  - exact H.
  - rewrite IH. apply orb_true_r.
Qed.

Lemma includes_infix (a p b : jsstring) : includes (a ++ p ++ b) p = true.
Proof.
  apply includes_skip, includes_here, startsWith_app.
Qed.

(** [s.includes(c)] for a single code unit [c] is membership. *)
Lemma includes_unit (s : jsstring) (c : code_unit) :
  includes s [c] = true <-> In c s.
Proof.
  induction s as [|y s IH]; simpl.
  - split; [discriminate | tauto].
  - rewrite orb_true_iff, andb_true_r, N.eqb_eq, IH.
    split; intros [H | H]; auto.
Qed.

Lemma trimStart_white (s : jsstring) :
  forallb is_white_space s = true -> trimStart s = [].
Proof.
  induction s as [|c s IH]; simpl.
  - reflexivity.
  - intros H. apply andb_true_iff in H as [Hc Hs].
    rewrite Hc. auto.
Qed.

Lemma trim_white (s : jsstring) :
  forallb is_white_space s = true -> trim s = [].
Proof.
  intros H. unfold trim. rewrite (trimStart_white _ H). reflexivity.
Qed.

(** ** The server action *)

Section SubmitFormAction.

Import ServerActions.

Lemma not_absent_or_empty (v : option FormDataEntryValue) :
  not_ v = true <-> absent_or_empty v.
Proof.
  unfold absent_or_empty.
  destruct v as [[[|c s]|f]|]; simpl; split; intros H;
    try reflexivity; try discriminate; auto;
    destruct H as [H | H]; discriminate.
Qed.

Lemma validation_fails (fd : FormData) :
  not_ (get fd (js "name")) || not_ (get fd (js "email"))
    || not_ (get fd (js "message")) = true
  <-> absent_or_empty (get fd (js "name"))
      \/ absent_or_empty (get fd (js "email"))
      \/ absent_or_empty (get fd (js "message")).
Proof.
  rewrite !orb_true_iff, !not_absent_or_empty. tauto.
Qed.

(** C3, as it holds.  For every [prevState] and every [FormData] whose
    name and email entries are strings when present (what the casts
    [as string] assume): an absent or empty name, email or message gives
    [{ success: false, error: 'Please fill in all fields' }]; all three
    filled in and no '@' in the email gives
    [{ success: false, error: 'Please enter a valid email address' }];
    otherwise the result is [{ success: true, message }] and the message
    contains the name and the email; the call does not throw. *)
Theorem submitFormAction_on_text_fields (prevState : any) (fd : FormData) :
  text_or_absent (get fd (js "name")) ->
  text_or_absent (get fd (js "email")) ->
  let blank := absent_or_empty (get fd (js "name"))
               \/ absent_or_empty (get fd (js "email"))
               \/ absent_or_empty (get fd (js "message")) in
  let result := settlement (submitFormAction prevState fd) in
  (blank -> result = Normal fill_in_all_fields)
  /\ (forall email, ~ blank -> get fd (js "email") = Some (Text email) ->
        ~ In at_sign email -> result = Normal enter_valid_email)
  /\ (forall name email, ~ blank ->
        get fd (js "name") = Some (Text name) ->
        get fd (js "email") = Some (Text email) ->
        In at_sign email ->
        exists msg,
          result = Normal {| success := true; message := Some msg; error := None |}
          /\ includes msg name = true /\ includes msg email = true)
  /\ (exists st, result = Normal st).
Proof.
  intros Hname Hemail blank result.
  unfold result, submitFormAction; cbn [settlement].
  destruct (not_ (get fd (js "name")) || not_ (get fd (js "email"))
            || not_ (get fd (js "message"))) eqn:Hv.
  - apply validation_fails in Hv. fold blank in Hv. cbn [settlement].
    split; [reflexivity|].
    split; [intros; contradiction|].
    split; [intros; contradiction|].
    eexists; reflexivity.
  - assert (Hnb : ~ blank).
    { intros Hb. apply validation_fails in Hb. congruence. }
    split; [intros; contradiction|].
    destruct (get fd (js "email")) as [[email|f]|] eqn:He;
      [ | contradiction Hemail
        | exfalso; apply Hnb; right; left; left; reflexivity ].
    cbn [call_includes].
    destruct (includes email (js "@")) eqn:Hat; cbn [negb settlement].
    + assert (Hin : In at_sign email) by (apply includes_unit; exact Hat).
      split; [intros email' _ [= <-] Hno; contradiction|].
      split; [|eexists; reflexivity].
      intros name email' _ Hn [= <-] _. rewrite Hn. cbn [to_string].
      eexists. split; [reflexivity|]. split.
      * apply includes_infix.
      * rewrite !app_assoc. rewrite <- app_assoc. apply includes_infix.
    + assert (Hnin : ~ In at_sign email).
      { intros Hin. apply includes_unit in Hin.
        change (js "@") with [at_sign] in Hat. congruence. }
      split; [reflexivity|].
      split; [|eexists; reflexivity].
      intros name email' _ _ [= <-] Hin. contradiction.
Qed.

End SubmitFormAction.

(** A run of [submitFormAction_on_text_fields] on a filled-in form. *)
Lemma submitFormAction_on_text_fields_witness :
  let fd := form (js "Ann") (js "ann@example.com") (js "Hello") in
  text_or_absent (get fd (js "name"))
  /\ text_or_absent (get fd (js "email"))
  /\ exists st, settlement (ServerActions.submitFormAction Null fd) = Normal st.
Proof.
  simpl. split; [exact I|]. split; [exact I|].
  destruct (submitFormAction_on_text_fields Null
              (form (js "Ann") (js "ann@example.com") (js "Hello")) I I)
    as (_ & _ & _ & H).
  exact H.
Defined.

(** C3 as stated fails: with a [File] under [email] and the other two fields
    filled in, [email.includes] is not a function and the call throws. *)
Lemma submitFormAction_throws_on_file :
  ~ absent_or_empty (get form_with_file (js "name"))
  /\ ~ absent_or_empty (get form_with_file (js "email"))
  /\ ~ absent_or_empty (get form_with_file (js "message"))
  /\ settlement (ServerActions.submitFormAction Null form_with_file)
     = Throw (TypeError "email.includes is not a function").
Proof.
  repeat split; try reflexivity; intros [H | H]; discriminate H.
Qed.

(** C10.  The result of [submitFormAction] does not depend on [prevState]:
    two calls with the same [FormData] give the same async computation,
    hence the same delays and the same settlement. *)
Theorem submitFormAction_ignores_prevState (prev1 prev2 : any) (fd : FormData) :
  ServerActions.submitFormAction prev1 fd = ServerActions.submitFormAction prev2 fd
  /\ settlement (ServerActions.submitFormAction prev1 fd)
     = settlement (ServerActions.submitFormAction prev2 fd)
  /\ delays (ServerActions.submitFormAction prev1 fd)
     = delays (ServerActions.submitFormAction prev2 fd).
Proof.
  repeat split.
Qed.

(** ** Blank fields in the two form actions *)

(** C4 as stated fails: a name of one space is whitespace-only, and the
    state the action returns is the success state, with no error in it. *)
Lemma whitespace_only_name_is_accepted :
  let fd := form (js " ") (js "ann@example.com") (js "Hello") in
  forallb is_white_space (js " ") = true
  /\ exists st,
       settlement (ServerActions.submitFormAction Null fd) = Normal st
       /\ ServerActions.success st = true
       /\ ServerActions.error st = None.
Proof.
  split; [reflexivity|].
  eexists. split; [reflexivity|]. split; reflexivity.
Qed.

(** C4, as it holds.  [submitFormAction] answers an absent or empty name,
    email or message with the message 'Please fill in all fields'
    (whitespace counts as filled in).  The todo reducer answers an empty or
    whitespace-only todo with the current list, unchanged: its state is the
    list alone and has no place for a message. *)
Theorem blank_fields_in_form_actions :
  (forall (prevState : any) (fd : FormData),
      absent_or_empty (get fd (js "name"))
      \/ absent_or_empty (get fd (js "email"))
      \/ absent_or_empty (get fd (js "message")) ->
      settlement (ServerActions.submitFormAction prevState fd)
      = Normal fill_in_all_fields
      /\ ServerActions.error fill_in_all_fields
         = Some (js "Please fill in all fields"))
  /\ (forall (currentTodos : list jsstring) (fd : FormData) (todo : jsstring),
        get fd (js "todo") = Some (Text todo) ->
        forallb is_white_space todo = true ->
        settlement (FormActions.formAction currentTodos fd) = Normal currentTodos).
Proof.
  split.
  - intros prevState fd Hblank. split; [|reflexivity].
    apply validation_fails in Hblank.
    unfold ServerActions.submitFormAction; cbn [settlement].
    rewrite Hblank. reflexivity.
  - intros currentTodos fd todo Hget Hws.
    unfold FormActions.formAction; cbn [settlement].
    rewrite Hget; cbn [call_trim]. rewrite (trim_white _ Hws). reflexivity.
Qed.

(** [blank_fields_in_form_actions] on an empty email and on a todo of
    two spaces and a tab. *)
Lemma blank_fields_in_form_actions_witness :
  settlement (ServerActions.submitFormAction Null (form (js "Ann") [] (js "Hello")))
  = Normal fill_in_all_fields
  /\ settlement (FormActions.formAction [js "milk"] (todo_form [32; 32; 9]%N))
     = Normal [js "milk"].
Proof.
  destruct blank_fields_in_form_actions as [Hsubmit Htodo]. split.
  - apply (Hsubmit Null (form (js "Ann") [] (js "Hello"))).
    right; left; right; reflexivity.
  - apply (Htodo [js "milk"] (todo_form [32; 32; 9]%N) [32; 32; 9]%N);
      reflexivity.
Defined.

(** ** The optimistic reducer *)

(** C5.  The reducer keeps the length and the order of the list; at every
    position the id and the text stay, and [completed] becomes the
    optimistic value's flag where the id is the optimistic value's id and
    stays as it was everywhere else. *)
Theorem optimisticReducer_frame (state : list Optimistic.Todo)
    (v : Optimistic.OptimisticValue) :
  List.length (Optimistic.optimisticReducer state v) = List.length state
  /\ Forall2
       (fun before after =>
          Optimistic.id after = Optimistic.id before
          /\ Optimistic.text after = Optimistic.text before
          /\ Optimistic.completed after
             = if Z.eqb (Optimistic.id before) (Optimistic.value_id v)
               then Optimistic.value_completed v
               else Optimistic.completed before)
       state (Optimistic.optimisticReducer state v).
Proof.
  unfold Optimistic.optimisticReducer. split.
  - apply length_map.
  - induction state as [|todo state IH]; cbn [List.map]; constructor.
    + destruct (Z.eqb (Optimistic.id todo) (Optimistic.value_id v));
        repeat split.
    + exact IH.
Qed.

(** ** The shopping cart *)

Section CartFacts.

Import Cart.

Lemma filter_head_find {A} (p : A -> bool) (l : list A) :
  match List.filter p l with
  | x :: _ => Some x
  | [] => None
  end = List.find p l.
Proof.
  induction l as [|a l IH]; simpl.
  - reflexivity.
  - destruct (p a); [reflexivity | exact IH].
Qed.

Lemma not_found_spec (items : list ShoppingCartItem) (item : ShoppingCartItem) :
  not_found items item = true <-> ~ In (id item) (List.map id items).
Proof.
  unfold not_found.
  destruct (List.find (fun i => Z.eqb (id i) (id item)) items) as [i|] eqn:Hf.
  - apply find_some in Hf as [Hin Heq]. apply Z.eqb_eq in Heq.
    split; [discriminate|]. intros Hn. exfalso. apply Hn.
    rewrite <- Heq. now apply in_map.
  - split; [|reflexivity]. intros _ Hin.
    apply in_map_iff in Hin as (i & Heq & Hin).
    pose proof (find_none _ _ Hf i Hin) as Hne. cbn in Hne.
    apply Z.eqb_neq in Hne. contradiction.
Qed.

Lemma not_found_existsb (items : list ShoppingCartItem) (item : ShoppingCartItem) :
  not_found items item
  = negb (existsb (fun i => Z.eqb (id i) (id item)) items).
Proof.
  unfold not_found. induction items as [|i items IH]; simpl.
  - reflexivity.
  - destruct (Z.eqb (id i) (id item)); [reflexivity | exact IH].
Qed.

(** [addItem] in terms of [first_missing]. *)
Lemma addItem_first_missing (items : list ShoppingCartItem) :
  addItem items
  = match first_missing items with
    | Some item => items ++ [item]
    | None => items
    end.
Proof.
  unfold addItem, first_missing.
  rewrite <- (filter_head_find _ availableItems).
  rewrite (filter_ext (not_found items)
             (fun item => negb (existsb (fun i => Z.eqb (id i) (id item)) items))
             (not_found_existsb items)).
  destruct (List.filter _ availableItems); reflexivity.
Qed.

Lemma NoDup_map_filter {A B} (f : A -> B) (p : A -> bool) (l : list A) :
  NoDup (List.map f l) -> NoDup (List.map f (List.filter p l)).
Proof.
  induction l as [|a l IH]; simpl; intros H.
  - constructor.
  - inversion H as [|? ? Hnin Hnd]; subst.
    destruct (p a); simpl; auto.
    constructor; auto.
    intros Hin. apply Hnin.
    apply in_map_iff in Hin as (x & Hx & Hxin).
    apply filter_In in Hxin as [Hxin _].
    rewrite <- Hx. now apply in_map.
Qed.

Lemma cart_ok_initial : cart_ok initial_items.
Proof.
  split.
  - repeat constructor; simpl; intuition discriminate.
  - intros x [<- | [<- | []]]; simpl; auto.
Qed.

Lemma cart_ok_removeItem (id0 : Z) (items : list ShoppingCartItem) :
  cart_ok items -> cart_ok (removeItem id0 items).
Proof.
  intros [Hnd Hincl]. split.
  - now apply NoDup_map_filter.
  - intros x Hx. apply filter_In in Hx as [Hx _]. auto.
Qed.

Lemma cart_ok_addItem (items : list ShoppingCartItem) :
  cart_ok items -> cart_ok (addItem items).
Proof.
  intros [Hnd Hincl]. unfold addItem.
  destruct (List.filter (not_found items) availableItems) as [|first rest] eqn:Hf.
  - now split.
  - assert (Hin : In first (List.filter (not_found items) availableItems))
      by (rewrite Hf; now left).
    apply filter_In in Hin as [Hav Hnew]. apply not_found_spec in Hnew.
    split.
    + rewrite map_app. apply NoDup_app; auto.
      * repeat constructor. simpl. tauto.
      * intros a Ha [<- | []]. contradiction.
    + intros x Hx. apply in_app_or in Hx as [Hx | [<- | []]]; auto.
Qed.

Lemma cart_ok_session (clicks : list click) : cart_ok (session clicks).
Proof.
  unfold session. generalize cart_ok_initial.
  generalize initial_items as items.
  induction clicks as [|c clicks IH]; intros items Hok; simpl.
  - exact Hok.
  - apply IH. destruct c; simpl.
    + now apply cart_ok_addItem.
    + now apply cart_ok_removeItem.
Qed.

Lemma cart_ok_length (items : list ShoppingCartItem) :
  cart_ok items -> (List.length items <= 4)%nat.
Proof.
  intros [Hnd Hincl].
  rewrite <- (length_map id items).
  change 4%nat with (List.length (List.map id availableItems)).
  apply NoDup_incl_length; [exact Hnd|].
  intros x Hx. apply in_map_iff in Hx as (i & <- & Hi).
  apply in_map. auto.
Qed.

(** C8.  Whatever the user clicks, starting from the two-item cart, no two
    items of the cart have the same id and the cart has at most four items.
    [addItem] appends the first available item whose id is not in the cart,
    and nothing else; when the ids of all four available items are in the
    cart it leaves the cart as it is. *)
Theorem cart_ids_stay_distinct (clicks : list click) :
  NoDup (List.map id (session clicks))
  /\ (List.length (session clicks) <= 4)%nat
  /\ (forall items,
        addItem items
        = match first_missing items with
          | Some item => items ++ [item]
          | None => items
          end)
  /\ (forall items,
        (forall item, In item availableItems -> In (id item) (List.map id items)) ->
        addItem items = items).
Proof.
  pose proof (cart_ok_session clicks) as Hok.
  split; [apply Hok|].
  split; [now apply cart_ok_length|].
  split; [apply addItem_first_missing|].
  intros items Hall. unfold addItem.
  destruct (List.filter (not_found items) availableItems) as [|first rest] eqn:Hf.
  - reflexivity.
  - assert (Hin : In first (List.filter (not_found items) availableItems))
      by (rewrite Hf; now left).
    apply filter_In in Hin as [Hav Hnew]. apply not_found_spec in Hnew.
    exfalso. auto.
Qed.

End CartFacts.

(** [cart_ids_stay_distinct] on a session, and its last part on the full
    cart. *)
Lemma cart_ids_stay_distinct_witness :
  NoDup (List.map Cart.id (Cart.session [Cart.Add; Cart.Remove 1; Cart.Add]))
  /\ Cart.addItem (Cart.session [Cart.Add; Cart.Add])
     = Cart.session [Cart.Add; Cart.Add].
Proof.
  destruct (cart_ids_stay_distinct [Cart.Add; Cart.Remove 1; Cart.Add])
    as (Hnd & _ & _ & Hfull).
  split; [exact Hnd|].
  apply Hfull. intros item Hin. simpl in Hin.
  destruct Hin as [<- | [<- | [<- | [<- | []]]]]; simpl; auto.
Defined.

(** ** The [useEffectEvent] polyfill *)

Section PolyfillFacts.

Variables Args Result : Type.

Import EffectEvent.

Lemma last_cons {A} (l : list A) (a d : A) :
  List.last (a :: l) d = List.last l a.
Proof.
  revert a d. induction l as [|b l IH]; intros a d.
  - reflexivity.
  - change (List.last (b :: l) d = List.last (b :: l) a).
    now rewrite !IH.
Qed.

(** Re-renders of a mounted component: the memoized function comes back
    every time, and the ref ends with the last callback. *)
Lemma renders_mounted (callbacks : list (T Args Result))
    (h : hooks Args Result) (g : fn_id) (current : T Args Result) :
  memoized h = Some g ->
  ref_current h = Some current ->
  (g < created h)%nat ->
  let h' := snd (renders callbacks h) in
  fst (renders callbacks h) = List.repeat g (List.length callbacks)
  /\ memoized h' = Some g
  /\ ref_current h' = Some (List.last callbacks current)
  /\ (g < created h')%nat.
Proof.
  revert h current.
  induction callbacks as [|callback rest IH]; intros h current Hm Hr Hlt.
  - simpl. auto.
  - cbn [renders].
    assert (Hstep : render callback h
                    = (g, mkHooks (Some callback) (Some g) (S (created h)))).
    { unfold render, useEffectEvent, useRef, new_arrow, useCallback.
      rewrite Hr. cbn. rewrite Hm. reflexivity. }
    rewrite Hstep.
    specialize (IH (mkHooks (Some callback) (Some g) (S (created h))) callback
                  eq_refl eq_refl (Nat.lt_lt_succ_r _ _ Hlt)).
    destruct (renders rest (mkHooks (Some callback) (Some g) (S (created h))))
      as [gs h2].
    cbn [fst snd] in *. destruct IH as (Hgs & Hm2 & Hr2 & Hlt2).
    rewrite Hgs. cbn [List.length List.repeat].
    repeat split; auto.
    rewrite Hr2. now rewrite last_cons.
Qed.

(** C1.  Through the first render and any number of re-renders, each with
    its own callback, [useEffectEvent] returns one and the same function;
    calling that function with [args] after the last commit calls the
    callback stored last, on [args], and returns its result. *)
Theorem useEffectEvent_stable_trampoline
    (first : T Args Result) (later : list (T Args Result)) (args : Args) :
  let returned := fst (renders (first :: later) (unmounted Args Result)) in
  let h := snd (renders (first :: later) (unmounted Args Result)) in
  let trampoline := List.hd 0%nat returned in
  List.length returned = S (List.length later)
  /\ Forall (fun g => g = trampoline) returned
  /\ ref_current h = Some (List.last later first)
  /\ call h trampoline args = Some (List.last later first args).
Proof.
  cbn [renders].
  assert (Hstep : render first (unmounted Args Result)
                  = (0%nat, mkHooks (Some first) (Some 0%nat) 1)) by reflexivity.
  rewrite Hstep.
  pose proof (@renders_mounted later (mkHooks (Some first) (Some 0%nat) 1)
                0%nat first eq_refl eq_refl Nat.lt_0_1) as H.
  destruct (renders later (mkHooks (Some first) (Some 0%nat) 1)) as [gs h2].
  cbn [fst snd] in *. destruct H as (Hgs & Hm & Hr & Hlt).
  cbn [List.hd List.length]. subst gs.
  split; [now rewrite repeat_length|].
  split.
  - constructor; [reflexivity|].
    apply Forall_forall. intros g Hg. now apply repeat_spec in Hg.
  - split; [exact Hr|].
    unfold call. apply Nat.ltb_lt in Hlt. rewrite Hlt, Hr. reflexivity.
Qed.

End PolyfillFacts.

(** ** The error boundary *)

Section BoundaryFacts.

Variable ReactNode : Type.

Import Boundary.

(** C2.  When a child throws [e], the derived state stores [e] and the next
    render is the fallback applied to [e] and to a reset callback; a state
    whose error is [null] renders the children; the reset callback puts
    [null] back, so the render after it gives the children again.  Besides
    storing the error the boundary only writes one line to the console. *)
Theorem ErrorBoundary_catch_store_render
    (props : Props ReactNode) (st : State) (console : list jsstring) (e : Error) :
  let st' := fst (child_throws e st console) in
  error st' = Some e
  /\ (exists reset : callback,
        render props st' = fallback props e reset
        /\ (forall s, error (reset s) = None)
        /\ (forall s, render props (reset s) = children props))
  /\ (forall s, error s = None -> render props s = children props)
  /\ render props (constructor props) = children props
  /\ snd (child_throws e st console) = componentDidCatch e console
  /\ List.length (componentDidCatch e console) = S (List.length console).
Proof.
  cbn. split; [reflexivity|]. split.
  - exists (setState {| set_error := Some None |}).
    repeat split.
  - split.
    + intros s Hs. unfold render. now rewrite Hs.
    + repeat split. unfold componentDidCatch.
      rewrite length_app. cbn. lia.
Qed.

End BoundaryFacts.

(** ** [withViewTransition] *)

Section ViewTransitionFacts.

Variables App Host : Type.

Import ViewTransition.

(** C9.  On a platform whose [startViewTransition], where there is one,
    calls its callback once, [withViewTransition] runs [updateFn] exactly
    once whatever the document is, and the state of the page afterwards is
    the one that the direct call [updateFn()] gives. *)
Theorem withViewTransition_runs_updateFn_once
    (document : document_t App Host) (updateFn : App -> App)
    (w : world App Host) :
  platform document ->
  let w' := withViewTransition document updateFn w in
  calls w' = S (calls w)
  /\ app w' = updateFn (app w)
  /\ calls w' = calls (invoke updateFn w)
  /\ app w' = app (invoke updateFn w).
Proof.
  intros Hp.
  destruct document as [|[| |f]]; cbn; auto.
  destruct Hp as (before & after & Hf). rewrite Hf. cbn. auto.
Qed.

End ViewTransitionFacts.

(** [ErrorBoundary_catch_store_render] on a boundary whose nodes are
    strings. *)
Lemma ErrorBoundary_catch_store_render_witness :
  let props := Boundary.mkProps (js "children") (fun e _ => err_message e) in
  Boundary.error (Boundary.constructor props) = None
  /\ Boundary.render props (Boundary.constructor props) = js "children".
Proof.
  split; [reflexivity|].
  destruct (ErrorBoundary_catch_store_render
              (Boundary.mkProps (js "children") (fun e _ => err_message e))
              (Boundary.mkState None) [] (new_Error "boom"))
    as (_ & _ & Hnull & _).
  apply (Hnull (Boundary.mkState None)). reflexivity.
Defined.

(** [withViewTransition_runs_updateFn_once] in a browser that counts its
    transitions. *)
Lemma withViewTransition_runs_updateFn_once_witness :
  ViewTransition.platform counting_browser
  /\ ViewTransition.calls
       (ViewTransition.withViewTransition counting_browser (Nat.add 5)
          (ViewTransition.mkWorld 1%nat 0%nat 0%nat)) = 1%nat.
Proof.
  assert (Hp : ViewTransition.platform counting_browser).
  { exists S, S. reflexivity. }
  split; [exact Hp|].
  destruct (withViewTransition_runs_updateFn_once counting_browser (Nat.add 5)
              (ViewTransition.mkWorld 1%nat 0%nat 0%nat) Hp) as (H & _).
  exact H.
Defined.

(** ** The event loop *)

Lemma iter_fixed {A} (f : A -> A) (a : A) (n : nat) :
  f a = a -> Nat.iter n f a = a.
Proof.
  intros H. induction n as [|n IH]; simpl; [reflexivity | now rewrite IH].
Qed.

Lemma iter_shift {A} (f : A -> A) (a : A) (n : nat) :
  Nat.iter (S n) f a = Nat.iter n f (f a).
Proof.
  induction n as [|n IH]; [reflexivity|].
  change (f (Nat.iter (S n) f a) = f (Nat.iter n f (f a))). now rewrite IH.
Qed.

Section RuntimeFacts.

Variables V St Timeout Reaction : Type.
Variable run_timeout : Timeout -> Z -> St -> St.
Variable run_reaction : Reaction -> V -> Z -> St -> St.

Import Runtime.

Lemma exec_bind {A B} (m : M V St Timeout Reaction A)
    (f : A -> M V St Timeout Reaction B) (w : world V St Timeout Reaction) :
  exec (bind m f) w = exec (f (fst (m w))) (exec m w).
Proof.
  unfold exec, bind. destruct (m w); reflexivity.
Qed.

Lemma exec_task {A} (m : M V St Timeout Reaction A) (w : world V St Timeout Reaction) :
  exec (task run_reaction m) w = exec (drain run_reaction) (exec m w).
Proof.
  unfold task. rewrite exec_bind. unfold exec, bind, ret.
  destruct (drain run_reaction (snd (m w))); reflexivity.
Qed.

Lemma settle_frame (p : nat) (o : completion V) (w : world V St Timeout Reaction) :
  let w' := exec (settle p o) w in
  now w' = now w /\ timers w' = timers w /\ next_timer w' = next_timer w
  /\ page w' = page w.
Proof.
  unfold exec, settle.
  destruct (nth_error (promises w) p) as [[[| |] ?]|]; cbn; auto.
Qed.

Lemma earliest_In (ts : list (timer V Timeout)) (t : timer V Timeout) :
  earliest ts = Some t -> In t ts.
Proof.
  revert t. induction ts as [|t0 ts IH]; simpl; intros t H.
  - discriminate.
  - destruct (earliest ts) as [t'|].
    + destruct (Z.ltb (due t') (due t0)); injection H as <-; auto.
    + injection H as <-; auto.
Qed.

(** The timer that fires next is due no later than any other. *)
Lemma earliest_least (ts : list (timer V Timeout)) (t : timer V Timeout) :
  earliest ts = Some t -> forall t', In t' ts -> due t <= due t'.
Proof.
  revert t. induction ts as [|t0 ts IH]; simpl; intros t H t' Hin.
  - contradiction.
  - destruct (earliest ts) as [t1|] eqn:He.
    + specialize (IH t1 eq_refl).
      destruct (Z.ltb_spec (due t1) (due t0)); injection H as <-;
        destruct Hin as [<- | Hin]; try lia.
      * now apply IH.
      * specialize (IH t' Hin). lia.
    + injection H as <-. destruct Hin as [<- | Hin]; [lia|].
      destruct ts; [contradiction|]. simpl in He.
      destruct (earliest ts); [destruct (Z.ltb _ _)|]; discriminate.
Qed.

Lemma drive_now (p : nat) (k : async V) (w : world V St Timeout Reaction) :
  now (exec (drive p k) w) = now w.
Proof.
  destruct k as [v|e|ms k]; cbn [drive].
  - apply settle_frame.
  - apply settle_frame.
  - reflexivity.
Qed.

(** Firing a timer puts the clock at its due time, unless it is past it. *)
Lemma fire_now (t : timer V Timeout) (w : world V St Timeout Reaction) :
  now (fire run_timeout run_reaction t w) = Z.max (now w) (due t).
Proof.
  unfold fire. rewrite exec_task.
  change (now (exec (drain run_reaction) ?x)) with (now x).
  destruct (action t) as [p v|p e|p k|h]; cbn [run_callback].
  - now rewrite (proj1 (settle_frame _ _ _)).
  - now rewrite (proj1 (settle_frame _ _ _)).
  - now rewrite drive_now.
  - reflexivity.
Qed.

(** Every task ends with the microtask queue empty. *)
Lemma fire_microtasks (t : timer V Timeout) (w : world V St Timeout Reaction) :
  microtasks (fire run_timeout run_reaction t w) = [].
Proof.
  unfold fire. rewrite exec_task. reflexivity.
Qed.

Lemma turn_microtasks (target : Z) (w : world V St Timeout Reaction) :
  microtasks w = [] -> microtasks (turn run_timeout run_reaction target w) = [].
Proof.
  intros Hw. unfold turn.
  destruct (earliest (timers w)) as [t|]; [|exact Hw].
  destruct (Z.leb (due t) target); [apply fire_microtasks | exact Hw].
Qed.

Lemma turn_now (target : Z) (w : world V St Timeout Reaction) :
  now w <= target ->
  now w <= now (turn run_timeout run_reaction target w) <= target.
Proof.
  intros Hw. unfold turn.
  destruct (earliest (timers w)) as [t|]; [|lia].
  destruct (Z.leb_spec (due t) target); [rewrite fire_now|]; lia.
Qed.

Lemma advance_to_microtasks (target : Z) (w : world V St Timeout Reaction) :
  microtasks w = [] ->
  microtasks (advance_to run_timeout run_reaction target w) = [].
Proof.
  intros Hw. unfold advance_to. cbn [microtasks].
  induction (work w) as [|n IH]; simpl; [exact Hw | now apply turn_microtasks].
Qed.

(** Advancing the clock to a time not in the past ends at that time. *)
Lemma advance_to_now (target : Z) (w : world V St Timeout Reaction) :
  now w <= target ->
  now (advance_to run_timeout run_reaction target w) = target.
Proof.
  intros Hw. unfold advance_to. cbn [now].
  assert (H : now w <= now (Nat.iter (work w)
                              (turn run_timeout run_reaction target) w) <= target).
  { induction (work w) as [|n IH]; simpl; [lia|].
    pose proof (@turn_now target
                  (Nat.iter n (turn run_timeout run_reaction target) w)) as Ht.
    lia. }
  lia.
Qed.

(** *** The loop has fuel enough

    [advance_to] takes [work w] turns.  That is enough: afterwards no timer
    due by the target time is left. *)

Lemma earliest_None (ts : list (timer V Timeout)) :
  earliest ts = None -> ts = [].
Proof.
  destruct ts as [|t ts]; [reflexivity|]. simpl.
  destruct (earliest ts); [destruct (Z.ltb _ _)|]; discriminate.
Qed.

Lemma weight_pos (t : timer V Timeout) : (1 <= weight t)%nat.
Proof.
  unfold weight. destruct (action t); lia.
Qed.

Lemma weigh_app (ts ts' : list (timer V Timeout)) :
  weigh (ts ++ ts') = (weigh ts + weigh ts')%nat.
Proof.
  induction ts as [|t ts IH]; simpl; [reflexivity | rewrite IH; lia].
Qed.

Lemma weigh_filter_le (f : timer V Timeout -> bool) (ts : list (timer V Timeout)) :
  (weigh (List.filter f ts) <= weigh ts)%nat.
Proof.
  induction ts as [|t ts IH]; simpl; [lia|].
  destruct (f t); simpl; lia.
Qed.

Lemma weigh_without (t : timer V Timeout) (ts : list (timer V Timeout)) :
  In t ts ->
  (weigh (List.filter (fun t' => negb (Nat.eqb (tid t') (tid t))) ts) + weight t
   <= weigh ts)%nat.
Proof.
  induction ts as [|t0 ts IH]; simpl; [contradiction|].
  intros [-> | Hin].
  - rewrite Nat.eqb_refl. simpl.
    pose proof (weigh_filter_le
                  (fun t' => negb (Nat.eqb (tid t') (tid t))) ts). lia.
  - specialize (IH Hin).
    destruct (negb (Nat.eqb (tid t0) (tid t))); simpl; lia.
Qed.

Lemma work_fire (t : timer V Timeout) (w : world V St Timeout Reaction) :
  In t (timers w) ->
  (work (fire run_timeout run_reaction t w) < work w)%nat.
Proof.
  intros Hin. pose proof (weigh_without t (timers w) Hin) as Hle.
  pose proof (weight_pos t) as Hpos.
  unfold work, fire. rewrite exec_task.
  change (timers (exec (drain run_reaction) ?x)) with (timers x).
  unfold weight in Hle, Hpos.
  destruct (action t) as [p v|p e|p k|h]; cbn [run_callback].
  - rewrite (proj1 (proj2 (settle_frame _ _ _))). cbn [timers]. lia.
  - rewrite (proj1 (proj2 (settle_frame _ _ _))). cbn [timers]. lia.
  - destruct k as [v|e|ms k]; cbn [drive].
    + rewrite (proj1 (proj2 (settle_frame _ _ _))). cbn [timers]. lia.
    + rewrite (proj1 (proj2 (settle_frame _ _ _))). cbn [timers]. lia.
    + cbn [exec bind setTimeout ret snd timers next_timer now].
      rewrite weigh_app. cbn [weigh List.fold_right weight action delays
                               List.length] in *. lia.
  - cbn [exec update snd timers]. lia.
Qed.

Lemma turn_idle_or_less (target : Z) (w : world V St Timeout Reaction) :
  (turn run_timeout run_reaction target w = w
   /\ forall t, In t (timers w) -> target < due t)
  \/ (work (turn run_timeout run_reaction target w) < work w)%nat.
Proof.
  unfold turn. destruct (earliest (timers w)) as [t|] eqn:He.
  - destruct (Z.leb_spec (due t) target) as [Hle | Hlt].
    + right. apply work_fire. now apply earliest_In.
    + left. split; [reflexivity|]. intros t' Hin.
      pose proof (earliest_least _ He t' Hin). lia.
  - left. split; [reflexivity|].
    rewrite (earliest_None _ He). contradiction.
Qed.

Lemma iter_turn_complete (target : Z) (n : nat) (w : world V St Timeout Reaction) :
  (work w <= n)%nat ->
  forall t, In t (timers (Nat.iter n (turn run_timeout run_reaction target) w)) ->
            target < due t.
Proof.
  revert w. induction n as [|n IH]; intros w Hn t Hin.
  - simpl in Hin. unfold work in Hn.
    destruct (timers w) as [|t0 ts]; [contradiction|].
    simpl in Hn. pose proof (weight_pos t0). lia.
  - rewrite iter_shift in Hin.
    destruct (turn_idle_or_less target w) as [[Hid Hall] | Hless].
    + rewrite Hid, iter_fixed in Hin by exact Hid. auto.
    + apply (IH (turn run_timeout run_reaction target w)); [lia | exact Hin].
Qed.

(** After [advance_to], every timer still active is due later. *)
Lemma advance_to_complete (target : Z) (w : world V St Timeout Reaction) :
  forall t, In t (timers (advance_to run_timeout run_reaction target w)) ->
            target < due t.
Proof.
  intros t Hin. unfold advance_to in Hin. cbn [timers] in Hin.
  now apply (@iter_turn_complete target (work w) w (Nat.le_refl _)).
Qed.

(** *** An invariant principle for the loop

    [I] speaks of the clock and the page, [Q] of a timer and the page.  If
    the page's closures keep them, firing timers and advancing the clock
    keep them for the whole world. *)
Section Invariant.

Variable I : Z -> St -> Prop.
Variable Q : timer V Timeout -> St -> Prop.

Hypothesis I_later : forall n n' pg, I n pg -> n <= n' -> I n' pg.
Hypothesis I_reaction : forall r v n pg, I n pg -> I n (run_reaction r v n pg).
Hypothesis Q_reaction : forall t r v n pg, Q t pg -> Q t (run_reaction r v n pg).
Hypothesis I_timeout : forall t h n pg,
  action t = Page h -> Q t pg -> I n pg -> due t <= n -> I n (run_timeout h n pg).
Hypothesis Q_timeout : forall t h n pg, Q t pg -> Q t (run_timeout h n pg).
Hypothesis Q_resume : forall id d p k pg, Q (mkTimer id d (Resume p k)) pg.

Lemma reactions_keep (n : Z) (jobs : list (Reaction * V)) (pg : St)
    (ts : list (timer V Timeout)) :
  I n pg -> Forall (fun t => Q t pg) ts ->
  let pg' := List.fold_left
               (fun st job => run_reaction (fst job) (snd job) n st) jobs pg in
  I n pg' /\ Forall (fun t => Q t pg') ts.
Proof.
  revert pg. induction jobs as [|[r v] jobs IH]; intros pg HI HQ; simpl.
  - auto.
  - apply IH; [now apply I_reaction|].
    eapply Forall_impl; [|exact HQ]. intros t. apply Q_reaction.
Qed.

Lemma drain_keeps (w : world V St Timeout Reaction) :
  holds I Q w -> holds I Q (exec (drain run_reaction) w).
Proof.
  intros [HI HQ]. unfold holds, exec, drain; cbn.
  now apply reactions_keep.
Qed.

Lemma settle_keeps (p : nat) (o : completion V) (w : world V St Timeout Reaction) :
  holds I Q w -> holds I Q (exec (settle p o) w).
Proof.
  intros [HI HQ]. unfold holds.
  destruct (settle_frame p o w) as (-> & -> & _ & ->). auto.
Qed.

Lemma drive_keeps (p : nat) (k : async V) (w : world V St Timeout Reaction) :
  holds I Q w -> holds I Q (exec (drive p k) w).
Proof.
  intros Hw. destruct k as [v|e|ms k]; cbn [drive].
  - now apply settle_keeps.
  - now apply settle_keeps.
  - destruct Hw as [HI HQ]. unfold holds, exec, bind, setTimeout, ret; cbn.
    split; [exact HI|]. apply Forall_app. split; [exact HQ|].
    constructor; [apply Q_resume | constructor].
Qed.

Lemma fire_keeps (t : timer V Timeout) (w : world V St Timeout Reaction) :
  holds I Q w -> In t (timers w) -> holds I Q (fire run_timeout run_reaction t w).
Proof.
  intros [HI HQ] Hin. unfold fire. rewrite exec_task.
  apply drain_keeps.
  assert (Ht : Q t (page w)) by (rewrite Forall_forall in HQ; auto).
  set (w1 := mkWorld _ _ _ _ _ _ _).
  assert (H1 : holds I Q w1).
  { split; cbn.
    - eapply I_later; [exact HI | lia].
    - rewrite Forall_forall in *. intros t' Ht'.
      apply filter_In in Ht' as [Ht' _]. auto. }
  destruct (action t) as [p v|p e|p k|h] eqn:Ha; cbn [run_callback].
  - now apply settle_keeps.
  - now apply settle_keeps.
  - now apply drive_keeps.
  - destruct H1 as [HI1 HQ1]. unfold holds, exec, update; cbn in *.
    split.
    + eapply I_timeout; eauto. lia.
    + eapply Forall_impl; [|exact HQ1]. intros t'. apply Q_timeout.
Qed.

Lemma turn_keeps (target : Z) (w : world V St Timeout Reaction) :
  holds I Q w -> holds I Q (turn run_timeout run_reaction target w).
Proof.
  intros Hw. unfold turn.
  destruct (earliest (timers w)) as [t|] eqn:He; [|exact Hw].
  destruct (Z.leb (due t) target); [|exact Hw].
  apply fire_keeps; [exact Hw | now apply earliest_In].
Qed.

Lemma advance_to_keeps (target : Z) (w : world V St Timeout Reaction) :
  holds I Q w -> holds I Q (advance_to run_timeout run_reaction target w).
Proof.
  intros Hw. unfold advance_to.
  assert (H : holds I Q (Nat.iter (work w) (turn run_timeout run_reaction target) w)).
  { induction (work w) as [|n IH]; simpl; [exact Hw | now apply turn_keeps]. }
  destruct H as [HI HQ]. split; cbn; [|exact HQ].
  eapply I_later; [exact HI | lia].
Qed.

End Invariant.

(** *** What firing one timer does *)

Lemma fire_timers (t : timer V Timeout) (w : world V St Timeout Reaction) :
  (forall p k, action t <> Resume p k) ->
  timers (fire run_timeout run_reaction t w)
  = List.filter (fun t' => negb (Nat.eqb (tid t') (tid t))) (timers w)
  /\ next_timer (fire run_timeout run_reaction t w) = next_timer w.
Proof.
  intros Hnr. unfold fire. rewrite exec_task.
  change (timers (exec (drain run_reaction) ?x)) with (timers x).
  change (next_timer (exec (drain run_reaction) ?x)) with (next_timer x).
  destruct (action t) as [p v|p e|p k|h]; cbn [run_callback].
  - destruct (settle_frame p (Normal v)
                (mkWorld (Z.max (now w) (due t))
                   (List.filter (fun t' => negb (Nat.eqb (tid t') (tid t))) (timers w))
                   (next_timer w) (promises w) (settle_calls w) (microtasks w)
                   (page w))) as (_ & -> & -> & _).
    split; reflexivity.
  - destruct (settle_frame p (Throw e)
                (mkWorld (Z.max (now w) (due t))
                   (List.filter (fun t' => negb (Nat.eqb (tid t') (tid t))) (timers w))
                   (next_timer w) (promises w) (settle_calls w) (microtasks w)
                   (page w))) as (_ & -> & -> & _).
    split; reflexivity.
  - exfalso. exact (Hnr p k eq_refl).
  - split; reflexivity.
Qed.

Lemma fire_page (t : timer V Timeout) (h : Timeout)
    (w : world V St Timeout Reaction) :
  action t = Page h -> microtasks w = [] ->
  page (fire run_timeout run_reaction t w)
  = run_timeout h (Z.max (now w) (due t)) (page w).
Proof.
  intros Ha Hm. unfold fire. rewrite exec_task, Ha. cbn [run_callback].
  unfold exec, drain, update. cbn. rewrite Hm. reflexivity.
Qed.

(** A property of the page that all its closures keep is kept by firing. *)
Lemma fire_page_keeps (P : St -> Prop) (t : timer V Timeout)
    (w : world V St Timeout Reaction) :
  (forall r v n pg, P pg -> P (run_reaction r v n pg)) ->
  (forall h n pg, P pg -> P (run_timeout h n pg)) ->
  In t (timers w) -> P (page w) -> P (page (fire run_timeout run_reaction t w)).
Proof.
  intros Hr Ht Hin HP.
  assert (H : holds (fun _ pg => P pg) (fun _ _ => True)
                (fire run_timeout run_reaction t w)).
  { apply fire_keeps; auto.
    split; [exact HP|]. apply Forall_forall. auto. }
  exact (proj1 H).
Qed.

End RuntimeFacts.

(** ** The simulated operations *)

Section FixedDelay.

Variables V St Timeout Reaction : Type.
Variable run_timeout : Timeout -> Z -> St -> St.
Variable run_reaction : Reaction -> V -> Z -> St -> St.

Import Runtime.

(** [new Promise((resolve) => setTimeout(() => resolve(v), d))] *)
Lemma timer_promise_resolves (v : V) (d : Z) :
  0 <= d ->
  resolves_once_after run_timeout run_reaction
    (new_Promise (fun resolve _ =>
       bind (setTimeout (resolve v) d) (fun _ => ret tt)))
    d v.
Proof.
  intros Hd t0 st. cbn. rewrite (Z.max_r 0 d Hd).
  split; [reflexivity|]. split; [reflexivity|].
  intros ms. unfold wait, advance_to, turn. cbn.
  destruct (Z.leb_spec (t0 + d) (t0 + Z.of_N ms)) as [Hle | Hlt].
  - split; [intros; lia|]. intros _. cbn. repeat split.
  - split; [|intros; lia]. intros _. cbn. repeat split.
Qed.

(** [async () => { await new Promise((resolve) => setTimeout(resolve, d)); return v }] *)
Lemma async_timer_resolves (v : V) (d : Z) :
  0 <= d ->
  resolves_once_after run_timeout run_reaction
    (call_async (Await_timeout d (Return v))) d v.
Proof.
  intros Hd t0 st. cbn. rewrite (Z.max_r 0 d Hd).
  split; [reflexivity|]. split; [reflexivity|].
  intros ms. unfold wait, advance_to, turn. cbn.
  destruct (Z.leb_spec (t0 + d) (t0 + Z.of_N ms)) as [Hle | Hlt].
  - split; [intros; lia|]. intros _. cbn. repeat split.
  - split; [|intros; lia]. intros _. cbn. repeat split.
Qed.

End FixedDelay.

(** C6 as stated fails: the simulated call of the error-handling demo is a
    simulated asynchronous operation of the repository too, and with
    [shouldError] set its promise is rejected when the timer fires. *)
Lemma simulated_call_rejects :
  let w := Runtime.wait ErrorDemo.no_timeout ErrorDemo.no_reaction 1000
             (Runtime.exec (ErrorDemo.fetchData_promise true) (Runtime.idle 0 tt)) in
  Runtime.state_of w 0
  = Some (Runtime.Rejected (new_Error "Failed to fetch data from server"))
  /\ Runtime.settle_calls w
     = [(0%nat, Throw (new_Error "Failed to fetch data from server"))].
Proof.
  split; reflexivity.
Qed.

(** C6, as it holds.  Each of the five operations named ([fetchData] of
    the use() demo, [fetchUserProfile], [fetchPosts], [fetchComments],
    [updateTodoOnServer]) is one timer of a fixed delay (1000, 1000, 2000,
    3000 and 2000 ms) whose firing resolves the promise: the promise is
    settled by one call of its resolve function, is never rejected, is
    fulfilled with a value that only the arguments determine, and no timer
    is set again afterwards. *)
Theorem simulated_operations_resolve_once :
  (forall id : Z,
      resolves_once_after UseDemo.no_timeout UseDemo.no_reaction
        (UseDemo.fetchData id) 1000 (UseDemo.post_of id))
  /\ resolves_once_after Suspense.run_timeout Suspense.run_reaction
       Suspense.fetchUserProfile 1000 (Suspense.User user_profile)
  /\ resolves_once_after Suspense.run_timeout Suspense.run_reaction
       Suspense.fetchPosts 2000 (Suspense.Posts two_posts)
  /\ resolves_once_after Suspense.run_timeout Suspense.run_reaction
       Suspense.fetchComments 3000 (Suspense.Comments three_comments)
  /\ (forall id : Z,
        resolves_once_after OptimisticRun.no_timeout OptimisticRun.no_reaction
          (OptimisticRun.updateTodoOnServer id) 2000 tt).
Proof.
  split; [intros id; apply timer_promise_resolves; lia|].
  split; [apply timer_promise_resolves; lia|].
  split; [apply timer_promise_resolves; lia|].
  split; [apply timer_promise_resolves; lia|].
  intros id. apply async_timer_resolves. lia.
Qed.

(** ** The two timelines *)

Section TimelineFacts.

Import Runtime Suspense.

Lemma nth_error_last {A} (l : list A) (x : A) (l' : list A) :
  nth_error (l ++ x :: l') (List.length l) = Some x.
Proof.
  induction l; simpl; auto.
Qed.

Lemma replace_nth_last {A} (l : list A) (x y : A) (l' : list A) :
  replace_nth (List.length l) y (l ++ x :: l') = l ++ y :: l'.
Proof.
  induction l as [|a l IH]; simpl; [reflexivity | now rewrite IH].
Qed.

(** [then] on a pending promise only adds the handler to it. *)
Lemma then_pending (l l' : list (promise Value Reaction)) (rs : list Reaction)
    (p : nat) (r : Reaction) (n : Z) (ts : list (timer Value Timeout))
    (nt : nat) (cs : list (nat * completion Value))
    (ms : list (Reaction * Value)) (pg : Page) :
  p = List.length l ->
  then_ p r (mkWorld n ts nt (l ++ mkPromise Pending rs :: l') cs ms pg)
  = (tt, mkWorld n ts nt (l ++ mkPromise Pending (rs ++ [r]) :: l') cs ms pg).
Proof.
  intros ->. unfold then_. cbn [promises].
  rewrite nth_error_last. cbn. now rewrite replace_nth_last.
Qed.

Opaque js.

Ltac run_effect :=
  cbv [exec bind update Date_now setTimeout new_Promise ret snd fst read
       clearTimeout
       now timers next_timer promises settle_calls microtasks page].

(** One run of the effect of [React18Simulation]. *)
Lemma effect18_exec (w : world) :
  exec effect18 w
  = mkWorld (now w)
      (timers w ++ timers18 (next_timer w) (List.length (promises w)) (now w))
      (4 + next_timer w)
      (promises w ++ [ mkPromise Pending [UserLoaded18];
                       mkPromise Pending [PostsLoaded18];
                       mkPromise Pending [CommentsLoaded18] ])
      (settle_calls w) (microtasks w)
      (mkPage (R18.mkState false None None None (fetch_starts18 (now w)) (now w)
                 (Some (next_timer w)))
              (react19 (page w))).
Proof.
  destruct w as [n ts nt ps cs ms [r18 r19]].
  unfold effect18, fetchUserProfile, fetchPosts, fetchComments.
  run_effect.
  rewrite (then_pending ps [] [] UserLoaded18 _ _ _ _ _ _ eq_refl).
  run_effect.
  rewrite (then_pending _ [] [] PostsLoaded18 _ _ _ _ _ _ eq_refl).
  run_effect.
  rewrite (then_pending _ [] [] CommentsLoaded18 _ _ _ _ _ _ eq_refl).
  run_effect.
  rewrite <- !app_assoc. rewrite !length_app. cbn [List.length List.app].
  rewrite !Nat.add_1_r, (Nat.add_comm _ 2).
  reflexivity.
Qed.

(** The same for a promise further on in the list. *)
Lemma then_pending_after (l mid l' : list (promise Value Reaction))
    (rs : list Reaction) (p : nat) (r : Reaction) (n : Z)
    (ts : list (timer Value Timeout)) (nt : nat)
    (cs : list (nat * completion Value)) (ms : list (Reaction * Value))
    (pg : Page) :
  p = List.length (l ++ mid) ->
  then_ p r (mkWorld n ts nt (l ++ mid ++ mkPromise Pending rs :: l') cs ms pg)
  = (tt, mkWorld n ts nt (l ++ mid ++ mkPromise Pending (rs ++ [r]) :: l') cs ms pg).
Proof.
  intros Hp. rewrite !app_assoc. now apply then_pending.
Qed.

Lemma then_pending_2 (l l' : list (promise Value Reaction))
    (a : promise Value Reaction)
    (rs : list Reaction) (p : nat) (r : Reaction) (n : Z)
    (ts : list (timer Value Timeout)) (nt : nat)
    (cs : list (nat * completion Value)) (ms : list (Reaction * Value))
    (pg : Page) :
  p = (List.length l + 1)%nat ->
  then_ p r (mkWorld n ts nt (l ++ a :: mkPromise Pending rs :: l') cs ms pg)
  = (tt, mkWorld n ts nt (l ++ a :: mkPromise Pending (rs ++ [r]) :: l') cs ms pg).
Proof.
  intros Hp. apply (then_pending_after l [a]).
  now rewrite length_app.
Qed.

Lemma then_pending_3 (l l' : list (promise Value Reaction))
    (a b : promise Value Reaction)
    (rs : list Reaction) (p : nat) (r : Reaction) (n : Z)
    (ts : list (timer Value Timeout)) (nt : nat)
    (cs : list (nat * completion Value)) (ms : list (Reaction * Value))
    (pg : Page) :
  p = (List.length l + 2)%nat ->
  then_ p r (mkWorld n ts nt (l ++ a :: b :: mkPromise Pending rs :: l') cs ms pg)
  = (tt, mkWorld n ts nt (l ++ a :: b :: mkPromise Pending (rs ++ [r]) :: l') cs ms pg).
Proof.
  intros Hp. apply (then_pending_after l [a; b]).
  now rewrite length_app.
Qed.

(** One run of the effect of [React19Demo]. *)
Lemma effect19_exec (w : world) :
  exec effect19 w
  = mkWorld (now w)
      (timers w ++ timers19 (next_timer w) (List.length (promises w)) (now w))
      (4 + next_timer w)
      (promises w ++ [ mkPromise Pending [UserLoaded19];
                       mkPromise Pending [PostsLoaded19];
                       mkPromise Pending [CommentsLoaded19] ])
      (settle_calls w) (microtasks w)
      (mkPage (react18 (page w))
              (R19.mkState (Some (List.length (promises w)))
                 (Some (S (List.length (promises w))))
                 (Some (S (S (List.length (promises w)))))
                 (fetch_starts19 (now w)) (now w))).
Proof.
  destruct w as [n ts nt ps cs ms [r18 r19]].
  unfold effect19, fetchUserProfile, fetchPosts, fetchComments.
  run_effect.
  rewrite <- !app_assoc. cbn [List.app].
  rewrite (then_pending ps _ [] UserLoaded19 _ _ _ _ _ _ eq_refl).
  run_effect.
  rewrite (then_pending_2 ps [_] _ [] PostsLoaded19 _ _ _ _ _ _);
    [|rewrite !length_app; reflexivity].
  run_effect.
  rewrite (then_pending_3 ps [] _ _ [] CommentsLoaded19 _ _ _ _ _ _);
    [|rewrite !length_app; reflexivity].
  run_effect.
  rewrite !length_app. cbn [List.length List.app].
  rewrite !Nat.add_1_r, (Nat.add_comm _ 2).
  reflexivity.
Qed.

Lemma cleanup18_exec (w : world) :
  exec cleanup18 w
  = match R18.cleanup (react18 (page w)) with
    | Some id =>
        mkWorld (now w)
          (List.filter (fun t => negb (Nat.eqb (tid t) id)) (timers w))
          (next_timer w) (promises w) (settle_calls w) (microtasks w) (page w)
    | None => w
    end.
Proof.
  unfold cleanup18, exec, bind, read.
  destruct (R18.cleanup (react18 (page w))); reflexivity.
Qed.

(** The Reset button, on a world whose microtask queue is empty. *)
Lemma reset_exec (w : world) :
  microtasks w = [] ->
  let kept := match R18.cleanup (react18 (page w)) with
              | Some id => List.filter (fun t => negb (Nat.eqb (tid t) id)) (timers w)
              | None => timers w
              end in
  reset w
  = mkWorld (now w)
      (kept ++ timers18 (next_timer w) (List.length (promises w)) (now w)
            ++ timers19 (4 + next_timer w) (3 + List.length (promises w)) (now w))
      (8 + next_timer w)
      (promises w ++ [ mkPromise Pending [UserLoaded18];
                       mkPromise Pending [PostsLoaded18];
                       mkPromise Pending [CommentsLoaded18];
                       mkPromise Pending [UserLoaded19];
                       mkPromise Pending [PostsLoaded19];
                       mkPromise Pending [CommentsLoaded19] ])
      (settle_calls w) []
      (mkPage (R18.mkState false None None None (fetch_starts18 (now w)) (now w)
                 (Some (next_timer w)))
              (R19.mkState (Some (3 + List.length (promises w)))%nat
                 (Some (4 + List.length (promises w)))%nat
                 (Some (5 + List.length (promises w)))%nat
                 (fetch_starts19 (now w)) (now w))).
Proof.
  intros Hm kept. unfold reset.
  rewrite exec_task, !exec_bind, cleanup18_exec, effect18_exec, effect19_exec.
  subst kept.
  destruct w as [n ts nt ps cs ms [r18 r19]].
  cbn [microtasks] in Hm. subst ms.
  cbn [page react18 R18.cleanup].
  destruct (R18.cleanup r18) as [id|];
    cbv [exec drain snd now timers next_timer promises settle_calls
         microtasks page react18 react19];
    cbn [List.fold_left];
    rewrite !length_app, <- !app_assoc; cbn [List.length List.app];
    rewrite (Nat.add_comm _ 3);
    reflexivity.
Qed.

(** The page right after it is mounted at [t0]. *)
Lemma mount_exec (t0 : Z) :
  mount t0
  = mkWorld t0 (timers18 0 0 t0 ++ timers19 4 3 t0) 8
      [ mkPromise Pending [UserLoaded18];
        mkPromise Pending [PostsLoaded18];
        mkPromise Pending [CommentsLoaded18];
        mkPromise Pending [UserLoaded19];
        mkPromise Pending [PostsLoaded19];
        mkPromise Pending [CommentsLoaded19] ]
      [] []
      (mkPage (R18.mkState false None None None (fetch_starts18 t0) t0 (Some 0%nat))
              (R19.mkState (Some 3%nat) (Some 4%nat) (Some 5%nat)
                 (fetch_starts19 t0) t0)).
Proof.
  unfold mount.
  rewrite exec_task, !exec_bind, effect18_exec, effect19_exec.
  reflexivity.
Qed.

Transparent js.

(** The closures of the page keep the two properties. *)
Lemma fallback_delayed_later (n n' : Z) (pg : Page) :
  fallback_delayed n pg -> n <= n' -> fallback_delayed n' pg.
Proof.
  intros H Hle ev Hin Hty. specialize (H ev Hin Hty). lia.
Qed.

Lemma reaction_keeps_18 (r : Reaction) (v : Value) (n : Z) (pg : Page) :
  R18.startTimeRef (react18 (run_reaction r v n pg)) = R18.startTimeRef (react18 pg)
  /\ R18.cleanup (react18 (run_reaction r v n pg)) = R18.cleanup (react18 pg)
  /\ (R18.events (react18 (run_reaction r v n pg)) = R18.events (react18 pg)
      \/ exists ev, type ev = fetch_end
           /\ R18.events (react18 (run_reaction r v n pg))
              = R18.events (react18 pg) ++ [ev]).
Proof.
  destruct r; cbn; repeat split; auto; right; eexists; split;
    try reflexivity; reflexivity.
Qed.

Lemma fallback_delayed_reaction (r : Reaction) (v : Value) (n : Z) (pg : Page) :
  fallback_delayed n pg -> fallback_delayed n (run_reaction r v n pg).
Proof.
  intros H ev Hin Hty.
  destruct (reaction_keeps_18 r v n pg) as (Hs & _ & [He | (ev' & Hty' & He)]);
    rewrite Hs; rewrite He in Hin.
  - auto.
  - apply in_app_or in Hin as [Hin | [<- | []]]; [auto | congruence].
Qed.

Lemma fallback_timer_reaction (t : timer Value Timeout) (r : Reaction)
    (v : Value) (n : Z) (pg : Page) :
  fallback_timer_current t pg -> fallback_timer_current t (run_reaction r v n pg).
Proof.
  intros H Ha. destruct (reaction_keeps_18 r v n pg) as (-> & -> & _). auto.
Qed.

Lemma fallback_delayed_timeout (t : timer Value Timeout) (h : Timeout)
    (n : Z) (pg : Page) :
  action t = Runtime.Page h -> fallback_timer_current t pg ->
  fallback_delayed n pg -> due t <= n ->
  fallback_delayed n (run_timeout h n pg).
Proof.
  intros Ha Ht H Hdue. destruct h; cbn.
  - intros ev Hin Hty. cbn in Hin.
    apply in_app_or in Hin as [Hin | [<- | []]]; [auto|].
    cbn. destruct (Ht Ha) as [Hs _]. lia.
  - exact H.
Qed.

Lemma fallback_timer_timeout (t : timer Value Timeout) (h : Timeout)
    (n : Z) (pg : Page) :
  fallback_timer_current t pg -> fallback_timer_current t (run_timeout h n pg).
Proof.
  intros H Ha. destruct h; cbn; auto.
Qed.

Lemma fallback_timer_resume (id : nat) (d : Z) (p : nat) (k : async Value)
    (pg : Page) :
  fallback_timer_current (mkTimer id d (Resume p k)) pg.
Proof.
  intros Ha. discriminate Ha.
Qed.

(** ** The page over time *)

Lemma timeline_ok_wait (ms : N) (w : world) :
  timeline_ok w -> timeline_ok (wait run_timeout run_reaction ms w).
Proof.
  intros [Hh Hm]. split.
  - unfold wait.
    apply (@advance_to_keeps _ _ _ _ run_timeout run_reaction
             fallback_delayed fallback_timer_current);
      [ exact fallback_delayed_later
      | exact fallback_delayed_reaction
      | exact fallback_timer_reaction
      | exact fallback_delayed_timeout
      | exact fallback_timer_timeout
      | exact fallback_timer_resume
      | exact Hh ].
  - now apply advance_to_microtasks.
Qed.

Lemma In_timers19 (t : timer Value Timeout) (nt np : nat) (n : Z) :
  In t (timers19 nt np n) -> action t <> Runtime.Page Fallback18.
Proof.
  intros [<- | [<- | [<- | [<- | []]]]]; discriminate.
Qed.

Lemma In_timers18 (t : timer Value Timeout) (nt np : nat) (n : Z) :
  In t (timers18 nt np n) -> action t = Runtime.Page Fallback18 ->
  t = mkTimer nt (n + 800) (Runtime.Page Fallback18).
Proof.
  intros [<- | [<- | [<- | [<- | []]]]]; try discriminate. reflexivity.
Qed.

(** The fallback timers of [React18Simulation] that a reset leaves behind:
    none, whatever was there. *)
Lemma kept_no_fallback18 (w : world) (t : timer Value Timeout) :
  timeline_ok w ->
  In t (match R18.cleanup (react18 (page w)) with
        | Some id => List.filter (fun t => negb (Nat.eqb (tid t) id)) (timers w)
        | None => timers w
        end) ->
  action t <> Runtime.Page Fallback18.
Proof.
  intros [[_ HQ] _] Hin Ha. rewrite Forall_forall in HQ.
  destruct (R18.cleanup (react18 (page w))) as [id|] eqn:Hc.
  - apply filter_In in Hin as [Hin Hne].
    destruct (HQ t Hin Ha) as [_ Hid]. rewrite Hc in Hid.
    injection Hid as ->. rewrite Nat.eqb_refl in Hne. discriminate.
  - destruct (HQ t Hin Ha) as [_ Hid]. congruence.
Qed.

Lemma timeline_ok_reset (w : world) : timeline_ok w -> timeline_ok (reset w).
Proof.
  intros Hw. pose proof Hw as [_ Hm].
  rewrite (reset_exec w Hm). split; [|reflexivity].
  split; cbn [now page timers].
  - intros ev Hin Hty. cbn in Hin.
    destruct Hin as [<- | [<- | [<- | []]]]; discriminate.
  - apply Forall_forall. intros t Hin Ha.
    apply in_app_or in Hin as [Hin | Hin];
      [exfalso; exact (@kept_no_fallback18 w t Hw Hin Ha)|].
    apply in_app_or in Hin as [Hin | Hin];
      [|exfalso; exact (@In_timers19 _ _ _ _ Hin Ha)].
    rewrite (@In_timers18 _ _ _ _ Hin Ha). cbn. split; [lia | reflexivity].
Qed.

Lemma timeline_ok_mount (t0 : Z) : timeline_ok (mount t0).
Proof.
  rewrite mount_exec. split; [|reflexivity].
  split; cbn [now page timers].
  - intros ev Hin Hty. cbn in Hin.
    destruct Hin as [<- | [<- | [<- | []]]]; discriminate.
  - apply Forall_forall. intros t Hin Ha.
    apply in_app_or in Hin as [Hin | Hin];
      [|exfalso; exact (@In_timers19 _ _ _ _ Hin Ha)].
    rewrite (@In_timers18 _ _ _ _ Hin Ha). cbn. split; [lia | reflexivity].
Qed.

Lemma timeline_ok_run (inputs : list input) (w : world) :
  timeline_ok w -> timeline_ok (run inputs w).
Proof.
  revert w. induction inputs as [|i inputs IH]; intros w Hw; simpl.
  - exact Hw.
  - apply IH. destruct i; simpl.
    + now apply timeline_ok_wait.
    + now apply timeline_ok_reset.
Qed.

Lemma run_started_at_reset (w : world) :
  timeline_ok w -> run_started_at (now w) (reset w).
Proof.
  intros Hw. pose proof Hw as [_ Hm]. unfold run_started_at.
  rewrite (reset_exec w Hm).
  unfold start18, start19, events18, events19.
  cbn [now page timers react18 react19 R18.startTimeRef R19.startTimeRef
       R18.events R19.events].
  repeat (split; [reflexivity|]).
  split; [|split].
  - exists (next_timer w). apply in_or_app. right. left. reflexivity.
  - intros tm Hin Ha.
    apply in_app_or in Hin as [Hin | Hin];
      [exfalso; exact (@kept_no_fallback18 w tm Hw Hin Ha)|].
    apply in_app_or in Hin as [Hin | Hin];
      [|exfalso; exact (@In_timers19 _ _ _ _ Hin Ha)].
    now rewrite (@In_timers18 _ _ _ _ Hin Ha).
  - exists (4 + next_timer w)%nat. apply in_or_app. right.
    apply in_or_app. right. left. reflexivity.
Qed.

Lemma run_started_at_mount (t0 : Z) : run_started_at t0 (mount t0).
Proof.
  unfold run_started_at. rewrite mount_exec.
  unfold start18, start19, events18, events19.
  cbn [now page timers react18 react19 R18.startTimeRef R19.startTimeRef
       R18.events R19.events].
  repeat (split; [reflexivity|]).
  split; [|split].
  - exists 0%nat. left. reflexivity.
  - intros tm Hin Ha.
    apply in_app_or in Hin as [Hin | Hin];
      [|exfalso; exact (@In_timers19 _ _ _ _ Hin Ha)].
    now rewrite (@In_timers18 _ _ _ _ Hin Ha).
  - exists 4%nat. apply in_or_app. right. left. reflexivity.
Qed.


(** ** The fallback events arrive on time *)

Lemma tid_injective (ts : list (timer Value Timeout)) (a b : timer Value Timeout) :
  NoDup (List.map (@tid _ _) ts) -> In a ts -> In b ts -> tid a = tid b -> a = b.
Proof.
  induction ts as [|t ts IH]; simpl; intros Hnd Ha Hb Heq; [contradiction|].
  inversion Hnd as [|? ? Hnin Hnd']; subst.
  destruct Ha as [-> | Ha], Hb as [-> | Hb]; auto.
  - exfalso. apply Hnin. rewrite Heq. now apply in_map.
  - exfalso. apply Hnin. rewrite <- Heq. now apply in_map.
Qed.

Lemma recorded_reaction (s18 s19 : Z) (es18 es19 : list TimelineEvent)
    (r : Reaction) (v : Value) (n : Z) (pg : Page) :
  recorded s18 s19 es18 es19 pg ->
  recorded s18 s19 es18 es19 (run_reaction r v n pg).
Proof.
  intros (H1 & H2 & H3 & H4).
  destruct r; unfold recorded, run_reaction, on18, on19;
    cbn [react18 react19 R18.setEvents R18.setUserData R18.setPostsData
         R18.setCommentsData R18.setShowFallback R19.setEvents
         R18.events R18.startTimeRef R19.events R19.startTimeRef];
    repeat split; auto using incl_appl.
Qed.

Lemma recorded_timeout (s18 s19 : Z) (es18 es19 : list TimelineEvent)
    (h : Timeout) (n : Z) (pg : Page) :
  recorded s18 s19 es18 es19 pg ->
  recorded s18 s19 es18 es19 (run_timeout h n pg).
Proof.
  intros (H1 & H2 & H3 & H4).
  destruct h; unfold recorded, run_timeout, on18, on19;
    cbn [react18 react19 R18.setEvents R18.setShowFallback R19.setEvents
         R18.events R18.startTimeRef R19.events R19.startTimeRef];
    repeat split; auto using incl_appl.
Qed.

(** Firing a timer forgets nothing. *)
Lemma fire_recorded (t : timer Value Timeout) (w : world) :
  In t (timers w) ->
  recorded (start18 w) (start19 w) (events18 w) (events19 w)
    (page (fire run_timeout run_reaction t w)).
Proof.
  intros Hin.
  apply (@fire_page_keeps _ _ _ _ run_timeout run_reaction
           (recorded (start18 w) (start19 w) (events18 w) (events19 w)) t w).
  - intros r v n pg. apply recorded_reaction.
  - intros h n pg. apply recorded_timeout.
  - exact Hin.
  - repeat split; apply incl_refl.
Qed.


Lemma fired_fallback18 (t : timer Value Timeout) (w : world) :
  action t = Runtime.Page Fallback18 -> microtasks w = [] -> now w <= due t ->
  In (fallback_shown18 (due t))
     (events18 (fire run_timeout run_reaction t w)).
Proof.
  intros Ha Hm Hle. unfold events18.
  rewrite (fire_page run_timeout run_reaction t w Ha Hm).
  rewrite (Z.max_r _ _ Hle).
  unfold run_timeout, on18.
  cbn [react18 R18.setEvents R18.setShowFallback R18.events].
  apply in_or_app. right. left. reflexivity.
Qed.

Lemma fired_fallback19 (t : timer Value Timeout) (w : world) :
  action t = Runtime.Page Fallback19 -> microtasks w = [] -> now w <= due t ->
  In (fallback_shown19 (due t))
     (events19 (fire run_timeout run_reaction t w)).
Proof.
  intros Ha Hm Hle. unfold events19.
  rewrite (fire_page run_timeout run_reaction t w Ha Hm).
  rewrite (Z.max_r _ _ Hle).
  unfold run_timeout, on19.
  cbn [react19 R19.setEvents R19.events].
  apply in_or_app. right. left. reflexivity.
Qed.

(** A timer other than the one that fires stays active. *)
Lemma other_timer_stays (w : world) (t tm : timer Value Timeout) :
  NoDup (List.map (@tid _ _) (timers w)) ->
  In t (timers w) -> In tm (timers w) -> tm <> t ->
  In tm (List.filter (fun t' => negb (Nat.eqb (tid t') (tid t))) (timers w)).
Proof.
  intros Hnd Ht Htm Hne. apply filter_In. split; [exact Htm|].
  destruct (Nat.eqb_spec (tid tm) (tid t)) as [Heq | _]; [|reflexivity].
  exfalso. apply Hne. exact (tid_injective _ _ _ Hnd Htm Ht Heq).
Qed.

Lemma on_schedule_fire (w : world) (t : timer Value Timeout) :
  on_schedule w -> earliest (timers w) = Some t ->
  on_schedule (fire run_timeout run_reaction t w).
Proof.
  intros (k1 & k2 & k3 & k4 & k5 & k6 & k7) He.
  pose proof (earliest_In _ He) as Hin.
  assert (Hnr : forall p k, action t <> Resume p k)
    by (intros p k; exact (k4 t p k Hin)).
  destruct (fire_timers run_timeout run_reaction t w Hnr) as [Hts Hnt].
  pose proof (fire_now run_timeout run_reaction t w) as Hnow.
  rewrite (Z.max_r _ _ (k3 t Hin)) in Hnow.
  destruct (fire_recorded t w Hin) as (Hs18 & Hs19 & Hi18 & Hi19).
  unfold on_schedule. unfold start18, start19.
  rewrite Hts, Hnt, Hnow, Hs18, Hs19.
  split; [now apply NoDup_map_filter|].
  split; [intros t' Ht'; apply filter_In in Ht' as [Ht' _]; auto|].
  split.
  { intros t' Ht'. apply filter_In in Ht' as [Ht' _].
    exact (earliest_least _ He t' Ht'). }
  split; [intros t' p k Ht'; apply filter_In in Ht' as [Ht' _]; auto|].
  split; [apply fire_microtasks|].
  split.
  - destruct k6 as [[id Hid] | Hev]; [|right; apply Hi18; exact Hev].
    destruct (Nat.eq_dec id (tid t)) as [Heq | Hne].
    + right. pose proof (tid_injective _ _ _ k1 Hid Hin Heq) as <-.
      exact (@fired_fallback18
               (mkTimer id (start18 w + 800) (Runtime.Page Fallback18)) w
               eq_refl k5 (k3 _ Hid)).
    + left. exists id. apply other_timer_stays; auto.
      intros <-. apply Hne. reflexivity.
  - destruct k7 as [[id Hid] | Hev]; [|right; apply Hi19; exact Hev].
    destruct (Nat.eq_dec id (tid t)) as [Heq | Hne].
    + right. pose proof (tid_injective _ _ _ k1 Hid Hin Heq) as <-.
      exact (@fired_fallback19
               (mkTimer id (start19 w + 10) (Runtime.Page Fallback19)) w
               eq_refl k5 (k3 _ Hid)).
    + left. exists id. apply other_timer_stays; auto.
      intros <-. apply Hne. reflexivity.
Qed.


Lemma on_schedule_turn (target : Z) (w : world) :
  on_schedule w -> on_schedule (turn run_timeout run_reaction target w).
Proof.
  intros Hw. unfold turn.
  destruct (earliest (timers w)) as [t|] eqn:He; [|exact Hw].
  destruct (Z.leb (due t) target); [|exact Hw].
  now apply on_schedule_fire.
Qed.

(** After a wait every timer left is due in the future. *)
Lemma punctual_wait (ms : N) (w : world) :
  on_schedule w -> punctual (wait run_timeout run_reaction ms w).
Proof.
  intros Hw. unfold wait.
  set (target := now w + Z.of_N ms).
  assert (Htarget : now w <= target) by (unfold target; lia).
  pose proof (advance_to_complete run_timeout run_reaction target w) as Hlate.
  pose proof (@advance_to_now _ _ _ _ run_timeout run_reaction target w Htarget)
    as Hnow.
  assert (Hit : on_schedule
                  (Nat.iter (work w) (turn run_timeout run_reaction target) w)).
  { induction (work w) as [|n IH]; simpl; [exact Hw | now apply on_schedule_turn]. }
  revert Hlate Hnow. unfold advance_to.
  set (w' := Nat.iter (work w) (turn run_timeout run_reaction target) w) in *.
  cbn [timers now]. intros Hlate Hnow.
  destruct Hit as (k1 & k2 & k3 & k4 & k5 & k6 & k7).
  split; [|cbn [timers now]; intros t Ht; specialize (Hlate t Ht); lia].
  unfold on_schedule, start18, start19, events18, events19.
  cbn [timers now next_timer microtasks page].
  repeat split; auto.
  intros t Ht. specialize (Hlate t Ht). lia.
Qed.

Lemma new_timers_tids (nt np : nat) (n : Z) :
  List.map (@tid _ _) (timers18 nt np n ++ timers19 (4 + nt) (3 + np) n)
  = [nt; 1 + nt; 2 + nt; 3 + nt; 4 + nt; 5 + nt; 6 + nt; 7 + nt]%nat.
Proof.
  reflexivity.
Qed.

Lemma new_timers_later (nt np : nat) (n : Z) (t : timer Value Timeout) :
  In t (timers18 nt np n ++ timers19 (4 + nt) (3 + np) n) ->
  (nt <= tid t < 8 + nt)%nat /\ n < due t
  /\ forall p k, action t <> Resume p k.
Proof.
  intros Hin. cbn in Hin.
  repeat (destruct Hin as [<- | Hin]; [cbn; repeat split; try lia; discriminate|]).
  contradiction.
Qed.

Lemma kept_incl (w : world) (t : timer Value Timeout) :
  In t (match R18.cleanup (react18 (page w)) with
        | Some id => List.filter (fun t => negb (Nat.eqb (tid t) id)) (timers w)
        | None => timers w
        end) ->
  In t (timers w).
Proof.
  destruct (R18.cleanup (react18 (page w))); [|auto].
  intros Hin. now apply filter_In in Hin.
Qed.

Lemma kept_NoDup (w : world) :
  NoDup (List.map (@tid _ _) (timers w)) ->
  NoDup (List.map (@tid _ _)
           (match R18.cleanup (react18 (page w)) with
            | Some id => List.filter (fun t => negb (Nat.eqb (tid t) id)) (timers w)
            | None => timers w
            end)).
Proof.
  destruct (R18.cleanup (react18 (page w))); [|auto].
  apply NoDup_map_filter.
Qed.

(** After a reset as well. *)
Lemma punctual_reset (w : world) : punctual w -> punctual (reset w).
Proof.
  intros [(k1 & k2 & k3 & k4 & k5 & k6 & k7) Hfut].
  rewrite (reset_exec w k5).
  set (kept := match R18.cleanup (react18 (page w)) with
               | Some id => List.filter (fun t => negb (Nat.eqb (tid t) id)) (timers w)
               | None => timers w
               end).
  unfold punctual, on_schedule, start18, start19, events18, events19.
  cbn [timers now next_timer microtasks page react18 react19
       R18.startTimeRef R19.startTimeRef R18.events R19.events].
  assert (Hsplit : forall t,
             In t (kept ++ timers18 (next_timer w) (List.length (promises w)) (now w)
                     ++ timers19 (4 + next_timer w)
                          (3 + List.length (promises w)) (now w)) ->
             (In t (timers w))
             \/ ((next_timer w <= tid t < 8 + next_timer w)%nat
                 /\ now w < due t /\ forall p k, action t <> Resume p k)).
  { intros t Ht. apply in_app_or in Ht as [Ht | Ht].
    - left. exact (@kept_incl w t Ht).
    - right. exact (@new_timers_later _ _ _ _ Ht). }
  split; [|intros t Ht; destruct (Hsplit t Ht) as [Hold | (_ & Hd & _)]; auto].
  split.
  { rewrite map_app, new_timers_tids. apply NoDup_app.
    - exact (@kept_NoDup w k1).
    - repeat constructor; simpl; lia.
    - intros a Ha Hnew. apply in_map_iff in Ha as (t & <- & Ht).
      pose proof (k2 t (@kept_incl w t Ht)). simpl in Hnew. lia. }
  split.
  { intros t Ht. destruct (Hsplit t Ht) as [Hold | (Hid & _)];
      [specialize (k2 t Hold)|]; lia. }
  split.
  { intros t Ht. destruct (Hsplit t Ht) as [Hold | (_ & Hd & _)];
      [specialize (Hfut t Hold)|]; lia. }
  split.
  { intros t p k Ht. destruct (Hsplit t Ht) as [Hold | (_ & _ & Hr)]; auto. }
  split; [reflexivity|].
  split; left.
  - exists (next_timer w). apply in_or_app. right. left. reflexivity.
  - exists (4 + next_timer w)%nat. apply in_or_app. right.
    apply in_or_app. right. left. reflexivity.
Qed.

Lemma punctual_mount (t0 : Z) : punctual (mount t0).
Proof.
  rewrite mount_exec.
  unfold punctual, on_schedule, start18, start19, events18, events19.
  cbn [timers now next_timer microtasks page react18 react19
       R18.startTimeRef R19.startTimeRef R18.events R19.events].
  assert (Hnew : forall t, In t (timers18 0 0 t0 ++ timers19 4 3 t0) ->
             (0 <= tid t < 8)%nat /\ t0 < due t
             /\ forall p k, action t <> Resume p k)
    by (intros t Ht; exact (@new_timers_later 0%nat 0%nat t0 t Ht)).
  split; [|intros t Ht; apply (Hnew t Ht)].
  split.
  { change (timers19 4 3 t0) with (timers19 (4 + 0) (3 + 0) t0).
    rewrite new_timers_tids. repeat constructor; simpl; lia. }
  split; [intros t Ht; apply (Hnew t Ht)|].
  split; [intros t Ht; destruct (Hnew t Ht) as (_ & Hd & _); lia|].
  split; [intros t p k Ht; apply (Hnew t Ht)|].
  split; [reflexivity|].
  split; left.
  - exists 0%nat. left. reflexivity.
  - exists 4%nat. apply in_or_app. right. left. reflexivity.
Qed.

Lemma punctual_run (inputs : list input) (w : world) :
  punctual w -> punctual (run inputs w).
Proof.
  revert w. induction inputs as [|i inputs IH]; intros w Hw; simpl.
  - exact Hw.
  - apply IH. destruct i; simpl.
    + apply punctual_wait, Hw.
    + now apply punctual_reset.
Qed.

(** Once the time of a fallback timer of the current run has come, its
    event is on the timeline, stamped with that time. *)
Lemma fallbacks_on_time (w : world) :
  punctual w ->
  (start18 w + 800 <= now w ->
   In (fallback_shown18 (start18 w + 800)) (events18 w))
  /\ (start19 w + 10 <= now w ->
      In (fallback_shown19 (start19 w + 10)) (events19 w)).
Proof.
  intros [(_ & _ & _ & _ & _ & k6 & k7) Hfut]. split; intros Hnow.
  - destruct k6 as [[id Hid] | Hev]; [|exact Hev].
    specialize (Hfut _ Hid). cbn [due] in Hfut. lia.
  - destruct k7 as [[id Hid] | Hev]; [|exact Hev].
    specialize (Hfut _ Hid). cbn [due] in Hfut. lia.
Qed.

End TimelineFacts.

(** C7.  Through any sequence of waits and resets after the page is
    mounted: every 'fallback' event on the React-18 timeline carries a time
    at least 800 ms after the start of the current run, so while less than
    800 ms have passed since that start the timeline has no 'fallback' event;
    each run (the mount, and every reset) begins with the three fetch-start
    events recorded on both timelines, with the React-18 fallback timer due
    at 800 ms and at no other time, and with the React-19 'fallback shown'
    timer due at 10 ms; and once those times have come, the React-18
    timeline has the fallback event of the run stamped start + 800 and the
    React-19 timeline has its own stamped start + 10. *)
Theorem suspense_timelines (t0 : Z) (inputs : list Suspense.input) :
  let w := Suspense.run inputs (Suspense.mount t0) in
  (forall ev,
      In ev (Suspense.events18 w) ->
      Suspense.type ev = Suspense.fallback ->
      Suspense.start18 w + 800 <= Suspense.timestamp ev <= Runtime.now w)
  /\ (Runtime.now w < Suspense.start18 w + 800 ->
      forall ev, In ev (Suspense.events18 w) ->
                 Suspense.type ev <> Suspense.fallback)
  /\ run_started_at t0 (Suspense.mount t0)
  /\ run_started_at (Runtime.now w) (Suspense.reset w)
  /\ (Suspense.start18 w + 800 <= Runtime.now w ->
      In (fallback_shown18 (Suspense.start18 w + 800)) (Suspense.events18 w))
  /\ (Suspense.start19 w + 10 <= Runtime.now w ->
      In (fallback_shown19 (Suspense.start19 w + 10)) (Suspense.events19 w)).
Proof.
  intros w.
  assert (Hw : timeline_ok w)
    by (apply timeline_ok_run, timeline_ok_mount).
  assert (Hp : punctual w)
    by (apply punctual_run, punctual_mount).
  assert (Hsafe : forall ev,
             In ev (Suspense.events18 w) ->
             Suspense.type ev = Suspense.fallback ->
             Suspense.start18 w + 800 <= Suspense.timestamp ev <= Runtime.now w).
  { destruct Hw as [[HI _] _]. exact HI. }
  split; [exact Hsafe|].
  split.
  { intros Hearly ev Hin Hty. specialize (Hsafe ev Hin Hty). lia. }
  split; [apply run_started_at_mount|].
  split; [now apply run_started_at_reset|].
  now apply fallbacks_on_time.
Qed.

(** [suspense_timelines] on a session with a reset in it: 400 ms after the
    reset the React-18 timeline still has no 'fallback' event. *)
Lemma suspense_timelines_witness :
  let w := Suspense.run [Suspense.Wait 900; Suspense.Reset; Suspense.Wait 400]
             (Suspense.mount noon) in
  Runtime.now w < Suspense.start18 w + 800
  /\ forall ev, In ev (Suspense.events18 w) ->
                Suspense.type ev <> Suspense.fallback.
Proof.
  split; [vm_compute; reflexivity|].
  destruct (suspense_timelines noon
              [Suspense.Wait 900; Suspense.Reset; Suspense.Wait 400])
    as (_ & Hearly & _).
  apply Hearly. vm_compute. reflexivity.
Defined.

(** The first run from a mount at [noon]: the React-18 timeline has no
    'fallback' event after 799 ms and gets it at 800 ms; the React-19
    timeline gets its own at 10 ms. *)
Example first_run_fallbacks :
  Suspense.events18 (Suspense.run [Suspense.Wait 799] (Suspense.mount noon))
  = fetch_starts18 noon
  /\ Suspense.events18 (Suspense.run [Suspense.Wait 800] (Suspense.mount noon))
     = fetch_starts18 noon ++ [fallback_shown18 (noon + 800)]
  /\ Suspense.events19 (Suspense.run [Suspense.Wait 9] (Suspense.mount noon))
     = fetch_starts19 noon
  /\ Suspense.events19 (Suspense.run [Suspense.Wait 10] (Suspense.mount noon))
     = fetch_starts19 noon ++ [fallback_shown19 (noon + 10)].
Proof.
  repeat split; vm_compute; reflexivity.
Qed.

(** [simulated_operations_resolve_once] on [fetchData(7)], called at
    [noon]: one second later the promise holds post 7. *)
Lemma simulated_operations_resolve_once_witness :
  Runtime.state_of
    (Runtime.wait UseDemo.no_timeout UseDemo.no_reaction 1000
       (Runtime.exec (UseDemo.fetchData 7) (Runtime.idle noon tt))) 0
  = Some (Runtime.Fulfilled (UseDemo.post_of 7)).
Proof.
  destruct simulated_operations_resolve_once as (Hfetch & _).
  destruct (Hfetch 7 noon tt) as (_ & _ & Hwait).
  destruct (Hwait 1000%N) as (_ & Hdone).
  apply Hdone. vm_compute. discriminate.
Defined.

(* ===================================================================== *)
(** * More on the pages *)
(* ===================================================================== *)

Lemma NoDup_map_injective {A B} (f : A -> B) (l : list A) (a b : A) :
  NoDup (List.map f l) -> In a l -> In b l -> f a = f b -> a = b.
Proof.
  induction l as [|x l IH]; simpl; intros Hnd Ha Hb Heq; [contradiction|].
  inversion Hnd as [|? ? Hnin Hnd']; subst.
  destruct Ha as [-> | Ha], Hb as [-> | Hb]; auto.
  - exfalso. apply Hnin. rewrite Heq. now apply in_map.
  - exfalso. apply Hnin. rewrite <- Heq. now apply in_map.
Qed.

(** ** The todo demo *)





(** X2.  Two confirmed toggles of the same id give the list back, whatever
    the list and whether or not the id occurs in it. *)
Theorem confirm_twice (id : Z) (todos : list Optimistic.Todo) :
  TodoDemo.confirm id (TodoDemo.confirm id todos) = todos.
Proof.
  unfold TodoDemo.confirm. rewrite map_map.
  rewrite <- (map_id todos) at 2. apply map_ext. intros [i t c]. cbn.
  destruct (Z.eqb_spec i id) as [Heq | Hne]; cbn.
  - destruct (Z.eqb_spec i id); [|contradiction].
    now rewrite negb_involutive.
  - destruct (Z.eqb_spec i id); [contradiction | reflexivity].
Qed.

(** ** The Form Actions reducer *)

Lemma trimStart_nil_iff (s : jsstring) :
  trimStart s = [] <-> forallb is_white_space s = true.
Proof.
  split; [|apply trimStart_white].
  induction s as [|c s IH]; simpl; [reflexivity|].
  destruct (is_white_space c); [exact IH | discriminate].
Qed.

Lemma trimStart_stops (s : jsstring) :
  trimStart s = [] \/ exists c r, trimStart s = c :: r /\ is_white_space c = false.
Proof.
  induction s as [|c s IH]; simpl; [now left|].
  destruct (is_white_space c) eqn:Hc; [exact IH|].
  right. eauto.
Qed.

Lemma forallb_rev_eq {A} (f : A -> bool) (l : list A) :
  forallb f (rev l) = forallb f l.
Proof.
  induction l as [|a l IH]; simpl; [reflexivity|].
  rewrite forallb_app, IH. simpl. rewrite andb_true_r. apply andb_comm.
Qed.

(** [s.trim()] is empty exactly for a string of whitespace. *)
Lemma trim_nil_iff (s : jsstring) :
  trim s = [] <-> forallb is_white_space s = true.
Proof.
  split; [|apply trim_white].
  unfold trim, trimEnd. intros H.
  assert (H1 : trimStart (rev (trimStart s)) = []).
  { destruct (trimStart (rev (trimStart s))) as [|c l]; [reflexivity|].
    simpl in H. destruct (rev l); discriminate. }
  apply trimStart_nil_iff in H1. rewrite forallb_rev_eq in H1.
  apply trimStart_nil_iff.
  destruct (trimStart_stops s) as [Hn | (c & r & Hs & Hc)]; [exact Hn|].
  rewrite Hs in H1. simpl in H1. rewrite Hc in H1. discriminate.
Qed.

(** X3.  The todo reducer waits 500 ms and then: for a todo of whitespace
    only it returns the current list; for any other text it returns the
    current list with the todo appended as it was typed, untrimmed; for a
    form without a text field [todo] ([null] or a file) it throws, having no
    [trim] to call. *)
Theorem formAction_appends_as_typed
    (currentTodos : list jsstring) (fd : FormData) :
  delays (FormActions.formAction currentTodos fd) = [500]
  /\ (forall todo,
        get fd (js "todo") = Some (Text todo) ->
        settlement (FormActions.formAction currentTodos fd)
        = Normal (if forallb is_white_space todo
                  then currentTodos
                  else currentTodos ++ [todo]))
  /\ (text_or_absent (get fd (js "todo")) /\ get fd (js "todo") <> None
      \/ exists e, settlement (FormActions.formAction currentTodos fd) = Throw e
                   /\ err_name e = js "TypeError").
Proof.
  unfold FormActions.formAction. cbn [delays settlement].
  split; [destruct (call_trim "todo" (get fd (js "todo"))) as [t|e];
          [destruct t|]; reflexivity|].
  split.
  - intros todo Hget. rewrite Hget. cbn [call_trim to_string].
    destruct (forallb is_white_space todo) eqn:Hws.
    + now rewrite (trim_white _ Hws).
    + destruct (trim todo) eqn:Ht; [|reflexivity].
      apply trim_nil_iff in Ht. congruence.
  - destruct (get fd (js "todo")) as [[s|f]|]; cbn [call_trim settlement].
    + left. split; [exact I | discriminate].
    + right. eexists. split; reflexivity.
    + right. eexists. split; reflexivity.
Qed.

(** [formAction_appends_as_typed] on a todo with spaces around it. *)
Lemma formAction_appends_as_typed_witness :
  settlement (FormActions.formAction [js "milk"] (todo_form (js " eggs ")))
  = Normal [js "milk"; js " eggs "].
Proof.
  destruct (formAction_appends_as_typed [js "milk"] (todo_form (js " eggs ")))
    as (_ & Happend & _).
  apply (Happend (js " eggs ")). reflexivity.
Defined.

(** ** More on the cart *)

Section CartMore.

Import Cart.

Lemma available_ids_NoDup : NoDup (List.map id availableItems).
Proof.
  repeat constructor; simpl; intuition discriminate.
Qed.

Lemma removeItem_ids (id0 : Z) (items : list ShoppingCartItem) (x : Z) :
  In x (List.map id (removeItem id0 items))
  <-> In x (List.map id items) /\ x <> id0.
Proof.
  unfold removeItem. rewrite !in_map_iff. split.
  - intros (i & <- & Hi). apply filter_In in Hi as [Hi Hne].
    split; [eauto|]. apply negb_true_iff, Z.eqb_neq in Hne. exact Hne.
  - intros [(i & <- & Hi) Hne]. exists i. split; [reflexivity|].
    apply filter_In. split; [exact Hi|].
    now apply negb_true_iff, Z.eqb_neq.
Qed.

(** X4.  [removeItem(id)] leaves no item with that id and keeps every other
    item; on a cart without the id it changes nothing; on a cart with
    distinct ids that has the id, exactly one item goes. *)
Theorem removeItem_removes_that_id (id0 : Z) (items : list ShoppingCartItem) :
  ~ In id0 (List.map id (removeItem id0 items))
  /\ (forall item, In item items -> id item <> id0 ->
                   In item (removeItem id0 items))
  /\ (~ In id0 (List.map id items) -> removeItem id0 items = items)
  /\ (NoDup (List.map id items) -> In id0 (List.map id items) ->
      S (List.length (removeItem id0 items)) = List.length items).
Proof.
  split; [intros H; apply removeItem_ids in H; tauto|].
  split.
  { intros item Hin Hne. apply filter_In. split; [exact Hin|].
    now apply negb_true_iff, Z.eqb_neq. }
  split.
  { unfold removeItem. induction items as [|i items IH]; simpl; intros Hnot.
    - reflexivity.
    - destruct (Z.eqb_spec (id i) id0) as [Heq | Hne]; simpl.
      + exfalso. auto.
      + rewrite IH; auto. }
  unfold removeItem. induction items as [|i items IH]; simpl; intros Hnd Hin.
  - contradiction.
  - inversion Hnd as [|? ? Hnin Hnd']; subst.
    destruct (Z.eqb_spec (id i) id0) as [Heq | Hne]; simpl.
    + f_equal. rewrite <- Heq in *.
      clear IH Hin Hnd Hnd'. induction items as [|j items IH]; simpl.
      * reflexivity.
      * simpl in Hnin.
        destruct (Z.eqb_spec (id j) (id i)) as [Hji | Hji]; simpl.
        -- exfalso. auto.
        -- now rewrite IH by tauto.
    + f_equal. apply IH; [exact Hnd'|]. destruct Hin; [contradiction | assumption].
Qed.

(** [removeItem_removes_that_id] on the initial cart. *)
Lemma removeItem_removes_that_id_witness :
  removeItem 9 initial_items = initial_items
  /\ S (List.length (removeItem 2 initial_items)) = List.length initial_items.
Proof.
  destruct (removeItem_removes_that_id 9 initial_items) as (_ & _ & Hsame & _).
  destruct (removeItem_removes_that_id 2 initial_items) as (_ & _ & _ & Hone).
  split.
  - apply Hsame. simpl. intuition discriminate.
  - apply Hone; [repeat constructor; simpl; intuition discriminate | simpl; auto].
Defined.

Lemma first_missing_None (items : list ShoppingCartItem) :
  first_missing items = None
  <-> forall item, In item availableItems -> In (id item) (List.map id items).
Proof.
  unfold first_missing. split.
  - intros Hf item Hin.
    pose proof (find_none _ _ Hf item Hin) as Hp. cbn in Hp.
    apply negb_false_iff, existsb_exists in Hp as (i & Hi & Heq).
    apply Z.eqb_eq in Heq. rewrite <- Heq. now apply in_map.
  - intros Hall.
    destruct (List.find _ availableItems) as [item|] eqn:Hf; [|reflexivity].
    apply find_some in Hf as [Hin Hp]. cbn in Hp.
    apply negb_true_iff in Hp.
    pose proof (Hall item Hin) as Hpres.
    apply in_map_iff in Hpres as (i & Heq & Hi).
    assert (existsb (fun i0 => Z.eqb (id i0) (id item)) items = true)
      by (apply existsb_exists; exists i; split; [exact Hi | now apply Z.eqb_eq]).
    congruence.
Qed.

Lemma app_one_neq {A} (l : list A) (a : A) : l ++ [a] <> l.
Proof.
  intros H. apply (f_equal (@List.length A)) in H.
  rewrite length_app in H. simpl in H. lia.
Qed.

(** X5.  In every cart that a session can reach, the Add button is disabled
    exactly when [addItem] would leave the cart as it is. *)
Theorem add_button_disabled_iff_nothing_to_add (clicks : list click) :
  CartView.add_disabled (session clicks) = true
  <-> addItem (session clicks) = session clicks.
Proof.
  destruct (cart_ok_session clicks) as [Hnd Hincl].
  set (items := session clicks) in *.
  unfold CartView.add_disabled. rewrite Nat.leb_le.
  rewrite addItem_first_missing.
  assert (Hids : incl (List.map id items) (List.map id availableItems)).
  { intros x Hx. apply in_map_iff in Hx as (i & <- & Hi). apply in_map. auto. }
  split.
  - intros Hlen.
    assert (Hall : incl (List.map id availableItems) (List.map id items)).
    { apply NoDup_length_incl; [exact Hnd | | exact Hids].
      rewrite !length_map. exact Hlen. }
    rewrite (proj2 (first_missing_None items)); [reflexivity|].
    intros item Hin. apply Hall. now apply in_map.
  - intros Hsame.
    destruct (first_missing items) as [item|] eqn:Hf;
      [exfalso; exact (@app_one_neq _ _ _ Hsame)|].
    rewrite <- (length_map id availableItems), <- (length_map id items).
    apply NoDup_incl_length; [apply available_ids_NoDup|].
    intros x Hx. apply in_map_iff in Hx as (i & <- & Hi).
    exact (proj1 (first_missing_None items) Hf i Hi).
Qed.

Lemma find_only {A} (p : A -> bool) (l : list A) (x : A) :
  In x l -> p x = true -> (forall y, In y l -> p y = true -> y = x) ->
  List.find p l = Some x.
Proof.
  intros Hin Hp Honly.
  destruct (List.find p l) as [y|] eqn:Hf.
  - apply find_some in Hf as [Hy Hpy]. f_equal. auto.
  - pose proof (find_none _ _ Hf x Hin). congruence.
Qed.

(** X6.  On a full cart, removing an item and adding one puts the same
    item back, at the end of the cart. *)
Theorem remove_then_add_on_full_cart
    (items : list ShoppingCartItem) (item : ShoppingCartItem) :
  cart_ok items -> List.length items = 4%nat -> In item items ->
  addItem (removeItem (id item) items) = removeItem (id item) items ++ [item].
Proof.
  intros [Hnd Hincl] Hlen Hin.
  rewrite addItem_first_missing.
  assert (Hall : incl (List.map id availableItems) (List.map id items)).
  { apply NoDup_length_incl; [exact Hnd | rewrite !length_map, Hlen; auto|].
    intros x Hx. apply in_map_iff in Hx as (i & <- & Hi). apply in_map. auto. }
  assert (Hmiss : forall a, In a availableItems ->
            negb (existsb (fun i => Z.eqb (id i) (id a))
                    (removeItem (id item) items)) = true
            <-> id a = id item).
  { intros a Ha. rewrite negb_true_iff.
    assert (Hex : existsb (fun i => Z.eqb (id i) (id a))
                    (removeItem (id item) items) = true
                  <-> In (id a) (List.map id (removeItem (id item) items))).
    { rewrite existsb_exists, in_map_iff. split.
      - intros (i & Hi & Heq). apply Z.eqb_eq in Heq. eauto.
      - intros (i & Heq & Hi). exists i. split; [exact Hi | now apply Z.eqb_eq]. }
    rewrite removeItem_ids in Hex.
    assert (Hpres : In (id a) (List.map id items)) by (apply Hall; now apply in_map).
    destruct (Z.eq_dec (id a) (id item)) as [Heq | Hne].
    - split; [auto|]. intros _.
      destruct (existsb _ _); [|reflexivity]. exfalso.
      destruct (proj1 Hex eq_refl) as [_ Hc]. contradiction.
    - split; [|contradiction]. intros Hf.
      rewrite (proj2 Hex (conj Hpres Hne)) in Hf. discriminate. }
  unfold first_missing.
  rewrite (@find_only _ _ availableItems item); [reflexivity | auto | |].
  - apply Hmiss; auto.
  - intros y Hy Hpy. apply Hmiss in Hpy; [|exact Hy].
    apply (@NoDup_map_injective _ _ id availableItems); auto.
    apply available_ids_NoDup.
Qed.

(** [remove_then_add_on_full_cart] on the cart with all four items. *)
Lemma remove_then_add_on_full_cart_witness :
  addItem (removeItem 2 availableItems)
  = removeItem 2 availableItems ++ [mkItem 2 (js "Gadget") 4999].
Proof.
  apply (@remove_then_add_on_full_cart availableItems
           (mkItem 2 (js "Gadget") 4999)).
  - split; [apply available_ids_NoDup | apply incl_refl].
  - reflexivity.
  - simpl. auto.
Defined.

End CartMore.

(** ** The callers of the polyfill *)

Lemma jsstring_eqb_eq (a b : jsstring) : jsstring_eqb a b = true <-> a = b.
Proof.
  revert b. induction a as [|x a IH]; intros [|y b]; simpl;
    try (split; [discriminate | discriminate]); [tauto|].
  rewrite andb_true_iff, N.eqb_eq, IH. split.
  - intros [-> ->]. reflexivity.
  - intros [= -> ->]. auto.
Qed.

Lemma jsstring_eqb_refl (a : jsstring) : jsstring_eqb a a = true.
Proof.
  now apply jsstring_eqb_eq.
Qed.

Section Wired.

Variables Args Result : Type.

(** A render of the polyfill leaves the cells wired, with the callback of
    that render in the ref, and the function it returns calls it. *)
Lemma render_wired (callback : EffectEvent.T Args Result)
    (h : EffectEvent.hooks Args Result) (args : Args) :
  wired h ->
  wired (snd (EffectEvent.render callback h))
  /\ EffectEvent.call (snd (EffectEvent.render callback h))
       (fst (EffectEvent.render callback h)) args
     = Some (callback args).
Proof.
  intros [-> | (g & c & Hm & Hr & Hlt)].
  - cbn. split; [|reflexivity]. right. exists 0%nat, callback. auto.
  - unfold EffectEvent.render, EffectEvent.useEffectEvent, EffectEvent.useRef,
      EffectEvent.new_arrow, EffectEvent.useCallback.
    rewrite Hr. cbn. rewrite Hm. cbn. split.
    + right. exists g, callback. cbn. auto.
    + unfold EffectEvent.call.
      cbn [EffectEvent.created EffectEvent.ref_current].
      apply Nat.lt_lt_succ_r, Nat.ltb_lt in Hlt. now rewrite Hlt.
Qed.

End Wired.

Section VisitTrackerFacts.

Import VisitTracker.

Lemma render_at_rest (st : state) :
  tracker_at_rest st ->
  url (render st) = url st /\ items (render st) = items st
  /\ logs (render st) = logs st /\ tracker_at_rest (render st).
Proof.
  intros [Hw Hd]. unfold render.
  pose proof (render_wired (onVisit_body (List.length (items st)))
                (url st) Hw) as [Hw' _].
  destruct (EffectEvent.render (onVisit_body (List.length (items st))) (cells st))
    as [onVisit cells'].
  rewrite Hd. cbn [deps_changed]. rewrite jsstring_eqb_refl. cbn.
  repeat split; assumption.
Qed.

Lemma render_visit (st : state) :
  wired (cells st) -> deps_changed (effect_deps st) (url st) = true ->
  url (render st) = url st /\ items (render st) = items st
  /\ logs (render st) = logs st ++ [logMessage (url st) (List.length (items st))]
  /\ tracker_at_rest (render st).
Proof.
  intros Hw Hd. unfold render.
  pose proof (render_wired (onVisit_body (List.length (items st)))
                (url st) Hw) as [Hw' Hcall].
  destruct (EffectEvent.render (onVisit_body (List.length (items st))) (cells st))
    as [onVisit cells'].
  cbn [fst snd] in *. rewrite Hd, Hcall. cbn.
  repeat split; assumption.
Qed.

Lemma update_logs (f : state -> state) (st : state) :
  wired (cells (f st)) ->
  url (update f st) = url (f st) /\ items (update f st) = items (f st)
  /\ logs (update f st)
     = logs (f st)
       ++ (if deps_changed (effect_deps (f st)) (url (f st))
           then [logMessage (url (f st)) (List.length (items (f st)))]
           else [])
  /\ tracker_at_rest (update f st).
Proof.
  intros Hw. unfold update.
  destruct (deps_changed (effect_deps (f st)) (url (f st))) eqn:Hd.
  - destruct (render_visit (f st) Hw Hd) as (Hu & Hi & Hl & Hr).
    destruct (render_at_rest Hr) as (Hu' & Hi' & Hl' & Hr').
    rewrite Hu', Hi', Hl', Hu, Hi, Hl. auto.
  - assert (Hrest : tracker_at_rest (f st)).
    { split; [exact Hw|]. unfold deps_changed in Hd.
      destruct (effect_deps (f st)) as [u|]; [|discriminate].
      apply negb_false_iff, jsstring_eqb_eq in Hd. now subst. }
    destruct (render_at_rest Hrest) as (Hu & Hi & Hl & Hr).
    rewrite Hu, Hi, Hl, app_nil_r. auto.
Qed.

Lemma run_logs (actions : list action) (st : state) :
  tracker_at_rest st ->
  logs (List.fold_left handle actions st)
  = logs st ++ List.map visit_line (visits (url st) (items st) actions).
Proof.
  revert st. induction actions as [|a actions IH]; intros st Hrest.
  - simpl. now rewrite app_nil_r.
  - destruct Hrest as [Hw Hd]. cbn [List.fold_left].
    destruct a as [page| |id]; cbn [handle visits].
    + destruct (update_logs
                  (fun st => mkState page (items st) (logs st) (cells st)
                               (effect_deps st)) st Hw)
        as (Hu & Hi & Hl & Hr).
      cbn [url items logs cells effect_deps] in Hu, Hi, Hl.
      rewrite (IH _ Hr), Hu, Hi, Hl, Hd. cbn [deps_changed].
      destruct (jsstring_eqb (url st) page) eqn:He; cbn [negb].
      * apply jsstring_eqb_eq in He. subst page. now rewrite app_nil_r.
      * cbn [List.map]. rewrite <- app_assoc. reflexivity.
    + destruct (update_logs
                  (fun st => mkState (url st) (Cart.addItem (items st)) (logs st)
                               (cells st) (effect_deps st)) st Hw)
        as (Hu & Hi & Hl & Hr).
      cbn [url items logs cells effect_deps] in Hu, Hi, Hl.
      rewrite (IH _ Hr), Hu, Hi, Hl, Hd. cbn [deps_changed].
      rewrite jsstring_eqb_refl. cbn [negb]. now rewrite app_nil_r.
    + destruct (update_logs
                  (fun st => mkState (url st) (Cart.removeItem id (items st))
                               (logs st) (cells st) (effect_deps st)) st Hw)
        as (Hu & Hi & Hl & Hr).
      cbn [url items logs cells effect_deps] in Hu, Hi, Hl.
      rewrite (IH _ Hr), Hu, Hi, Hl, Hd. cbn [deps_changed].
      rewrite jsstring_eqb_refl. cbn [negb]. now rewrite app_nil_r.
Qed.

Lemma mount_at_rest :
  tracker_at_rest mount /\ url mount = js "/home"
  /\ items mount = Cart.initial_items
  /\ logs mount = [logMessage (js "/home") 2].
Proof.
  unfold mount.
  destruct (update_logs (fun st => st)
              (mkState (js "/home") Cart.initial_items []
                 (EffectEvent.unmounted jsstring setLogs_updater) None))
    as (Hu & Hi & Hl & Hr); [now left|].
  auto.
Qed.

(** X7.  The page-visit tracker logs one line when it is mounted and one
    for every change of page, each with the number of items that the cart
    holds at that moment; adding or removing items, or choosing the page
    that is shown already, logs nothing. *)
Theorem tracker_logs_every_visit (actions : list action) :
  logs (run actions)
  = List.map visit_line
      ((js "/home", 2%nat) :: visits (js "/home") Cart.initial_items actions).
Proof.
  unfold run. destruct mount_at_rest as (Hr & Hu & Hi & Hl).
  rewrite (run_logs actions Hr), Hu, Hi, Hl. reflexivity.
Qed.

End VisitTrackerFacts.

Section NotificationFacts.

Import Notification.

Lemma notification_render_at_rest (st : state) :
  notification_at_rest st ->
  notifications (render st) = notifications st
  /\ soundEnabled (render st) = soundEnabled st
  /\ volume (render st) = volume st
  /\ messageCount (render st) = messageCount st
  /\ notification_at_rest (render st).
Proof.
  intros (Hw & Hd & Hpos). unfold render.
  pose proof (render_wired
                (playNotificationSound_body (soundEnabled st) (volume st))
                tt Hw) as [Hw' _].
  destruct (EffectEvent.render
              (playNotificationSound_body (soundEnabled st) (volume st))
              (cells st)) as [play cells'].
  rewrite Hd. cbn [deps_changed]. rewrite Z.eqb_refl.
  unfold notification_at_rest.
  cbn [negb notifications soundEnabled volume messageCount cells effect_deps].
  repeat split; assumption.
Qed.

Lemma notification_render_message (st : state) :
  wired (cells st) -> deps_changed (effect_deps st) (messageCount st) = true ->
  0 < messageCount st ->
  notifications (render st)
  = notifications st ++ [message_line (messageCount st);
                         sound_line (soundEnabled st) (volume st)]
  /\ soundEnabled (render st) = soundEnabled st
  /\ volume (render st) = volume st
  /\ messageCount (render st) = messageCount st
  /\ notification_at_rest (render st).
Proof.
  intros Hw Hd Hpos. unfold render.
  pose proof (render_wired
                (playNotificationSound_body (soundEnabled st) (volume st))
                tt Hw) as [Hw' Hcall].
  destruct (EffectEvent.render
              (playNotificationSound_body (soundEnabled st) (volume st))
              (cells st)) as [play cells'].
  cbn [fst snd] in *. rewrite Hd.
  destruct (Z.eqb_spec (messageCount st) 0) as [H0 | _]; [lia|].
  rewrite Hcall. unfold notification_at_rest, playNotificationSound_body.
  cbn [notifications soundEnabled volume messageCount cells effect_deps].
  rewrite <- app_assoc. cbn [List.app].
  repeat split; try assumption; lia.
Qed.

Lemma update_settled (f : state -> state) (st : state) :
  notification_at_rest (f st) -> update f st = render (f st).
Proof.
  intros (_ & Hd & _). unfold update. rewrite Hd. cbn [deps_changed].
  now rewrite Z.eqb_refl.
Qed.

Lemma update_changed (f : state -> state) (st : state) :
  deps_changed (effect_deps (f st)) (messageCount (f st)) = true ->
  update f st = render (render (f st)).
Proof. intros Hd. unfold update. now rewrite Hd. Qed.

Lemma notification_run (actions : list action) (st : state) :
  notification_at_rest st ->
  notifications (List.fold_left handle actions st)
  = notifications st
    ++ notified (soundEnabled st) (volume st) (messageCount st) actions.
Proof.
  revert st. induction actions as [|a actions IH]; intros st Hrest.
  - simpl. now rewrite app_nil_r.
  - pose proof Hrest as (Hw & Hd & Hpos). cbn [List.fold_left].
    destruct a as [checked|value|]; cbn [handle notified].
    + assert (Hrest' : notification_at_rest
                (mkState (notifications st) checked (volume st)
                         (messageCount st) (cells st) (effect_deps st)))
        by (repeat split; assumption).
      rewrite update_settled by exact Hrest'.
      destruct (notification_render_at_rest Hrest')
        as (Hn & Hs & Hv & Hm & Hr).
      cbn [notifications soundEnabled volume messageCount] in Hn, Hs, Hv, Hm.
      now rewrite (IH _ Hr), Hn, Hs, Hv, Hm.
    + assert (Hrest' : notification_at_rest
                (mkState (notifications st) (soundEnabled st) value
                         (messageCount st) (cells st) (effect_deps st)))
        by (repeat split; assumption).
      rewrite update_settled by exact Hrest'.
      destruct (notification_render_at_rest Hrest')
        as (Hn & Hs & Hv & Hm & Hr).
      cbn [notifications soundEnabled volume messageCount] in Hn, Hs, Hv, Hm.
      now rewrite (IH _ Hr), Hn, Hs, Hv, Hm.
    + assert (Hch : deps_changed (effect_deps st) (messageCount st + 1) = true).
      { rewrite Hd. cbn [deps_changed].
        destruct (Z.eqb_spec (messageCount st) (messageCount st + 1)); [lia|].
        reflexivity. }
      rewrite update_changed by exact Hch.
      destruct (@notification_render_message
                  (mkState (notifications st) (soundEnabled st) (volume st)
                           (messageCount st + 1) (cells st) (effect_deps st)))
        as (Hn & Hs & Hv & Hm & Hr);
        [exact Hw | exact Hch | cbn [messageCount]; lia |].
      cbn [notifications soundEnabled volume messageCount] in Hn, Hs, Hv, Hm.
      destruct (notification_render_at_rest Hr) as (Hn' & Hs' & Hv' & Hm' & Hr').
      rewrite (IH _ Hr'), Hn', Hs', Hv', Hm', Hn, Hs, Hv, Hm.
      rewrite <- app_assoc. reflexivity.
Qed.

Lemma notification_mount :
  notification_at_rest mount /\ notifications mount = []
  /\ soundEnabled mount = true /\ volume mount = 50 /\ messageCount mount = 0.
Proof.
  unfold mount, notification_at_rest. cbn.
  repeat split; try reflexivity; try lia.
  right. eexists _, _. cbn. repeat split. lia.
Qed.

Lemma notified_length (s : bool) (v c : Z) (actions : list action) :
  List.length (notified s v c actions) = (2 * received actions)%nat.
Proof.
  revert s v c. induction actions as [|a actions IH]; intros s v c.
  - reflexivity.
  - destruct a; cbn [notified received]; [apply IH | apply IH|].
    cbn [List.length]. rewrite IH. lia.
Qed.

(** X8.  The notification log holds, for every message received, its line
    followed by the sound line of the settings in force at that moment, two
    lines a message; changing the sound settings adds no line, and the
    mount, with no message yet, adds none. *)
Theorem notifications_use_latest_settings (actions : list action) :
  notifications (run actions) = notified true 50 0 actions
  /\ List.length (notifications (run actions)) = (2 * received actions)%nat.
Proof.
  unfold run. destruct notification_mount as (Hr & Hn & Hs & Hv & Hm).
  rewrite (notification_run actions Hr), Hn, Hs, Hv, Hm. cbn [List.app].
  split; [reflexivity | apply notified_length].
Qed.

End NotificationFacts.

Section BeforeAfterComparisonFacts.

Import BeforeAfterComparison.

Lemma Theme_eqb_eq (a b : Theme) : Theme_eqb a b = true <-> a = b.
Proof. destruct a, b; cbn; split; congruence. Qed.

Lemma chat_render_at_rest (st : state) :
  chat_at_rest st ->
  connectionLogs (render st) = connectionLogs st
  /\ badConnectionLogs (render st) = badConnectionLogs st
  /\ theme (render st) = theme st
  /\ chat_at_rest (render st).
Proof.
  intros (Hw & Hd & Hc). unfold render.
  pose proof (render_wired (onConnected_body (theme st)) tt Hw) as [Hw' _].
  destruct (EffectEvent.render (onConnected_body (theme st)) (cells st))
    as [onConnected cells'].
  rewrite Hd, Hc. cbn [deps_changed].
  replace (Theme_eqb (theme st) (theme st)) with true
    by (symmetry; now apply Theme_eqb_eq).
  unfold chat_at_rest.
  cbn [negb connectionLogs badConnectionLogs theme cells bad_deps connected].
  repeat split; assumption.
Qed.

Lemma chat_render_reconnect (st : state) (old : Theme) :
  wired (cells st) -> bad_deps st = Some old -> old <> theme st ->
  connected st = true ->
  connectionLogs (render st) = connectionLogs st
  /\ badConnectionLogs (render st)
     = badConnectionLogs st ++ [bad_disconnected; bad_connected (theme st)]
  /\ theme (render st) = theme st
  /\ chat_at_rest (render st).
Proof.
  intros Hw Hd Hne Hc. unfold render.
  pose proof (render_wired (onConnected_body (theme st)) tt Hw) as [Hw' _].
  destruct (EffectEvent.render (onConnected_body (theme st)) (cells st))
    as [onConnected cells'].
  rewrite Hd, Hc. cbn [deps_changed].
  replace (Theme_eqb old (theme st)) with false.
  2: { symmetry. destruct (Theme_eqb old (theme st)) eqn:E; [|reflexivity].
       now apply Theme_eqb_eq in E. }
  unfold chat_at_rest.
  cbn [negb connectionLogs badConnectionLogs theme cells bad_deps connected].
  rewrite <- app_assoc. cbn [List.app].
  repeat split; assumption.
Qed.

Lemma setTheme_logs (value : Theme) (st : state) :
  chat_at_rest st ->
  connectionLogs (setTheme value st) = connectionLogs st
  /\ badConnectionLogs (setTheme value st)
     = badConnectionLogs st
       ++ (if Theme_eqb (theme st) value then []
           else [bad_disconnected; bad_connected value])
  /\ theme (setTheme value st) = value
  /\ chat_at_rest (setTheme value st).
Proof.
  intros (Hw & Hd & Hc). unfold setTheme, update.
  cbn [bad_deps theme connected]. rewrite Hd, Hc. cbn [deps_changed negb].
  rewrite orb_false_r.
  destruct (Theme_eqb (theme st) value) eqn:E; cbn [negb].
  - apply Theme_eqb_eq in E. subst value.
    destruct (@chat_render_at_rest
                (mkState (theme st) (connectionLogs st) (badConnectionLogs st)
                         (cells st) (Some (theme st)) true))
      as (Hg & Hb & Ht & Hr); [repeat split; assumption|].
    cbn [connectionLogs badConnectionLogs theme] in Hg, Hb, Ht.
    rewrite app_nil_r. auto.
  - destruct (@chat_render_reconnect
                (mkState value (connectionLogs st) (badConnectionLogs st)
                         (cells st) (Some (theme st)) true) (theme st))
      as (Hg & Hb & Ht & Hr); try reflexivity; try assumption.
    { intros Heq. cbn in Heq. apply Theme_eqb_eq in Heq. congruence. }
    cbn [connectionLogs badConnectionLogs theme] in Hg, Hb, Ht.
    destruct (chat_render_at_rest Hr) as (Hg' & Hb' & Ht' & Hr').
    rewrite Hg', Hb', Ht', Hg, Hb, Ht. auto.
Qed.

Lemma chat_run (clicks : list Theme) (st : state) :
  chat_at_rest st ->
  connectionLogs (List.fold_left (fun st value => setTheme value st) clicks st)
  = connectionLogs st
  /\ badConnectionLogs
       (List.fold_left (fun st value => setTheme value st) clicks st)
     = badConnectionLogs st ++ reconnections (theme st) clicks.
Proof.
  revert st. induction clicks as [|value clicks IH]; intros st Hrest.
  - cbn. now rewrite app_nil_r.
  - cbn [List.fold_left reconnections].
    destruct (setTheme_logs value Hrest) as (Hg & Hb & Ht & Hr).
    destruct (IH _ Hr) as [IHg IHb]. rewrite IHg, IHb, Hg, Hb, Ht.
    split; [reflexivity|].
    destruct (Theme_eqb (theme st) value) eqn:E.
    + apply Theme_eqb_eq in E. subst value. now rewrite app_nil_r.
    + rewrite <- app_assoc. reflexivity.
Qed.

Lemma chat_mount :
  chat_at_rest mount /\ connectionLogs mount = [good_connected light]
  /\ badConnectionLogs mount = [bad_connected light] /\ theme mount = light.
Proof.
  unfold mount, update. cbn [bad_deps theme deps_changed orb].
  set (st0 := mkState light [] [] (EffectEvent.unmounted unit updater) None false).
  assert (H1 : chat_at_rest (render st0)
               /\ connectionLogs (render st0) = [good_connected light]
               /\ badConnectionLogs (render st0) = [bad_connected light]
               /\ theme (render st0) = light).
  { unfold chat_at_rest. cbn. repeat split; try reflexivity.
    right. eexists _, _. cbn. repeat split. lia. }
  destruct H1 as (Hr & Hg & Hb & Ht).
  destruct (chat_render_at_rest Hr) as (Hg' & Hb' & Ht' & Hr').
  rewrite Hg', Hb', Ht'. auto.
Qed.

(** X9.  In the comparison of the two effects, whatever themes are clicked:
    the log of the effect that goes through [useEffectEvent] holds the one
    connection of the mount, made with the theme of the mount, and the log
    of the effect that depends on the theme holds the connection of the
    mount followed by a disconnection and a connection for every click that
    changes the theme, and nothing for a click on the theme already
    chosen. *)
Theorem good_connects_once_bad_reconnects (clicks : list Theme) :
  connectionLogs (run clicks) = [good_connected light]
  /\ badConnectionLogs (run clicks)
     = bad_connected light :: reconnections light clicks.
Proof.
  unfold run. destruct chat_mount as (Hr & Hg & Hb & Ht).
  destruct (chat_run clicks Hr) as [Hgs Hbs].
  rewrite Hgs, Hbs, Hg, Hb, Ht. auto.
Qed.

End BeforeAfterComparisonFacts.

Section ErrorHandlingDemoFacts.

Import ErrorHandlingDemo.

(** The two states the first demo can be in: the child is on the screen and
    the switch is off, or the boundary holds the error of [BuggyComponent]. *)
Lemma demo_states (clicks : list click) :
  (triggerError (run clicks) = false
   /\ Boundary.error (boundary (run clicks)) = None)
  \/ Boundary.error (boundary (run clicks)) = Some buggy_error.
Proof.
  unfold run.
  assert (H0 : (triggerError mount = false
                /\ Boundary.error (boundary mount) = None)
               \/ Boundary.error (boundary mount) = Some buggy_error)
    by (left; split; reflexivity).
  revert H0. generalize mount.
  induction clicks as [|c clicks IH]; intros st Hst; [exact Hst|].
  cbn [List.fold_left]. apply IH.
  destruct st as [t [e] con]. cbn in Hst.
  destruct Hst as [[-> ->] | ->]; destruct c; cbn; auto; destruct t; cbn; auto.
Qed.

Lemma toggle_keeps_error (st : state) :
  Boundary.error (boundary st) = Some buggy_error ->
  Boundary.error (boundary (handle st Toggle)) = Some buggy_error.
Proof.
  destruct st as [t [e] con]. cbn. intros ->. reflexivity.
Qed.

Lemma toggles_keep_error (n : nat) (st : state) :
  Boundary.error (boundary st) = Some buggy_error ->
  Boundary.error (boundary (Nat.iter n (fun s => handle s Toggle) st))
  = Some buggy_error.
Proof.
  intros Hst. induction n as [|n IH]; [exact Hst|].
  change (Nat.iter (S n) (fun s => handle s Toggle) st)
    with (handle (Nat.iter n (fun s => handle s Toggle) st) Toggle).
  now apply toggle_keeps_error.
Qed.

(** X10.  In the error-boundary demo, after any clicks, either the child is
    on the screen, the switch is off and one click on the switch brings the
    fallback with the message of [BuggyComponent]; or the fallback is on the
    screen with that message and stays there however often the switch is
    clicked, 'Fix Component' included.  In both cases the screen after
    'Reset and Try Again' is the child, and an error never goes uncaught. *)
Theorem fallback_stays_until_reset (clicks : list click) :
  ((shown (run clicks) = Rendered_successfully
    /\ triggerError (run clicks) = false
    /\ shown (handle (run clicks) Toggle)
       = Error_caught (err_message buggy_error))
   \/ (shown (run clicks) = Error_caught (err_message buggy_error)
       /\ forall n,
            shown (Nat.iter n (fun s => handle s Toggle) (run clicks))
            = Error_caught (err_message buggy_error)))
  /\ shown (handle (run clicks) ResetAndTryAgain) = Rendered_successfully.
Proof.
  destruct (demo_states clicks) as [[Ht He] | He].
  - split.
    + left. destruct (run clicks) as [t [e] con]. cbn in Ht, He. subst.
      repeat split.
    + destruct (run clicks) as [t [e] con]. cbn in Ht, He. subst. reflexivity.
  - split.
    + right. split.
      * destruct (run clicks) as [t [e] con]. cbn in He. subst. reflexivity.
      * intros n. pose proof (@toggles_keep_error n _ He) as Hn. revert Hn.
        generalize (Nat.iter n (fun s => handle s Toggle) (run clicks)).
        intros [t [e] con]. cbn. intros ->. reflexivity.
    + destruct (run clicks) as [t [e] con]. cbn in He. subst. reflexivity.
Qed.

End ErrorHandlingDemoFacts.

Section AsyncBuggyComponentFacts.

Import AsyncBuggyComponent.

Lemma existsb_snoc {A} (f : A -> bool) (l : list A) (a : A) :
  existsb f (l ++ [a]) = existsb f l || f a.
Proof. rewrite existsb_app. cbn. now rewrite orb_false_r. Qed.

Lemma fetchData_steps (events : list event) (c : component)
    (ended waiting : list bool) :
  pending c = List.map (fun shouldError => snd (fetchData shouldError)) waiting ->
  data (view c) = (if existsb negb ended then Some data_loaded else None) ->
  error (view c) = None \/ error (view c) = Some fetch_failed ->
  let c' := List.fold_left step events c in
  let ended' := fst (ended_and_waiting ended waiting events) in
  let waiting' := snd (ended_and_waiting ended waiting events) in
  pending c' = List.map (fun shouldError => snd (fetchData shouldError)) waiting'
  /\ data (view c') = (if existsb negb ended' then Some data_loaded else None)
  /\ (error (view c') = None \/ error (view c') = Some fetch_failed).
Proof.
  revert c ended waiting.
  induction events as [|ev events IH]; intros c ended waiting Hp Hd He.
  - cbn. auto.
  - cbn [List.fold_left ended_and_waiting].
    destruct ev as [shouldError|].
    + apply IH.
      * cbn. rewrite Hp, map_app. reflexivity.
      * exact Hd.
      * left. reflexivity.
    + destruct waiting as [|call others].
      * cbn in Hp. cbn [step]. rewrite Hp. apply IH; [now rewrite Hp | exact Hd | exact He].
      * cbn [List.map] in Hp. cbn [step]. rewrite Hp.
        destruct call.
        -- apply IH; cbn.
           ++ reflexivity.
           ++ rewrite existsb_snoc. cbn. now rewrite orb_false_r.
           ++ right. reflexivity.
        -- apply IH; cbn.
           ++ reflexivity.
           ++ rewrite existsb_snoc. cbn. now rewrite orb_true_r.
           ++ exact He.
Qed.

(** X11.  [AsyncBuggyComponent], through any clicks on its button and any
    timers firing: the success box is shown exactly when some call of
    [fetchData] has ended well, and is never taken away again, not by a
    later failure either; the error box, when shown, holds the error of the
    failed fetch; and no call that is still waiting will end in a rejection,
    the failure being caught inside. *)
Theorem fetchData_outcomes (events : list event) :
  let ended := fst (ended_and_waiting [] [] events) in
  let waiting := snd (ended_and_waiting [] [] events) in
  data (view (run events))
  = (if existsb negb ended then Some data_loaded else None)
  /\ (error (view (run events)) = None
      \/ error (view (run events)) = Some fetch_failed)
  /\ pending (run events)
     = List.map (fun shouldError => snd (fetchData shouldError)) waiting
  /\ Forall (fun call => exists update, settlement call = Normal update
                                        /\ delays call = [1000])
       (pending (run events)).
Proof.
  intros ended waiting. unfold run.
  destruct (@fetchData_steps events (mkComponent (mkState None None) []) [] [])
    as (Hp & Hd & He); try reflexivity; [now left|].
  fold ended in Hd. fold waiting in Hp.
  repeat split; try assumption.
  rewrite Hp. apply Forall_forall. intros call Hin.
  apply in_map_iff in Hin as (b & <- & _).
  destruct b; cbn; eexists; split; reflexivity.
Qed.

End AsyncBuggyComponentFacts.

Section ViewTransitionsDemoFacts.

Import ViewTransitionsDemo.

Variable Host : Type.
Variable document : ViewTransition.document_t state Host.
Hypothesis document_ok : ViewTransition.platform document.





End ViewTransitionsDemoFacts.


(** ** Timers that resolve promises *)

Section ResolveFacts.

Variables V St Timeout Reaction : Type.
Variable run_timeout : Timeout -> Z -> St -> St.
Variable run_reaction : Reaction -> V -> Z -> St -> St.

Import Runtime.

Lemma replace_nth_length {A} (n : nat) (a : A) (l : list A) :
  List.length (replace_nth n a l) = List.length l.
Proof.
  revert n. induction l as [|x l IH]; intros [|n]; simpl; auto.
Qed.

Lemma nth_error_replace_nth_other {A} (n m : nat) (a : A) (l : list A) :
  n <> m -> nth_error (replace_nth n a l) m = nth_error l m.
Proof.
  revert n m. induction l as [|x l IH]; intros [|n] [|m] H; simpl; auto.
  exfalso. now apply H.
Qed.

Lemma nth_error_replace_nth_same {A} (n : nat) (a : A) (l : list A) :
  (n < List.length l)%nat -> nth_error (replace_nth n a l) n = Some a.
Proof.
  revert n. induction l as [|x l IH]; intros [|n] H; simpl in *;
    try lia; auto.
  apply IH. lia.
Qed.

(** What firing a timer that resolves promise [p] does to the promises. *)
Lemma fire_resolve_promises (t : timer V Timeout) (p : nat) (v : V)
    (w : world V St Timeout Reaction) :
  action t = Resolve p v ->
  promises (fire run_timeout run_reaction t w)
  = match nth_error (promises w) p with
    | Some (mkPromise Pending _) =>
        replace_nth p (mkPromise (Fulfilled v) []) (promises w)
    | _ => promises w
    end.
Proof.
  intros Ha. unfold fire. rewrite exec_task, Ha. cbn [run_callback].
  change (promises (exec (drain run_reaction) ?x)) with (promises x).
  unfold exec, settle. cbn [promises].
  destruct (nth_error (promises w) p) as [[[| |] ?]|]; reflexivity.
Qed.

Lemma fire_resolve_length (t : timer V Timeout) (p : nat) (v : V)
    (w : world V St Timeout Reaction) :
  action t = Resolve p v ->
  List.length (promises (fire run_timeout run_reaction t w))
  = List.length (promises w).
Proof.
  intros Ha. rewrite (@fire_resolve_promises t p v w Ha).
  destruct (nth_error (promises w) p) as [[[| |] ?]|];
    auto using replace_nth_length.
Qed.

Lemma fire_resolve_other (t : timer V Timeout) (p q : nat) (v : V)
    (w : world V St Timeout Reaction) :
  action t = Resolve p v -> p <> q ->
  state_of (fire run_timeout run_reaction t w) q = state_of w q.
Proof.
  intros Ha Hpq. unfold state_of. rewrite (@fire_resolve_promises t p v w Ha).
  destruct (nth_error (promises w) p) as [[[| |] ?]|]; try reflexivity.
  now rewrite nth_error_replace_nth_other.
Qed.

Lemma fire_resolve_pending (t : timer V Timeout) (p : nat) (v : V)
    (w : world V St Timeout Reaction) :
  action t = Resolve p v -> state_of w p = Some Pending ->
  state_of (fire run_timeout run_reaction t w) p = Some (Fulfilled v).
Proof.
  intros Ha Hp. unfold state_of in *. rewrite (@fire_resolve_promises t p v w Ha).
  destruct (nth_error (promises w) p) as [[[| |] ?]|] eqn:Hn;
    try discriminate.
  rewrite nth_error_replace_nth_same; [reflexivity|].
  apply nth_error_Some. congruence.
Qed.

Lemma fire_resolve_settled (t : timer V Timeout) (p q : nat) (v v' : V)
    (w : world V St Timeout Reaction) :
  action t = Resolve p v -> state_of w q = Some (Fulfilled v') ->
  state_of (fire run_timeout run_reaction t w) q = Some (Fulfilled v').
Proof.
  intros Ha Hq. destruct (Nat.eq_dec p q) as [-> | Hne].
  - unfold state_of in *. rewrite (@fire_resolve_promises t q v w Ha).
    destruct (nth_error (promises w) q) as [[[| |] ?]|] eqn:Hn;
      try discriminate; rewrite Hn; exact Hq.
  - now rewrite (@fire_resolve_other t p q v w Ha Hne).
Qed.

(** A property of the loop that firing the next timer keeps, and that does
    not depend on the clock, is kept while the clock advances. *)
Lemma advance_to_invariant (P : world V St Timeout Reaction -> Prop)
    (target : Z) (w : world V St Timeout Reaction) :
  (forall w t, P w -> earliest (timers w) = Some t ->
               P (fire run_timeout run_reaction t w)) ->
  (forall w n, P w ->
     P (mkWorld n (timers w) (next_timer w) (promises w) (settle_calls w)
                (microtasks w) (page w))) ->
  P w -> P (advance_to run_timeout run_reaction target w).
Proof.
  intros Hfire Hclock Hw. unfold advance_to. apply Hclock.
  induction (work w) as [|n IH]; simpl; [exact Hw|].
  unfold turn at 1.
  destruct (earliest (timers (Nat.iter n (turn run_timeout run_reaction target) w)))
    as [t|] eqn:He; [|exact IH].
  destruct (Z.leb (due t) target); [|exact IH].
  now apply Hfire.
Qed.

End ResolveFacts.

Section UseHookDemoFacts.

Import Runtime UseHookDemo.

Lemma no_jobs (jobs : list (Empty_set * UseDemo.Post)) : jobs = [].
Proof. destruct jobs as [|[[] ?] ?]. reflexivity. Qed.

Lemma fire_resolve_page (t : timer UseDemo.Post Empty_set) (w : world) :
  page (fire no_timeout no_reaction t w) = page w.
Proof.
  unfold fire. rewrite exec_task.
  set (w1 := mkWorld _ _ _ _ _ _ _).
  unfold exec at 1, drain. cbn [snd page].
  rewrite (no_jobs (microtasks (exec (run_callback no_timeout (action t)) w1))).
  cbn [List.fold_left].
  destruct (action t) as [p v|p e|p k|[]]; cbn [run_callback].
  - now rewrite (proj2 (proj2 (proj2 (settle_frame p (Normal v) w1)))).
  - now rewrite (proj2 (proj2 (proj2 (settle_frame p (Throw e) w1)))).
  - destruct k as [v|e|ms k]; cbn [drive].
    + now rewrite (proj2 (proj2 (proj2 (settle_frame p (Normal v) w1)))).
    + now rewrite (proj2 (proj2 (proj2 (settle_frame p (Throw e) w1)))).
    + reflexivity.
Qed.

Lemma loadPost_exec (id : Z) (w : world) :
  exec (task no_reaction (loadPost id)) w
  = mkWorld (now w)
      (timers w ++ [mkTimer (next_timer w) (now w + 1000)
                      (Resolve (List.length (promises w)) (UseDemo.post_of id))])
      (S (next_timer w))
      (promises w ++ [mkPromise Pending []])
      (settle_calls w) []
      (mkState id (List.length (promises w))).
Proof.
  rewrite exec_task. unfold exec at 1, drain. cbn [snd].
  rewrite (no_jobs (microtasks (exec (loadPost id) w))).
  reflexivity.
Qed.

Lemma mount_world (t0 : Z) :
  mount t0
  = mkWorld t0 [mkTimer 0 (t0 + 1000) (Resolve 0 (UseDemo.post_of 1))] 1
      [mkPromise Pending []] [] [] (mkState 1 0).
Proof. reflexivity. Qed.

Lemma post_on_its_way_later (d d' : Z) (w : world) :
  d <= d' -> post_on_its_way d w -> post_on_its_way d' w.
Proof.
  intros Hd (Hnd & Hlt & Hres & Hcur). repeat split; try assumption.
  destruct Hcur as [Hf | (Hp & t & Hin & Ha & Hdue)]; [now left|].
  right. split; [exact Hp|]. exists t. repeat split; try assumption. lia.
Qed.

Lemma post_on_its_way_fire (d : Z) (t : timer UseDemo.Post Empty_set) (w : world) :
  post_on_its_way d w -> In t (timers w) ->
  post_on_its_way d (fire no_timeout no_reaction t w).
Proof.
  intros (Hnd & Hlt & Hres & Hcur) Hin.
  destruct (Hres t Hin) as (p & v & Ha & Hp & Hv).
  assert (Hnr : forall p k, action t <> Resume p k)
    by (intros; rewrite Ha; discriminate).
  destruct (@fire_timers _ _ _ _ no_timeout no_reaction t w Hnr) as [Ht Hn].
  unfold post_on_its_way. cbn zeta.
  rewrite Ht, Hn, fire_resolve_page.
  erewrite fire_resolve_length by exact Ha.
  split; [now apply NoDup_map_filter|].
  split.
  { intros t' Hin'. apply filter_In in Hin' as [Hin' _]. auto. }
  split.
  { intros t' Hin'. apply filter_In in Hin' as [Hin' _]. auto. }
  destruct Hcur as [Hf | (Hpend & t0 & Hin0 & Ha0 & Hdue)].
  - left. eapply fire_resolve_settled; eassumption.
  - destruct (Nat.eq_dec p (postPromise (page w))) as [Heq | Hne].
    + left. rewrite <- Heq in *. rewrite <- (Hv eq_refl).
      now apply fire_resolve_pending.
    + right. split.
      * erewrite fire_resolve_other; eassumption.
      * exists t0. repeat split; try assumption.
        apply filter_In. split; [exact Hin0|].
        apply negb_true_iff, Nat.eqb_neq. intros Htid.
        assert (t0 = t) by (eapply NoDup_map_injective; eauto).
        subst t0. rewrite Ha in Ha0. injection Ha0 as Hp0 _. contradiction.
Qed.

Lemma post_on_its_way_clock (d n : Z) (w : world) :
  post_on_its_way d w ->
  post_on_its_way d
    (mkWorld n (timers w) (next_timer w) (promises w) (settle_calls w)
             (microtasks w) (page w)).
Proof. auto. Qed.

Lemma post_on_its_way_wait (ms : N) (w : world) :
  post_on_its_way (now w + 1000) w ->
  let w' := wait no_timeout no_reaction ms w in
  post_on_its_way (now w' + 1000) w'
  /\ (1000 <= Z.of_N ms ->
      state_of w' (postPromise (page w'))
      = Some (Fulfilled (UseDemo.post_of (postId (page w'))))).
Proof.
  intros Hw. cbn zeta. unfold wait.
  set (w' := advance_to no_timeout no_reaction (now w + Z.of_N ms) w).
  assert (Hnow : now w' = now w + Z.of_N ms)
    by (apply advance_to_now; lia).
  assert (H' : post_on_its_way (now w + 1000) w').
  { apply advance_to_invariant; auto.
    intros w0 t Hw0 He. apply post_on_its_way_fire; [exact Hw0|].
    now apply earliest_In. }
  split.
  - apply post_on_its_way_later with (d := now w + 1000); [lia | exact H'].
  - intros Hms. destruct H' as (_ & _ & _ & [Hf | (_ & t & Hin & _ & Hdue)]).
    + exact Hf.
    + apply advance_to_complete in Hin. lia.
Qed.

Lemma post_on_its_way_loadPost (id : Z) (w : world) :
  post_on_its_way (now w + 1000) w ->
  let w' := exec (task no_reaction (loadPost id)) w in
  post_on_its_way (now w' + 1000) w'.
Proof.
  intros (Hnd & Hlt & Hres & _). cbn zeta. rewrite loadPost_exec.
  unfold post_on_its_way, state_of.
  cbn [timers next_timer promises page now postId postPromise].
  split.
  { rewrite map_app. cbn [List.map tid].
    apply NoDup_app; [exact Hnd | repeat constructor; auto |].
    intros x Hx [<- | []]. apply in_map_iff in Hx as (t & Htid & Hin).
    specialize (Hlt t Hin). lia. }
  split.
  { intros t Hin. apply in_app_iff in Hin as [Hin | [<- | []]].
    - specialize (Hlt t Hin). lia.
    - cbn. lia. }
  split.
  { intros t Hin. rewrite length_app. cbn [List.length].
    apply in_app_iff in Hin as [Hin | [<- | []]].
    - destruct (Hres t Hin) as (p & v & Ha & Hp & _).
      exists p, v. repeat split; [exact Ha | lia | lia].
    - eexists _, _. cbn [action]. repeat split. lia. }
  right. split.
  { now rewrite nth_error_last. }
  eexists. split; [apply in_app_iff; right; left; reflexivity|].
  cbn [action due]. split; [reflexivity | lia].
Qed.

Lemma post_on_its_way_mount (t0 : Z) :
  post_on_its_way (now (mount t0) + 1000) (mount t0).
Proof.
  rewrite mount_world. unfold post_on_its_way, state_of.
  cbn [timers next_timer promises page now postId postPromise].
  split; [repeat constructor; auto|].
  split; [intros t [<- | []]; cbn; lia|].
  split.
  { intros t [<- | []]. eexists _, _. cbn. repeat split. lia. }
  right. split; [reflexivity|].
  eexists. split; [left; reflexivity|]. cbn. split; [reflexivity | lia].
Qed.

Lemma post_on_its_way_run (inputs : list input) (w : world) :
  post_on_its_way (now w + 1000) w ->
  post_on_its_way (now (run inputs w) + 1000) (run inputs w).
Proof.
  revert w. induction inputs as [|i inputs IH]; intros w Hw; [exact Hw|].
  cbn [run List.fold_left]. apply IH. destruct i as [id|ms]; cbn [step].
  - now apply post_on_its_way_loadPost.
  - now apply post_on_its_way_wait.
Qed.

(** X13.  In the [use()] demo, through any clicks on the buttons and any
    waits: what [Post] shows is the fallback or the post whose id is the
    current [postId], never a post asked for earlier and never an error;
    and once a second has passed without a click, the post of the current
    [postId] is shown. *)
Theorem post_shown_is_current (t0 : Z) (inputs : list input) (more : N) :
  let w := run inputs (mount t0) in
  (shown w = Loading_post
   \/ shown w = Post_shown (UseDemo.post_of (postId (page w))))
  /\ shown (step w (Wait (1000 + more)))
     = Post_shown (UseDemo.post_of (postId (page w))).
Proof.
  intros w.
  assert (Hw : post_on_its_way (now w + 1000) w)
    by apply post_on_its_way_run, post_on_its_way_mount.
  split.
  - destruct Hw as (_ & _ & _ & [Hf | [Hp _]]); unfold shown.
    + right. now rewrite Hf.
    + left. now rewrite Hp.
  - destruct (post_on_its_way_wait (1000 + more) Hw) as [_ Hdone].
    cbn [step]. unfold shown. rewrite Hdone by lia.
    f_equal. f_equal. f_equal.
    unfold wait, advance_to. cbn [page].
    induction (work w) as [|n IH]; simpl; [reflexivity|].
    unfold turn at 1.
    destruct (earliest _) as [t|]; [|exact IH].
    destruct (Z.leb _ _); [|exact IH].
    now rewrite fire_resolve_page.
Qed.

End UseHookDemoFacts.

Section SearchResultsFacts.

Import Runtime SearchResults.

Lemma earliest_sorted {V Timeout : Type} (t : timer V Timeout)
    (rest : list (timer V Timeout)) :
  ForallOrdPairs (fun a b => due a <= due b) (t :: rest) ->
  earliest (t :: rest) = Some t.
Proof.
  intros Hs. inversion Hs as [|? ? Hall _]; subst.
  cbn [earliest]. destruct (earliest rest) as [t'|] eqn:He; [|reflexivity].
  apply earliest_In in He. rewrite Forall_forall in Hall.
  specialize (Hall t' He).
  destruct (Z.ltb_spec (due t') (due t)); [lia | reflexivity].
Qed.

Lemma filter_out_head {V Timeout : Type} (t : timer V Timeout)
    (rest : list (timer V Timeout)) :
  NoDup (List.map (@tid _ _) (t :: rest)) ->
  List.filter (fun t' => negb (Nat.eqb (tid t') (tid t))) (t :: rest) = rest.
Proof.
  intros Hnd. cbn [List.filter]. rewrite Nat.eqb_refl. cbn [negb].
  inversion Hnd as [|? ? Hnin _]; subst. clear Hnd.
  induction rest as [|a rest IH]; [reflexivity|].
  cbn [List.filter].
  destruct (Nat.eqb_spec (tid a) (tid t)) as [Heq | _].
  - exfalso. apply Hnin. left. exact Heq.
  - cbn [negb]. f_equal. apply IH. intros Hin. apply Hnin. now right.
Qed.

Lemma ForallOrdPairs_snoc {A} (R : A -> A -> Prop) (l : list A) (x : A) :
  ForallOrdPairs R l -> (forall a, In a l -> R a x) ->
  ForallOrdPairs R (l ++ [x]).
Proof.
  induction 1 as [|a l Hall Hl IH]; intros Hx; cbn.
  - repeat constructor.
  - constructor.
    + apply Forall_app. split; [exact Hall|].
      constructor; [apply Hx; now left | constructor].
    + apply IH. intros b Hb. apply Hx. now right.
Qed.

(** Firing the timer of a search: its promise is fulfilled and the rest of
    the search puts the results on the screen. *)
Lemma fire_search (t : timer (list jsstring) Empty_set) (p : nat)
    (v : list jsstring) (w : world) :
  action t = Resolve p v ->
  nth_error (promises w) p = Some (mkPromise Pending [SetResults]) ->
  microtasks w = [] ->
  fire no_timeout run_reaction t w
  = mkWorld (Z.max (now w) (due t))
      (List.filter (fun t' => negb (Nat.eqb (tid t') (tid t))) (timers w))
      (next_timer w)
      (replace_nth p (mkPromise (Fulfilled v) []) (promises w))
      (settle_calls w ++ [(p, Normal v)]) []
      (mkState v).
Proof.
  intros Ha Hn Hm.
  unfold fire, task, exec, bind, ret, drain. rewrite Ha.
  cbn [run_callback]. unfold settle. cbn [promises]. rewrite Hn.
  cbn. rewrite Hm. reflexivity.
Qed.

Lemma search_exec (q : jsstring) (w : world) :
  microtasks w = [] ->
  exec (task run_reaction (search q)) w
  = mkWorld (now w)
      (timers w ++ [mkTimer (next_timer w) (now w + 1000)
                      (Resolve (List.length (promises w)) (results_for q))])
      (S (next_timer w))
      (promises w ++ [mkPromise Pending [SetResults]])
      (settle_calls w) []
      (page w).
Proof.
  intros Hm.
  unfold task, search, fetchData, new_Promise, exec, bind, ret, drain,
    setTimeout, then_.
  cbn [fst snd promises now timers next_timer settle_calls microtasks page].
  rewrite nth_error_last. cbn [fst snd]. rewrite replace_nth_last, Hm.
  reflexivity.
Qed.

Lemma searching_later (typed : list jsstring) (d d' : Z) (w : world) :
  d <= d' -> searching typed d w -> searching typed d' w.
Proof.
  intros Hd (H1 & H2 & H3 & H4 & H5 & H6 & H7 & H8 & H9).
  repeat split; try assumption.
  intros t Hin. specialize (H4 t Hin). lia.
Qed.

Lemma searching_turn (typed : list jsstring) (d : Z)
    (t : timer (list jsstring) Empty_set) (w : world) :
  searching typed d w -> earliest (timers w) = Some t ->
  searching typed d (fire no_timeout run_reaction t w).
Proof.
  intros (H1 & H2 & H3 & H4 & H5 & H6 & H7 & H8 & H9) He.
  destruct (timers w) as [|t0 rest] eqn:Hts; [discriminate|].
  rewrite (earliest_sorted H3) in He. injection He as <-.
  destruct (H6 t0 (or_introl eq_refl)) as (q & Hq & Ha & Hn).
  rewrite (@fire_search t0 _ _ w Ha Hn H7).
  unfold searching, outcome.
  cbn [timers next_timer promises microtasks page results].
  rewrite Hts, (filter_out_head H1).
  inversion H1 as [|? ? Hnin1 Hnd1]; subst.
  inversion H3 as [|? ? _ Hs]; subst.
  inversion H5 as [|? ? Hnin5 Hnd5]; subst.
  split; [exact Hnd1|].
  split; [intros t Hin; apply H2; now right|].
  split; [exact Hs|].
  split; [intros t Hin; apply H4; now right|].
  split; [exact Hnd5|].
  split.
  { intros t Hin. destruct (H6 t (or_intror Hin)) as (q' & Hq' & Ha' & Hn').
    exists q'. repeat split; try assumption.
    rewrite nth_error_replace_nth_other; [exact Hn'|].
    intros Heq. apply Hnin5. rewrite Heq. now apply in_map. }
  split; [reflexivity|].
  split.
  { rewrite <- H8. unfold outcome. rewrite Hts. cbn [List.map].
    rewrite last_cons. f_equal. unfold carried. now rewrite Ha. }
  right. exists q. split; [exact Hq | reflexivity].
Qed.

Lemma searching_clock (typed : list jsstring) (d n : Z) (w : world) :
  searching typed d w ->
  searching typed d
    (mkWorld n (timers w) (next_timer w) (promises w) (settle_calls w)
             (microtasks w) (page w)).
Proof. auto. Qed.

Lemma searching_wait (typed : list jsstring) (ms : N) (w : world) :
  searching typed (now w + 1000) w ->
  let w' := wait no_timeout run_reaction ms w in
  searching typed (now w' + 1000) w'
  /\ (1000 <= Z.of_N ms ->
      results (page w') = List.last (List.map results_for typed) []).
Proof.
  intros Hw. cbn zeta. unfold wait.
  set (w' := advance_to no_timeout run_reaction (now w + Z.of_N ms) w).
  assert (Hnow : now w' = now w + Z.of_N ms)
    by (apply advance_to_now; lia).
  assert (H' : searching typed (now w + 1000) w').
  { apply advance_to_invariant; auto using searching_turn. }
  split.
  - apply searching_later with (d := now w + 1000); [lia | exact H'].
  - intros Hms. destruct H' as (_ & _ & _ & H4 & _ & _ & _ & H8 & _).
    rewrite <- H8. unfold outcome.
    destruct (timers w') as [|t rest] eqn:Hts; [reflexivity|].
    assert (Hin : In t (timers w')) by (rewrite Hts; now left).
    specialize (H4 t (or_introl eq_refl)).
    apply advance_to_complete in Hin. lia.
Qed.

Lemma searching_search (typed : list jsstring) (q : jsstring) (w : world) :
  searching typed (now w + 1000) w ->
  let w' := exec (task run_reaction (search q)) w in
  searching (typed ++ [q]) (now w' + 1000) w'.
Proof.
  intros (H1 & H2 & H3 & H4 & H5 & H6 & H7 & H8 & H9). cbn zeta.
  rewrite (@search_exec q w H7). unfold searching, outcome.
  cbn [timers next_timer promises microtasks page now].
  assert (Hold : forall t, In t (timers w) ->
                           (resolved t < List.length (promises w))%nat).
  { intros t Hin. destruct (H6 t Hin) as (_ & _ & _ & Hn).
    apply nth_error_Some. congruence. }
  split.
  { rewrite map_app. cbn [List.map tid].
    apply NoDup_app; [exact H1 | repeat constructor; auto |].
    intros x Hx [<- | []]. apply in_map_iff in Hx as (t & Htid & Hin).
    specialize (H2 t Hin). lia. }
  split.
  { intros t Hin. apply in_app_iff in Hin as [Hin | [<- | []]].
    - specialize (H2 t Hin). lia.
    - cbn. lia. }
  split.
  { apply ForallOrdPairs_snoc; [exact H3|]. intros a Hin. cbn [due].
    now apply H4. }
  split.
  { intros t Hin. apply in_app_iff in Hin as [Hin | [<- | []]].
    - now apply H4.
    - cbn. lia. }
  split.
  { rewrite map_app. cbn [List.map]. unfold resolved at 2. cbn [action].
    apply NoDup_app; [exact H5 | repeat constructor; auto |].
    intros x Hx [<- | []]. apply in_map_iff in Hx as (t & Hres & Hin).
    specialize (Hold t Hin). lia. }
  split.
  { intros t Hin. apply in_app_iff in Hin as [Hin | [<- | []]].
    - destruct (H6 t Hin) as (q' & Hq' & Ha' & Hn').
      exists q'. split; [apply in_app_iff; now left|]. split; [exact Ha'|].
      rewrite nth_error_app1 by now apply Hold. exact Hn'.
    - exists q. split; [apply in_app_iff; right; now left|].
      unfold resolved. cbn [action]. split; [reflexivity|].
      apply nth_error_last. }
  split; [reflexivity|].
  split.
  { rewrite !map_app. cbn [List.map]. rewrite !last_last.
    unfold carried. reflexivity. }
  destruct H9 as [H9 | (q' & Hq' & H9)]; [now left|].
  right. exists q'. split; [apply in_app_iff; now left | exact H9].
Qed.

Lemma searching_mount (t0 : Z) : searching [] (now (mount t0) + 1000) (mount t0).
Proof.
  unfold searching, outcome, mount, idle. cbn.
  split; [constructor|]. split; [contradiction|].
  split; [constructor|]. split; [contradiction|].
  split; [constructor|]. split; [contradiction|].
  auto.
Qed.

Lemma searching_run (inputs : list input) (typed : list jsstring) (w : world) :
  searching typed (now w + 1000) w ->
  searching (typed ++ queries inputs) (now (run inputs w) + 1000) (run inputs w).
Proof.
  revert typed w. induction inputs as [|i inputs IH]; intros typed w Hw.
  - cbn. now rewrite app_nil_r.
  - cbn [run List.fold_left queries]. destruct i as [q|ms]; cbn [step].
    + replace (typed ++ q :: queries inputs)
        with ((typed ++ [q]) ++ queries inputs)
        by (rewrite <- app_assoc; reflexivity).
      apply IH. now apply searching_search.
    + apply IH. now apply searching_wait.
Qed.

(** X14.  The search box of the async-transitions demo, through any
    changes of its text and any waits: the results on the screen are none,
    or those for a text that was typed; and once a second has passed
    without a change, they are the results for the last text typed (none
    when nothing was typed), whatever searches were under way. *)
Theorem last_search_wins (t0 : Z) (inputs : list input) (more : N) :
  let w := run inputs (mount t0) in
  (results (page w) = []
   \/ exists q, In q (queries inputs) /\ results (page w) = results_for q)
  /\ results (page (step w (Wait (1000 + more))))
     = List.last (List.map results_for (queries inputs)) [].
Proof.
  intros w.
  assert (Hw : searching (queries inputs) (now w + 1000) w)
    by apply (@searching_run inputs [] (mount t0)), searching_mount.
  split.
  - apply Hw.
  - destruct (@searching_wait (queries inputs) (1000 + more) w Hw) as [_ Hdone].
    cbn [step]. apply Hdone. lia.
Qed.

End SearchResultsFacts.

(** ** What the two Suspense components show *)

Section FireFacts.

Variables V St Timeout Reaction : Type.
Variable run_timeout : Timeout -> Z -> St -> St.
Variable run_reaction : Reaction -> V -> Z -> St -> St.

Import Runtime.

(** Firing a timer that resolves a pending promise with one handler. *)
Lemma fire_resolve_one (t : timer V Timeout) (p : nat) (v : V) (r : Reaction)
    (w : world V St Timeout Reaction) :
  action t = Resolve p v ->
  nth_error (promises w) p = Some (mkPromise Pending [r]) ->
  microtasks w = [] ->
  fire run_timeout run_reaction t w
  = mkWorld (Z.max (now w) (due t))
      (List.filter (fun t' => negb (Nat.eqb (tid t') (tid t))) (timers w))
      (next_timer w)
      (replace_nth p (mkPromise (Fulfilled v) []) (promises w))
      (settle_calls w ++ [(p, Normal v)]) []
      (run_reaction r v (Z.max (now w) (due t)) (page w)).
Proof.
  intros Ha Hn Hm.
  unfold fire, task, exec, bind, ret, drain. rewrite Ha.
  cbn [run_callback]. unfold settle. cbn [promises]. rewrite Hn.
  cbn [snd fst now timers next_timer promises settle_calls microtasks page
       List.map List.app].
  rewrite Hm. reflexivity.
Qed.

(** Firing a timer of the page. *)
Lemma fire_page_world (t : timer V Timeout) (h : Timeout)
    (w : world V St Timeout Reaction) :
  action t = Page h -> microtasks w = [] ->
  fire run_timeout run_reaction t w
  = mkWorld (Z.max (now w) (due t))
      (List.filter (fun t' => negb (Nat.eqb (tid t') (tid t))) (timers w))
      (next_timer w) (promises w) (settle_calls w) []
      (run_timeout h (Z.max (now w) (due t)) (page w)).
Proof.
  intros Ha Hm.
  unfold fire, task, exec, bind, ret, drain, update. rewrite Ha.
  cbn [run_callback snd fst now timers next_timer promises settle_calls
       microtasks page].
  rewrite Hm. reflexivity.
Qed.

(** While the clock advances: what firing the next timer keeps holds when
    no timer due by the target is left, and then the clock is set. *)
Lemma advance_to_reaches (P Q : world V St Timeout Reaction -> Prop)
    (target : Z) (w : world V St Timeout Reaction) :
  (forall w t, P w -> earliest (timers w) = Some t -> due t <= target ->
               P (fire run_timeout run_reaction t w)) ->
  (forall w, P w -> (forall t, In t (timers w) -> target < due t) ->
     Q (mkWorld (Z.max (now w) target) (timers w) (next_timer w) (promises w)
                (settle_calls w) (microtasks w) (page w))) ->
  P w -> Q (advance_to run_timeout run_reaction target w).
Proof.
  intros Hfire Hend Hw. unfold advance_to. apply Hend.
  - induction (work w) as [|n IH]; simpl; [exact Hw|].
    unfold turn at 1.
    destruct (earliest (timers (Nat.iter n (turn run_timeout run_reaction target) w)))
      as [t|] eqn:He; [|exact IH].
    destruct (Z.leb_spec (due t) target); [|exact IH].
    now apply Hfire.
  - intros t Hin.
    now apply (@iter_turn_complete _ _ _ _ run_timeout run_reaction target
                 (work w) w (Nat.le_refl _)).
Qed.

Lemma targets_filter (f : timer V Timeout -> bool) (ts : list (timer V Timeout)) :
  NoDup (targets ts) -> NoDup (targets (List.filter f ts)).
Proof.
  unfold targets. induction ts as [|t ts IH]; cbn; [auto|].
  intros Hnd. apply NoDup_app_remove_l in Hnd as Hts.
  destruct (f t); cbn; [|auto].
  destruct (action t) as [p v| | |]; cbn in *; auto.
  inversion Hnd as [|? ? Hnin _]; subst. constructor; [|auto].
  intros Hin. apply Hnin.
  apply in_flat_map in Hin as (t' & Hin' & Hp).
  apply filter_In in Hin' as [Hin' _].
  apply in_flat_map. now exists t'.
Qed.

Lemma In_targets (ts : list (timer V Timeout)) (t : timer V Timeout)
    (p : nat) (v : V) :
  In t ts -> action t = Resolve p v -> In p (targets ts).
Proof.
  intros Hin Ha. unfold targets. apply in_flat_map. exists t.
  split; [exact Hin|]. rewrite Ha. now left.
Qed.

(** Two timers that resolve the same promise are one timer. *)
Lemma targets_injective (ts : list (timer V Timeout)) (a b : timer V Timeout)
    (p : nat) (va vb : V) :
  NoDup (targets ts) -> In a ts -> In b ts ->
  action a = Resolve p va -> action b = Resolve p vb -> a = b.
Proof.
  induction ts as [|t ts IH]; intros Hnd Ha Hb Haa Hab; [contradiction|].
  unfold targets in Hnd. cbn [List.flat_map] in Hnd.
  fold (targets ts) in Hnd.
  apply NoDup_app_remove_l in Hnd as Hts.
  destruct Ha as [-> | Ha], Hb as [-> | Hb]; auto.
  - exfalso. rewrite Haa in Hnd. inversion Hnd as [|? ? Hnin _]; subst.
    apply Hnin. eapply In_targets; eauto.
  - exfalso. rewrite Hab in Hnd. inversion Hnd as [|? ? Hnin _]; subst.
    apply Hnin. eapply In_targets; eauto.
Qed.

End FireFacts.

Section SuspenseViewFacts.

Import Runtime Suspense SuspenseView.

Lemma reaction_keeps_19 (r : Reaction) (v : Value) (n : Z) (pg : Page) :
  R19.userPromise (react19 (run_reaction r v n pg)) = R19.userPromise (react19 pg)
  /\ R19.postsPromise (react19 (run_reaction r v n pg))
     = R19.postsPromise (react19 pg)
  /\ R19.commentsPromise (react19 (run_reaction r v n pg))
     = R19.commentsPromise (react19 pg)
  /\ R19.startTimeRef (react19 (run_reaction r v n pg))
     = R19.startTimeRef (react19 pg).
Proof. destruct r; cbn; auto. Qed.

Lemma timeout_keeps_19 (h : Timeout) (n : Z) (pg : Page) :
  R19.userPromise (react19 (run_timeout h n pg)) = R19.userPromise (react19 pg)
  /\ R19.postsPromise (react19 (run_timeout h n pg))
     = R19.postsPromise (react19 pg)
  /\ R19.commentsPromise (react19 (run_timeout h n pg))
     = R19.commentsPromise (react19 pg)
  /\ R19.startTimeRef (react19 (run_timeout h n pg))
     = R19.startTimeRef (react19 pg)
  /\ R18.startTimeRef (react18 (run_timeout h n pg))
     = R18.startTimeRef (react18 pg).
Proof. destruct h; cbn; auto. Qed.

Lemma has_data_reaction (r r' : Reaction) (n : Z) (pg : Page) :
  has_data pg r -> has_data (run_reaction r' (awaited r') n pg) r.
Proof. destruct r, r'; cbn; auto. Qed.

Lemma has_data_set (r : Reaction) (n : Z) (pg : Page) :
  of_react18 r -> has_data (run_reaction r (awaited r) n pg) r.
Proof. intros [-> | [-> | ->]]; reflexivity. Qed.

Lemma has_data_timeout (r : Reaction) (h : Timeout) (n : Z) (pg : Page) :
  has_data pg r -> has_data (run_timeout h n pg) r.
Proof. destruct r, h; cbn; auto. Qed.

(** *** From a world to the one after its next timer *)
Section AfterFire.

Variables w w' : world.
Variable t : timer Value Timeout.

Hypothesis Hnd : NoDup (List.map (@tid _ _) (timers w)).
Hypothesis Htg : NoDup (targets (timers w)).
Hypothesis Hin : In t (timers w).
Hypothesis Hts :
  timers w' = List.filter (fun t' => negb (Nat.eqb (tid t') (tid t))) (timers w).
Hypothesis Hnow : now w <= now w' /\ due t <= now w'.
Hypothesis Hs19 : start19 w' = start19 w.
Hypothesis Hs18 : start18 w' = start18 w.
Hypothesis Hpending :
  forall q v, action t = Resolve q v -> state_of w q = Some Pending.
Hypothesis Hother :
  forall q, (forall v, action t <> Resolve q v) ->
            nth_error (promises w') q = nth_error (promises w) q.
Hypothesis Hdone :
  forall q v, action t = Resolve q v -> state_of w' q = Some (Fulfilled v).
Hypothesis Hkeep : forall r, has_data (page w) r -> has_data (page w') r.
Hypothesis Hset :
  forall q r, action t = Resolve q (awaited r) ->
              nth_error (promises w) q = Some (mkPromise Pending [r]) ->
              of_react18 r -> has_data (page w') r.

Lemma stays_after (tm : timer Value Timeout) :
  In tm (timers w) -> tid tm <> tid t -> In tm (timers w').
Proof.
  intros Htm Hne. rewrite Hts. apply filter_In. split; [exact Htm|].
  now apply negb_true_iff, Nat.eqb_neq.
Qed.

Lemma not_resolved_by_fired (tm : timer Value Timeout) (p : nat) (v : Value) :
  In tm (timers w) -> action tm = Resolve p v -> tid tm <> tid t ->
  forall v', action t <> Resolve p v'.
Proof.
  intros Htm Ha Hne v' Hat.
  apply Hne. f_equal. eapply targets_injective; eauto.
Qed.

Lemma fetch_timer_after (tm : timer Value Timeout) :
  In tm (timers w') -> fetch_timer w tm -> fetch_timer w' tm.
Proof.
  rewrite Hts. intros Htm. apply filter_In in Htm as [Htm Hne].
  apply negb_true_iff, Nat.eqb_neq in Hne.
  unfold fetch_timer. destruct (action tm) as [p v| | |] eqn:Ha; auto.
  intros (r & Hn & Hv). exists r. split; [|exact Hv].
  rewrite Hother; [exact Hn|]. eapply not_resolved_by_fired; eauto.
Qed.

Lemma arriving19_after (promise : option nat) (v : Value) (delay : Z) :
  arriving19 w promise v delay -> arriving19 w' promise v delay.
Proof.
  intros (p & Hp & [[Hf Hle] | [Hpend (id & Htm)]]); exists p;
    (split; [exact Hp|]).
  - left. split; [|rewrite Hs19; lia].
    unfold state_of. rewrite Hother; [exact Hf|].
    intros v' Hat. unfold state_of in Hf.
    pose proof (@Hpending p v' Hat) as Hpe. unfold state_of in Hpe.
    congruence.
  - destruct (Nat.eq_dec id (tid t)) as [Heq | Hne].
    + assert (Ht : mkTimer id (start19 w + delay) (Resolve p v) = t)
        by (eapply tid_injective; eauto).
      left. split.
      * apply Hdone. now rewrite <- Ht.
      * rewrite Hs19. destruct Hnow as [_ Hdue]. rewrite <- Ht in Hdue.
        exact Hdue.
    + right. split.
      * unfold state_of. rewrite Hother; [exact Hpend|].
        eapply not_resolved_by_fired; [exact Htm | reflexivity | exact Hne].
      * exists id. rewrite Hs19. now apply stays_after.
Qed.

Lemma arriving18_after (r : Reaction) (delay : Z) :
  of_react18 r -> arriving18 w r delay -> arriving18 w' r delay.
Proof.
  intros Hr [Hthere | (id & p & Htm & Hn)].
  - left. now apply Hkeep.
  - destruct (Nat.eq_dec id (tid t)) as [Heq | Hne].
    + assert (Ht : mkTimer id (start18 w + delay) (Resolve p (awaited r)) = t)
        by (eapply tid_injective; eauto).
      left. apply (@Hset p r); [now rewrite <- Ht | exact Hn | exact Hr].
    + right. exists id, p. split.
      * rewrite Hs18. now apply stays_after.
      * rewrite Hother; [exact Hn|].
        eapply not_resolved_by_fired; [exact Htm | reflexivity | exact Hne].
Qed.

Lemma fetching_after :
  (forall tm, In tm (timers w) -> fetch_timer w tm) ->
  R19.userPromise (react19 (page w')) = R19.userPromise (react19 (page w)) ->
  R19.postsPromise (react19 (page w')) = R19.postsPromise (react19 (page w)) ->
  R19.commentsPromise (react19 (page w'))
  = R19.commentsPromise (react19 (page w)) ->
  fetching w -> fetching w'.
Proof.
  intros Hft Hu Hp Hc (_ & _ & H1 & H2 & H3 & H4 & H5 & H6).
  unfold fetching. cbn zeta. rewrite Hu, Hp, Hc.
  split.
  { intros tm Htm. apply fetch_timer_after; [exact Htm|]. apply Hft.
    rewrite Hts in Htm. now apply filter_In in Htm as [Htm _]. }
  split; [rewrite Hts; now apply targets_filter|].
  repeat split;
    first [ now apply arriving19_after
          | apply arriving18_after; [unfold of_react18; auto | assumption] ].
Qed.

End AfterFire.

Lemma fetching_fire (t : timer Value Timeout) (w : world) :
  on_schedule w -> fetching w -> earliest (timers w) = Some t ->
  fetching (fire run_timeout run_reaction t w).
Proof.
  intros (k1 & k2 & k3 & k4 & k5 & _) Hf He.
  pose proof (earliest_In _ He) as Hin.
  pose proof Hf as (Hft & Htg & _).
  assert (Hmax : Z.max (now w) (due t) = due t)
    by (specialize (k3 t Hin); lia).
  pose proof (Hft t Hin) as Ht. unfold fetch_timer in Ht.
  destruct (action t) as [p v|p e|p k|h] eqn:Ha; try contradiction.
  - destruct Ht as (r & Hn & ->).
    rewrite (@fire_resolve_one _ _ _ _ run_timeout run_reaction t p _ r w Ha Hn k5),
      Hmax.
    destruct (reaction_keeps_18 r (awaited r) (due t) (page w)) as (Hs18 & _).
    destruct (reaction_keeps_19 r (awaited r) (due t) (page w))
      as (Hu & Hp & Hc & Hs19).
    assert (Hlen : (p < List.length (promises w))%nat)
      by (apply nth_error_Some; congruence).
    apply (@fetching_after w _ t); cbn [timers now page promises];
      try assumption; try reflexivity.
    + split; [specialize (k3 t Hin); lia | lia].
    + intros q v Hq. rewrite Ha in Hq. injection Hq as <- _.
      unfold state_of. now rewrite Hn.
    + intros q Hq. apply nth_error_replace_nth_other.
      intros <-. exact (Hq _ Ha).
    + intros q v Hq. rewrite Ha in Hq. injection Hq as <- <-.
      unfold state_of. cbn [promises].
      now rewrite nth_error_replace_nth_same.
    + intros r0. apply has_data_reaction.
    + intros q r0 Hq Hn0 Hr0. rewrite Ha in Hq. injection Hq as <- _.
      rewrite Hn in Hn0. injection Hn0 as <-. now apply has_data_set.
  - rewrite (@fire_page_world _ _ _ _ run_timeout run_reaction t h w Ha k5), Hmax.
    destruct (timeout_keeps_19 h (due t) (page w))
      as (Hu & Hp & Hc & Hs19 & Hs18).
    apply (@fetching_after w _ t); cbn [timers now page promises];
      try assumption; try reflexivity.
    + split; [specialize (k3 t Hin); lia | lia].
    + intros q v Hq. rewrite Ha in Hq. discriminate Hq.
    + intros q v Hq. rewrite Ha in Hq. discriminate Hq.
    + intros r0. apply has_data_timeout.
    + intros q r0 Hq. rewrite Ha in Hq. discriminate Hq.
Qed.

End SuspenseViewFacts.

Section SuspenseRunFacts.

Import Runtime Suspense SuspenseView.

Lemma nth_error_past {A} (l l' : list A) (k : nat) :
  nth_error (l ++ l') (k + List.length l) = nth_error l' k.
Proof.
  rewrite nth_error_app2 by lia. f_equal. lia.
Qed.

Lemma targets_bound (w : world) (ts : list (timer Value Timeout)) (p : nat) :
  (forall t, In t ts -> fetch_timer w t) -> In p (targets ts) ->
  (p < List.length (promises w))%nat.
Proof.
  intros Hft Hin. unfold targets in Hin.
  apply in_flat_map in Hin as (t & Ht & Hp).
  specialize (Hft t Ht). unfold fetch_timer in Hft.
  destruct (action t) as [q v| | |]; try contradiction.
  destruct Hp as [<- | []]. destruct Hft as (r & Hn & _).
  apply nth_error_Some. congruence.
Qed.

(** The world that a run of the two effects leaves, whatever timers of
    earlier runs are still there. *)
Lemma fetching_started (w : world) (kept : list (timer Value Timeout))
    (nt nt' : nat) (cs : list (nat * completion Value))
    (ev18 ev19 : list TimelineEvent) (c : option nat) :
  (forall t, In t kept -> fetch_timer w t) -> NoDup (targets kept) ->
  fetching
    (mkWorld (now w)
       (kept ++ timers18 nt (List.length (promises w)) (now w)
             ++ timers19 (4 + nt) (3 + List.length (promises w)) (now w))
       nt'
       (promises w ++ [ mkPromise Pending [UserLoaded18];
                        mkPromise Pending [PostsLoaded18];
                        mkPromise Pending [CommentsLoaded18];
                        mkPromise Pending [UserLoaded19];
                        mkPromise Pending [PostsLoaded19];
                        mkPromise Pending [CommentsLoaded19] ])
       cs []
       (mkPage (R18.mkState false None None None ev18 (now w) c)
               (R19.mkState (Some (3 + List.length (promises w)))%nat
                  (Some (4 + List.length (promises w)))%nat
                  (Some (5 + List.length (promises w)))%nat
                  ev19 (now w)))).
Proof.
  intros Hft Hnd.
  set (np := List.length (promises w)).
  set (ps := promises w ++ _).
  assert (Hnew : forall k, nth_error ps (k + np) 
                           = nth_error [ mkPromise Pending [UserLoaded18];
                                         mkPromise Pending [PostsLoaded18];
                                         mkPromise Pending [CommentsLoaded18];
                                         mkPromise Pending [UserLoaded19];
                                         mkPromise Pending [PostsLoaded19];
                                         mkPromise Pending [CommentsLoaded19] ] k)
    by (intros k; apply nth_error_past).
  unfold fetching, arriving19, arriving18, start18, start19, state_of.
  cbn [timers promises page now react18 react19 R19.userPromise
       R19.postsPromise R19.commentsPromise R19.startTimeRef R18.startTimeRef].
  split.
  { intros t Hin. apply in_app_or in Hin as [Hin | Hin].
    - specialize (Hft t Hin). unfold fetch_timer in *.
      destruct (action t) as [p v| | |]; auto.
      destruct Hft as (r & Hn & Hv). exists r. split; [|exact Hv].
      cbn [promises]. subst ps. rewrite nth_error_app1; [exact Hn|].
      apply nth_error_Some. congruence.
    - unfold fetch_timer. cbn [promises].
      apply in_app_or in Hin as [Hin | Hin];
        [unfold timers18 in Hin | unfold timers19 in Hin];
        destruct Hin as [<- | [<- | [<- | [<- | []]]]]; cbn [action]; auto.
      + exists UserLoaded18. split; [exact (Hnew 0%nat) | reflexivity].
      + exists PostsLoaded18. split; [exact (Hnew 1%nat) | reflexivity].
      + exists CommentsLoaded18. split; [exact (Hnew 2%nat) | reflexivity].
      + exists UserLoaded19. split; [exact (Hnew 3%nat) | reflexivity].
      + exists PostsLoaded19. split; [exact (Hnew 4%nat) | reflexivity].
      + exists CommentsLoaded19. split; [exact (Hnew 5%nat) | reflexivity]. }
  split.
  { unfold targets. rewrite !flat_map_app. fold (targets kept).
    unfold timers18, timers19. cbn [List.flat_map action List.app].
    apply NoDup_app; [exact Hnd | |].
    - repeat constructor; cbn [In]; fold np; lia.
    - intros p Hp Hin. pose proof (@targets_bound w kept p Hft Hp) as Hlt.
      fold np in Hlt. cbn [In] in Hin. lia. }
  split.
  { exists (3 + np)%nat. split; [reflexivity|]. right. split.
    - now rewrite (Hnew 3%nat).
    - exists (1 + (4 + nt))%nat. apply in_or_app. right. apply in_or_app.
      right. right. left. reflexivity. }
  split.
  { exists (4 + np)%nat. split; [reflexivity|]. right. split.
    - now rewrite (Hnew 4%nat).
    - exists (2 + (4 + nt))%nat. apply in_or_app. right. apply in_or_app.
      right. right. right. left. reflexivity. }
  split.
  { exists (5 + np)%nat. split; [reflexivity|]. right. split.
    - now rewrite (Hnew 5%nat).
    - exists (3 + (4 + nt))%nat. apply in_or_app. right. apply in_or_app.
      right. right. right. right. left. reflexivity. }
  split.
  { right. exists (1 + nt)%nat, np. split; [|exact (Hnew 0%nat)].
    apply in_or_app. right. apply in_or_app. left. right. left. reflexivity. }
  split.
  { right. exists (2 + nt)%nat, (1 + np)%nat. split; [|exact (Hnew 1%nat)].
    apply in_or_app. right. apply in_or_app. left. right. right. left.
    reflexivity. }
  right. exists (3 + nt)%nat, (2 + np)%nat. split; [|exact (Hnew 2%nat)].
  apply in_or_app. right. apply in_or_app. left. right. right. right. left.
  reflexivity.
Qed.

Lemma fetching_mount (t0 : Z) : fetching (mount t0).
Proof.
  rewrite mount_exec.
  exact (@fetching_started
           (idle t0 (mkPage (R18.initial t0) (R19.initial t0)))
           [] 0 8 [] (fetch_starts18 t0) (fetch_starts19 t0) (Some 0%nat)
           (fun t H => match H with end) (NoDup_nil _)).
Qed.

Lemma fetching_reset (w : world) :
  microtasks w = [] -> fetching w -> fetching (reset w).
Proof.
  intros Hm (Hft & Htg & _). rewrite (reset_exec w Hm).
  apply fetching_started.
  - intros t Hin. apply Hft.
    destruct (R18.cleanup (react18 (page w))); [|exact Hin].
    now apply filter_In in Hin as [Hin _].
  - destruct (R18.cleanup (react18 (page w))); [|exact Htg].
    now apply targets_filter.
Qed.

Lemma fetching_clock (n : Z) (w : world) :
  now w <= n -> fetching w ->
  fetching (mkWorld n (timers w) (next_timer w) (promises w) (settle_calls w)
                    (microtasks w) (page w)).
Proof.
  intros Hn (H0 & H1 & H2 & H3 & H4 & H5 & H6 & H7).
  assert (Hlater : forall promise v delay,
             arriving19 w promise v delay ->
             arriving19 (mkWorld n (timers w) (next_timer w) (promises w)
                           (settle_calls w) (microtasks w) (page w))
               promise v delay).
  { intros promise v delay (p & Hp & [[Hf Hle] | Hpend]); exists p;
      (split; [exact Hp|]); [left | right; exact Hpend].
    split; [exact Hf|]. unfold start19 in *. cbn [now page]. lia. }
  unfold fetching. cbn zeta. cbn [page].
  repeat split; auto.
Qed.

Lemma fetching_wait (ms : N) (w : world) :
  on_schedule w -> fetching w ->
  fetching (wait run_timeout run_reaction ms w).
Proof.
  intros Hs Hf. unfold wait.
  apply (@advance_to_reaches _ _ _ _ run_timeout run_reaction
           (fun w => on_schedule w /\ fetching w) fetching).
  - intros w0 t [Hs0 Hf0] He _. split.
    + now apply on_schedule_fire.
    + now apply fetching_fire.
  - intros w0 [_ Hf0] _. apply fetching_clock; [lia | exact Hf0].
  - split; assumption.
Qed.

Lemma fetching_run (inputs : list input) (w : world) :
  punctual w -> fetching w -> fetching (run inputs w).
Proof.
  revert w. induction inputs as [|i inputs IH]; intros w Hp Hf; [exact Hf|].
  cbn [run List.fold_left]. destruct i as [ms|]; cbn [step].
  - apply IH; [apply punctual_wait, Hp | apply fetching_wait; [apply Hp | exact Hf]].
  - apply IH; [now apply punctual_reset | apply fetching_reset; [apply Hp | exact Hf]].
Qed.

End SuspenseRunFacts.

Section SuspenseScreens.

Import Runtime Suspense SuspenseView.

Lemma spinner_delayed_later (n n' : Z) (pg : Page) :
  spinner_delayed n pg -> n <= n' -> spinner_delayed n' pg.
Proof. intros H Hle Hs. specialize (H Hs). lia. Qed.

Lemma spinner_delayed_reaction (r : Reaction) (v : Value) (n : Z) (pg : Page) :
  spinner_delayed n pg -> spinner_delayed n (run_reaction r v n pg).
Proof. unfold spinner_delayed. destruct r; cbn; auto; discriminate. Qed.

Lemma spinner_delayed_timeout (t : timer Value Timeout) (h : Timeout)
    (n : Z) (pg : Page) :
  action t = Runtime.Page h -> fallback_timer_current t pg ->
  spinner_delayed n pg -> due t <= n ->
  spinner_delayed n (run_timeout h n pg).
Proof.
  intros Ha Ht H Hdue. destruct h; cbn.
  - intros _. cbn. destruct (Ht Ha) as [Hs _]. lia.
  - exact H.
Qed.

Lemma spinner_wait (ms : N) (w : world) :
  timeline_ok w -> spinner_delayed (now w) (page w) ->
  spinner_delayed (now (wait run_timeout run_reaction ms w))
                  (page (wait run_timeout run_reaction ms w)).
Proof.
  intros [[_ HQ] _] HI. unfold wait.
  apply (@advance_to_keeps _ _ _ _ run_timeout run_reaction
           spinner_delayed fallback_timer_current);
    [ exact spinner_delayed_later
    | exact spinner_delayed_reaction
    | exact fallback_timer_reaction
    | exact spinner_delayed_timeout
    | exact fallback_timer_timeout
    | exact fallback_timer_resume
    | split; assumption ].
Qed.

Lemma spinner_run (inputs : list input) (w : world) :
  timeline_ok w -> spinner_delayed (now w) (page w) ->
  spinner_delayed (now (run inputs w)) (page (run inputs w)).
Proof.
  revert w. induction inputs as [|i inputs IH]; intros w Hw Hs; [exact Hs|].
  cbn [run List.fold_left]. destruct i as [ms|]; cbn [step].
  - apply IH; [now apply timeline_ok_wait | now apply spinner_wait].
  - apply IH; [now apply timeline_ok_reset|].
    destruct Hw as [_ Hm]. rewrite (reset_exec w Hm).
    intros Hshow. discriminate Hshow.
Qed.

(** X15.  [React19Demo], through any waits and resets after the page is
    mounted: its [Suspense] boundary shows the fallback as long as less than
    3000 ms have passed since the start of the current run, and from then on
    the three children with the user profile, the two posts and the three
    comments of the simulated fetches. *)
Theorem react19_shows_content_from_3000 (t0 : Z) (inputs : list input) :
  let w := run inputs (mount t0) in
  React19Demo w
  = if Z.ltb (now w) (start19 w + 3000) then Fallback_shown
    else Children (Some user_profile) (Some two_posts) (Some three_comments).
Proof.
  intros w.
  assert (Hp : punctual w) by apply punctual_run, punctual_mount.
  assert (Hf : fetching w)
    by (apply fetching_run; [apply punctual_mount | apply fetching_mount]).
  destruct Hp as [_ Hfuture].
  destruct Hf as (_ & _ & (pu & Hpu & Hu) & (pp & Hpp & Hps) & (pc & Hpc & Hc) & _).
  unfold React19Demo, child, use. cbn zeta. rewrite Hpu, Hpp, Hpc.
  assert (Hdue : forall id p v delay,
             In (mkTimer id (start19 w + delay) (Resolve p v)) (timers w) ->
             now w < start19 w + delay).
  { intros id p v delay Hin. exact (Hfuture _ Hin). }
  destruct (Z.ltb_spec (now w) (start19 w + 3000)) as [Hearly | Hlate].
  - destruct Hc as [[_ Hle] | [Hpend _]]; [lia|]. rewrite Hpend.
    destruct Hu as [[-> _] | [-> _]]; [|reflexivity].
    destruct Hps as [[-> _] | [-> _]]; reflexivity.
  - destruct Hu as [[-> _] | [_ (id & Hin)]];
      [|apply Hdue in Hin; lia].
    destruct Hps as [[-> _] | [_ (id & Hin)]];
      [|apply Hdue in Hin; lia].
    destruct Hc as [[-> _] | [_ (id & Hin)]];
      [|apply Hdue in Hin; lia].
    reflexivity.
Qed.

(** X16.  [React18Simulation], through any waits and resets after the page
    is mounted: once 3000 ms have passed since the start of the current run
    it shows the content, with the user profile, the two posts and the
    three comments of the simulated fetches. *)
Theorem react18_content_by_3000 (t0 : Z) (inputs : list input) :
  let w := run inputs (mount t0) in
  start18 w + 3000 <= now w ->
  React18Simulation (react18 (page w))
  = Loaded (Some user_profile) (Some two_posts) (Some three_comments).
Proof.
  intros w Hlate.
  assert (Hp : punctual w) by apply punctual_run, punctual_mount.
  assert (Hf : fetching w)
    by (apply fetching_run; [apply punctual_mount | apply fetching_mount]).
  destruct Hp as [_ Hfuture].
  destruct Hf as (_ & _ & _ & _ & _ & Hu & Hps & Hc).
  assert (Hthere : forall r delay,
             delay <= 3000 -> arriving18 w r delay -> has_data (page w) r).
  { intros r delay Hd [H | (id & p & Hin & _)]; [exact H|].
    apply Hfuture in Hin. cbn [due] in Hin. lia. }
  apply Hthere in Hu, Hps, Hc; try lia. cbn [has_data] in Hu, Hps, Hc.
  unfold React18Simulation, isLoading. rewrite Hu, Hps, Hc.
  destruct (R18.showFallback (react18 (page w))); reflexivity.
Qed.

(** X17.  [React18Simulation], through any waits and resets after the page
    is mounted: while it shows the spinner, at least 800 ms have passed
    since the start of the current run. *)
Theorem react18_spinner_not_before_800 (t0 : Z) (inputs : list input) :
  let w := run inputs (mount t0) in
  React18Simulation (react18 (page w)) = Loading_content ->
  start18 w + 800 <= now w.
Proof.
  intros w Hshown.
  assert (Hs : spinner_delayed (now w) (page w)).
  { apply spinner_run; [apply timeline_ok_mount|].
    rewrite mount_exec. intros Hshow. discriminate Hshow. }
  apply Hs. unfold React18Simulation in Hshown.
  destruct (R18.showFallback (react18 (page w))); [reflexivity|].
  cbn [negb andb] in Hshown.
  destruct (isLoading (react18 (page w))); discriminate Hshown.
Qed.

End SuspenseScreens.

(** [react18_content_by_3000], three seconds after a mount at [noon]. *)
Lemma react18_content_by_3000_witness :
  let w := Suspense.run [Suspense.Wait 3000] (Suspense.mount noon) in
  Suspense.start18 w + 3000 <= Runtime.now w
  /\ SuspenseView.React18Simulation (Suspense.react18 (Runtime.page w))
     = SuspenseView.Loaded (Some user_profile) (Some two_posts)
         (Some three_comments).
Proof.
  cbv zeta. split; [vm_compute; discriminate|].
  apply (react18_content_by_3000 noon [Suspense.Wait 3000]).
  vm_compute. discriminate.
Defined.

(** [react18_spinner_not_before_800], 900 ms after a mount at [noon]. *)
Lemma react18_spinner_not_before_800_witness :
  let w := Suspense.run [Suspense.Wait 900] (Suspense.mount noon) in
  SuspenseView.React18Simulation (Suspense.react18 (Runtime.page w))
  = SuspenseView.Loading_content
  /\ Suspense.start18 w + 800 <= Runtime.now w.
Proof.
  cbv zeta. split; [vm_compute; reflexivity|].
  apply (react18_spinner_not_before_800 noon [Suspense.Wait 900]).
  vm_compute. reflexivity.
Defined.

Section ActivityDemoFacts.

Import ActivityDemo.

Lemma progress_in_range (events : list event) (st : state) :
  (0 <= progress st <= 100 /\ (10 | progress st)) ->
  0 <= progress (List.fold_left step events st) <= 100
  /\ (10 | progress (List.fold_left step events st)).
Proof.
  revert st. induction events as [|ev events IH]; intros st Hst; [exact Hst|].
  cbn [List.fold_left]. apply IH. destruct Hst as [Hr [k Hk]].
  destruct ev as [|interval]; cbn [step].
  - cbn. split; [lia | exists 0; lia].
  - destruct (existsb (Nat.eqb interval) (intervals st)); [|split; [lia | now exists k]].
    unfold callback. destruct (Z.leb_spec 100 (progress st)); cbn [progress].
    + split; [lia | exists 10; lia].
    + split; [lia | exists (k + 1); lia].
Qed.

Lemma one_run (k : nat) :
  (k <= 10)%nat ->
  List.fold_left step (List.repeat (IntervalFires 0) k) (simulateProgress initial)
  = mkState true (10 * Z.of_nat k) [0%nat] 1.
Proof.
  induction k as [|k IH]; intros Hk; [reflexivity|].
  replace (List.repeat (IntervalFires 0) (S k))
    with (List.repeat (IntervalFires 0) k ++ [IntervalFires 0])
    by (rewrite <- repeat_cons; reflexivity).
  rewrite fold_left_app, IH by lia. cbn [List.fold_left step intervals existsb].
  cbn [Nat.eqb orb]. unfold callback. cbn [progress isLoading intervals next_interval].
  destruct (Z.leb_spec 100 (10 * Z.of_nat k)); [lia|].
  f_equal. lia.
Qed.

(** X18.  The progress bar of the activity demo, through any clicks on its
    button and any firings of its intervals, in any order: the progress is
    a multiple of 10 between 0 and 100.  After one click, the [k]-th firing
    for [k] up to 10 leaves the progress at [10 k] with the loading flag
    set; the eleventh finds 100, clears the interval and ends the loading,
    and firings counted after that change nothing. *)
Theorem progress_steps_to_100 (events : list event) (k more : nat) :
  (0 <= progress (run events) <= 100 /\ (10 | progress (run events)))
  /\ run (Click :: List.repeat (IntervalFires 0) (Nat.min k 10))
     = mkState true (10 * Z.of_nat (Nat.min k 10)) [0%nat] 1
  /\ run (Click :: List.repeat (IntervalFires 0) (11 + more))
     = mkState false 100 [] 1.
Proof.
  split; [|split].
  - unfold run. apply progress_in_range. cbn. split; [lia | exists 0; lia].
  - unfold run. cbn [List.fold_left step]. apply one_run. lia.
  - unfold run. cbn [List.fold_left step].
    replace (11 + more)%nat with (10 + (1 + more))%nat by lia.
    rewrite repeat_app, fold_left_app, one_run by lia.
    cbn [List.repeat Nat.add List.fold_left step intervals existsb Nat.eqb orb].
    unfold callback at 1. cbn [progress Z.leb Z.mul Z.of_nat Pos.of_succ_nat
                               Pos.succ Pos.mul Pos.add Z.compare Pos.compare
                               Pos.compare_cont].
    cbn. induction more as [|more IH]; [reflexivity | exact IH].
Qed.

End ActivityDemoFacts.
